(** * IMAP migration tool: a shallow embedding of [imap_migration.py] and
      [clear_uids_by_email.py], and the properties of its specification.

    The Python code is embedded as follows.
    - A Python computation is a function of the migrator's state that yields
      a result (a value or a raised exception), the state it leaves behind
      and the effects it performed, in order ([Imap.M]).  State written
      before an exception is raised stays written, as in Python.
    - The two IMAP servers, the TLS layer and the clock are the environment.
      Every call that leaves the process takes the server's answer as an
      argument: [None]/[Ret v] when the call returns, [Some e]/[Raise e]
      when it raises [e].  The answers are grouped in records that follow
      the call structure of the code ([ConnectEnv], [ReconnectEnv],
      [AttemptEnv], [MessageEnv], [FolderEnv], [RunEnv]); loops index
      them by iteration.  Where the code takes an answer apart on the next
      line ([messages[0].split()], [uid_data[0].decode().split()[2]], ...),
      the answer stands for the call and that line together.
    - The SQLite file is a list of rows; the three SQL statements the code
      issues are given their SQLite meaning in [Store].  The statements
      themselves do not fail for reasons outside the table (a locked or
      full disk is not part of the model).
    - Exceptions are those of class [Exception]; logging and the parsing of
      the subject line do not raise. *)

From Stdlib Require Import String Ascii List Arith Bool ZArith Lia Sorted.
Import ListNotations.
Open Scope string_scope.
Open Scope list_scope.
Open Scope nat_scope.

(* ===================================================================== *)
(** * Python values: exceptions and results                               *)
(* ===================================================================== *)

Module Py.

(** The code tells exceptions apart by class in one place only
    ([except socket.error] before [except Exception], [migrate_message]),
    and reads [e.errno] and [str(e)].  [socket.error] is [OSError]. *)
Inductive exn : Type :=
| OSError (errno : option Z) (msg : string)
| Exception (msg : string).

(** [str(e)] *)
Definition str (e : exn) : string :=
  match e with
  | OSError _ m => m
  | Exception m => m
  end.

Inductive Res (A : Type) : Type :=
| Ret (a : A)
| Raise (e : exn).
Arguments Ret {A} a.
Arguments Raise {A} e.

(** A call that returns nothing of interest: [None] when it returns. *)
Definition res_of (r : option exn) : Res unit :=
  match r with
  | None => Ret tt
  | Some e => Raise e
  end.

Definition err_of {A : Type} (r : Res A) : option exn :=
  match r with
  | Ret _ => None
  | Raise e => Some e
  end.

(** [needle in s] on strings *)
Fixpoint contains (needle s : string) : bool :=
  if String.prefix needle s then true
  else match s with
       | EmptyString => false
       | String _ s' => contains needle s'
       end.

(** Truthiness of [True], [False] and [None]. *)
Definition truthy (v : option bool) : bool :=
  match v with
  | Some b => b
  | None => false
  end.

End Py.
Import Py.

(* ===================================================================== *)
(** * The dedup store: table [migrated_messages]                          *)
(* ===================================================================== *)

Module Store.

(** Columns [folder TEXT, uid TEXT, dest_email TEXT]. *)
Record Row : Type := mkRow {
  folder : string;
  uid : string;
  dest_email : string
}.

Definition row_eqb (a b : Row) : bool :=
  String.eqb (folder a) (folder b)
  && String.eqb (uid a) (uid b)
  && String.eqb (dest_email a) (dest_email b).

(** The rows of the table, in insertion order. *)
Definition Table : Type := list Row.

(** [PRIMARY KEY (folder, uid, dest_email)]: what SQLite does when an
    inserted row collides with a stored one depends on the statement's
    conflict clause. *)
Inductive OnConflict : Type := ABORT | IGNORE.

Definition sql_insert (oc : OnConflict) (r : Row) (t : Table) : Res Table :=
  if existsb (row_eqb r) t then
    match oc with
    | ABORT => Raise (Exception "UNIQUE constraint failed")
    | IGNORE => Ret t
    end
  else Ret (t ++ [r]).

(** The table that [INSERT OR IGNORE] of [r] leaves (see
    [sql_insert_ignore] below). *)
Definition insert_ignore (r : Row) (t : Table) : Table :=
  if existsb (row_eqb r) t then t else t ++ [r].

(** [SELECT uid FROM migrated_messages WHERE folder = ? AND dest_email = ?] *)
Definition sql_select_uid (f d : string) (t : Table) : list string :=
  map uid (filter (fun r => String.eqb (folder r) f && String.eqb (dest_email r) d) t).

(** [SELECT COUNT( * ) FROM migrated_messages WHERE dest_email = ?] *)
Definition sql_count_dest (d : string) (t : Table) : nat :=
  length (filter (fun r => String.eqb (dest_email r) d) t).

(** [DELETE FROM migrated_messages WHERE dest_email = ?] *)
Definition sql_delete_dest (d : string) (t : Table) : Table :=
  filter (fun r => negb (String.eqb (dest_email r) d)) t.

(** [init_db]: [CREATE TABLE IF NOT EXISTS]; [None] is a database file
    without the table. *)
Definition init_db (file : option Table) : Table :=
  match file with
  | None => []
  | Some t => t
  end.

End Store.

(* ===================================================================== *)
(** * [clear_uids_by_email.py]                                            *)
(* ===================================================================== *)

Module ClearUids.
Import Store.

Inductive LogLine : Type :=
| RowsBefore (email : string) (n : nat)
| DeletedSuccessfully (email : string)
| RowsAfter (email : string) (n : nat)
| NoRowsFound (email : string).

(** [delete_rows(email)], on a database whose table exists: the table it
    leaves and the lines it logs. *)
Definition delete_rows (email : string) (t : Table) : Table * list LogLine :=
  let count_before := sql_count_dest email t in
  if 0 <? count_before then
    let t' := sql_delete_dest email t in
    let count_after := sql_count_dest email t' in
    (t', [RowsBefore email count_before; DeletedSuccessfully email;
          RowsAfter email count_after])
  else
    (t, [RowsBefore email count_before; NoRowsFound email]).

End ClearUids.

(* ===================================================================== *)
(** * [imap_migration.py]: class [IMAPMigration]                          *)
(* ===================================================================== *)

Module Imap.
Import Store.

(** ** Sessions, effects and state *)

Inductive Side : Type := Source | Dest.

(** An [imaplib.IMAP4_SSL] object; [sid] tells apart the objects created
    by successive [connect]s. *)
Record Session : Type := mkSession {
  side : Side;
  sid : nat
}.

Definition Flags : Type := list string.
Definition Body : Type := string.

(** The [imaplib] methods the code calls, with their arguments. *)
Inductive Command : Type :=
| LOGIN
| LOGOUT
| LIST
| CREATE (folder : string)
| SELECT (folder : string)
| SEARCH_ALL
| FETCH_UID (num : string)
| FETCH_RFC822_FLAGS (num : string)
| APPEND (folder : string) (flags : Flags) (body : Body).

Definition method_name (c : Command) : string :=
  match c with
  | LOGIN => "login"
  | LOGOUT => "logout"
  | LIST => "list"
  | CREATE _ => "create"
  | SELECT _ => "select"
  | SEARCH_ALL => "search"
  | FETCH_UID _ => "fetch"
  | FETCH_RFC822_FLAGS _ => "fetch"
  | APPEND _ _ _ => "append"
  end.

Inductive Level : Type := INFO | WARNING | ERROR.

(** One constructor per [self.logger] call of the class, with the values
    its f-string interpolates.  Folder names are shown through
    [decode_folder_name]; the message keeps the raw name.  The subject of
    the "Successfully migrated" line is left out. *)
Inductive LogMsg : Type :=
| ConnectedSource
| ConnectedDest
| ConnectionError (e : exn)
| ReselectedFolder (folder : string)
| CreatedFolder (folder : string)
| FolderAlreadyExists (folder : string)
| MigratingFolder (folder : string) (total : nat)
| SkippingAlreadyMigrated (uid folder : string)
| FailedAfterMultipleAttempts (uid folder : string)
| ErrorMigratingFolder (folder : string) (e : exn)
| SuccessfullyMigrated (uid folder : string)
| ConnectionResetByPeer (uid : string) (attempt retries : nat)
| SocketError (uid : string) (e : exn)
| AttemptFailed (attempt retries : nat) (uid : string) (e : exn)
| AttemptingToReconnect
| FinalFailure (uid : string) (e : exn)
| MigrationCompleted.

(** What a run does to the world, in order.  A call of [reconnect] from
    [migrate_message] is one event that holds the effects of the call. *)
#[warnings="-register-all"]
Inductive Event : Type :=
| EvOpen (sd : Side) (r : Res Session)
| EvImap (s : Session) (c : Command) (err : option exn)
| EvSleep (secs : nat)
| EvInsert (r : Row)
| EvLog (lvl : Level) (msg : LogMsg)
| EvReconnect (folder : string) (inner : list Event) (result : Res bool).

(** The attributes of [self] that change, and the database file. *)
Record State : Type := mkState {
  source : option Session;
  dest : option Session;
  dest_user : string;
  db : Table;
  next_sid : nat
}.

Definition set_source (x : option Session) (s : State) : State :=
  mkState x (dest s) (dest_user s) (db s) (next_sid s).
Definition set_dest (x : option Session) (s : State) : State :=
  mkState (source s) x (dest_user s) (db s) (next_sid s).
Definition set_db (t : Table) (s : State) : State :=
  mkState (source s) (dest s) (dest_user s) t (next_sid s).
Definition bump_sid (s : State) : State :=
  mkState (source s) (dest s) (dest_user s) (db s) (S (next_sid s)).

(** [IMAPMigration(email_config)]: no sessions yet, the table created. *)
Definition init (dest_email : string) (file : option Table) : State :=
  mkState None None dest_email (init_db file) 0.

(** ** The monad *)

Definition M (A : Type) : Type := State -> Res A * State * list Event.

Definition ret {A : Type} (a : A) : M A := fun s => (Ret a, s, []).

Definition bind {A B : Type} (m : M A) (k : A -> M B) : M B :=
  fun s =>
    match m s with
    | (Ret a, s1, t1) =>
        match k a s1 with
        | (r, s2, t2) => (r, s2, t1 ++ t2)
        end
    | (Raise e, s1, t1) => (Raise e, s1, t1)
    end.

(** [try: m  except ...: h e].  The class has no exception outside
    [Exception], so [except Exception] and a bare [except] catch alike. *)
Definition try_except {A : Type} (m : M A) (h : exn -> M A) : M A :=
  fun s =>
    match m s with
    | (Ret a, s1, t1) => (Ret a, s1, t1)
    | (Raise e, s1, t1) =>
        match h e s1 with
        | (r, s2, t2) => (r, s2, t1 ++ t2)
        end
    end.

(** [try: m  finally: f]: [f] runs on both exits of [m]; an exception of
    [f] replaces the outcome of [m]. *)
Definition try_finally {A : Type} (m : M A) (f : M unit) : M A :=
  fun s =>
    match m s with
    | (r, s1, t1) =>
        match f s1 with
        | (Ret _, s2, t2) => (r, s2, t1 ++ t2)
        | (Raise e, s2, t2) => (Raise e, s2, t1 ++ t2)
        end
    end.

Definition emit (e : Event) : M unit := fun s => (Ret tt, s, [e]).
Definition modify (f : State -> State) : M unit := fun s => (Ret tt, f s, []).

Definition log (lvl : Level) (msg : LogMsg) : M unit := emit (EvLog lvl msg).
Definition sleep (secs : nat) : M unit := emit (EvSleep secs).

Declare Scope imap_scope.
Delimit Scope imap_scope with imap.
Notation "x <- m ;; k" := (bind m (fun x => k))
  (at level 61, m at next level, right associativity) : imap_scope.
Notation "' pat <- m ;; k" := (bind m (fun x => match x with pat => k end))
  (at level 61, pat pattern, m at next level, right associativity) : imap_scope.
Notation "m ;; k" := (bind m (fun _ => k))
  (at level 61, right associativity) : imap_scope.
Open Scope imap_scope.

(** [sess.method(args)] on the session held in an attribute of [self]:
    [AttributeError] on [None], otherwise the server's answer [r]. *)
Definition imap {A : Type} (attr : State -> option Session) (c : Command)
    (r : Res A) : M A :=
  fun s =>
    match attr s with
    | None =>
        (Raise (Exception
           (String.append "'NoneType' object has no attribute '"
              (String.append (method_name c) "'"))),
         s, [])
    | Some x => (r, s, [EvImap x c (err_of r)])
    end.

(** [imaplib.IMAP4_SSL(host, ssl_context=context, timeout=30)] *)
Definition imap_open (sd : Side) (r : option exn) : M Session :=
  fun s =>
    match r with
    | Some e => (Raise e, s, [EvOpen sd (Raise e)])
    | None =>
        let x := mkSession sd (next_sid s) in
        (Ret x, bump_sid s, [EvOpen sd (Ret x)])
    end.

(** [if self.attr: self.attr.logout()] *)
Definition logout_if_set (attr : State -> option Session) (r : option exn) : M unit :=
  fun s =>
    match attr s with
    | None => (Ret tt, s, [])
    | Some _ => imap attr LOGOUT (res_of r) s
    end.

(** ** The environment's answers *)

Record ConnectEnv : Type := mkConnectEnv {
  src_open : option exn;
  src_login : option exn;
  dst_open : option exn;
  dst_login : option exn
}.

Record ReconnectEnv : Type := mkReconnectEnv {
  rc_src_logout : option exn;
  rc_dst_logout : option exn;
  rc_connect : ConnectEnv;
  rc_select : option exn
}.

(** The status of an answer, as [imaplib] hands it back: it raises on
    [BAD] and on a broken connection, and returns a refusal of the
    server, ['NO'], as it returns ['OK']. *)
Inductive Typ : Type := OK | NO.

(** One pass through the [try] of [migrate_message] and its handlers.
    [at_fetch] answers lines 256-258: the flags and the body, or the
    exception of the call or of taking its answer apart.  [at_append]
    is the exception of [append], if it raises, and [at_append_typ] the
    status it hands back when it returns. *)
Record AttemptEnv : Type := mkAttemptEnv {
  at_fetch : Res (Flags * Body);
  at_append : option exn;
  at_append_typ : Typ;
  at_reconnect : ReconnectEnv
}.

(** What [self.dest.append(...)] of line 261 does. *)
Definition append_answer (ae : AttemptEnv) : Res Typ :=
  match at_append ae with
  | Some e => Raise e
  | None => Ret (at_append_typ ae)
  end.

(** One message of the folder loop.  [me_uid] answers lines 235-236: the
    uid the code extracts, or the exception of either line. *)
Record MessageEnv : Type := mkMessageEnv {
  me_uid : Res string;
  me_attempts : nat -> AttemptEnv
}.

(** One folder of the run.  [fe_search] answers lines 222-223. *)
Record FolderEnv : Type := mkFolderEnv {
  fe_create : option exn;
  fe_select_src : option exn;
  fe_search : Res (list string);
  fe_select_dst : option exn;
  fe_messages : nat -> MessageEnv
}.

(** One run of [migrate_all].  [re_list] answers [get_folders]. *)
Record RunEnv : Type := mkRunEnv {
  re_connect : ConnectEnv;
  re_list : Res (list string);
  re_folders : nat -> FolderEnv;
  re_logout_src : option exn;
  re_logout_dst : option exn
}.

(** ** Methods *)

(** [store_migrated_uid]: [INSERT OR IGNORE ... VALUES (folder, uid,
    self.dest_user)], then commit. *)
Definition store_migrated_uid (folder uid : string) : M unit :=
  fun s =>
    let row := mkRow folder uid (dest_user s) in
    match sql_insert IGNORE row (db s) with
    | Ret t => (Ret tt, set_db t s, [EvInsert row])
    | Raise e => (Raise e, s, [EvInsert row])
    end.

(** [get_migrated_uids]: the set of the selected uids; the code only asks
    it for membership. *)
Definition get_migrated_uids (folder : string) : M (list string) :=
  fun s => (Ret (sql_select_uid folder (dest_user s) (db s)), s, []).

(** [uid in migrated_uids] *)
Definition mem (u : string) (l : list string) : bool :=
  existsb (String.eqb u) l.

Definition connect (ce : ConnectEnv) : M bool :=
  try_except
    (x <- imap_open Source (src_open ce);;
     modify (set_source (Some x));;
     imap source LOGIN (res_of (src_login ce));;
     log INFO ConnectedSource;;
     y <- imap_open Dest (dst_open ce);;
     modify (set_dest (Some y));;
     imap dest LOGIN (res_of (dst_login ce));;
     log INFO ConnectedDest;;
     ret true)
    (fun e => log ERROR (ConnectionError e);; ret false).

(** [reconnect(folder)]; [folder] is [None] by default, and [if folder:]
    is false on [None] and on the empty string. *)
Definition reconnect (re : ReconnectEnv) (folder : option string) : M bool :=
  try_except
    (logout_if_set source (rc_src_logout re);;
     logout_if_set dest (rc_dst_logout re))
    (fun _ => ret tt);;
  sleep 1;;
  ok <- connect (rc_connect re);;
  if negb ok then ret false
  else
    match folder with
    | Some (String c f) =>
        imap source (SELECT (String c f)) (res_of (rc_select re));;
        log INFO (ReselectedFolder (String c f));;
        ret true
    | _ => ret true
    end.

(** [self.reconnect(folder)] as called by [migrate_message]: the value
    it returns is dropped. *)
Definition call_reconnect (re : ReconnectEnv) (folder : string) : M unit :=
  fun s =>
    match reconnect re (Some folder) s with
    | (Ret b, s1, t) => (Ret tt, s1, [EvReconnect folder t (Ret b)])
    | (Raise e, s1, t) => (Raise e, s1, [EvReconnect folder t (Raise e)])
    end.

Definition get_folders (r : Res (list string)) : M (list string) :=
  imap source LIST r.

Definition create_folder (r : option exn) (folder : string) : M unit :=
  try_except
    (imap dest (CREATE folder) (res_of r);;
     log INFO (CreatedFolder folder))
    (fun _ => log INFO (FolderAlreadyExists folder)).

(** What one iteration of a [for] body does to the loop. *)
Inductive Step (A : Type) : Type :=
| Return (a : A)
| Continue.
Arguments Return {A} a.
Arguments Continue {A}.

(** Lines 256-270: the [try] block of [migrate_message] up to its
    [return True].  Line 261 is a statement: the status that [append]
    hands back is dropped, and the next line runs whenever the call
    returns. *)
Definition transfer (ae : AttemptEnv) (num folder uid : string) : M unit :=
  ' (flags, email_body) <- imap source (FETCH_RFC822_FLAGS num) (at_fetch ae);;
  imap dest (APPEND folder flags email_body) (append_answer ae);;
  store_migrated_uid folder uid;;
  log INFO (SuccessfullyMigrated uid folder).

(** Lines 273-291: the two [except] clauses. *)
Definition on_error (ae : AttemptEnv) (folder uid : string)
    (attempt retries : nat) (e : exn) : M (Step bool) :=
  match e with
  | OSError errno _ =>
      if match errno with Some n => Z.eqb n 54 | None => false end then
        log ERROR (ConnectionResetByPeer uid (attempt + 1) retries);;
        call_reconnect (at_reconnect ae) folder;;
        sleep (2 ^ attempt);;
        ret Continue
      else
        log WARNING (SocketError uid e);;
        ret (Return false)
  | Exception _ =>
      log WARNING (AttemptFailed (attempt + 1) retries uid e);;
      if attempt <? retries - 1 then
        (if contains "BAD_LENGTH" (str e) || contains "socket error" (str e) then
           log INFO AttemptingToReconnect;;
           call_reconnect (at_reconnect ae) folder
         else ret tt);;
        sleep (2 ^ attempt);;
        ret Continue
      else
        log ERROR (FinalFailure uid e);;
        ret (Return false)
  end.

(** [for attempt in range(retries): ...]; falling off the loop returns
    [None]. *)
Fixpoint migrate_message_from (env : nat -> AttemptEnv) (num folder uid : string)
    (retries : nat) (attempts : list nat) : M (option bool) :=
  match attempts with
  | [] => ret None
  | attempt :: rest =>
      st <- try_except
              (transfer (env attempt) num folder uid;; ret (Return true))
              (on_error (env attempt) folder uid attempt retries);;
      match st with
      | Return b => ret (Some b)
      | Continue => migrate_message_from env num folder uid retries rest
      end
  end.

Definition migrate_message (env : nat -> AttemptEnv) (num folder uid : string)
    (retries : nat) : M (option bool) :=
  migrate_message_from env num folder uid retries (seq 0 retries).

(** [retries=3] *)
Definition default_retries : nat := 3.

(** Lines 234-245: [for num in message_nums]; [i] is the position of
    [num] in the search result. *)
Fixpoint migrate_folder_from (env : nat -> MessageEnv) (folder : string)
    (migrated_uids : list string) (i : nat) (message_nums : list string) : M unit :=
  match message_nums with
  | [] => ret tt
  | num :: rest =>
      uid <- imap source (FETCH_UID num) (me_uid (env i));;
      (if mem uid migrated_uids then
         log INFO (SkippingAlreadyMigrated uid folder)
       else
         success <- migrate_message (me_attempts (env i)) num folder uid
                      default_retries;;
         if negb (truthy success) then
           log ERROR (FailedAfterMultipleAttempts uid folder)
         else ret tt);;
      migrate_folder_from env folder migrated_uids (S i) rest
  end.

Definition migrate_folder (fe : FolderEnv) (folder : string) : M bool :=
  try_except
    (imap source (SELECT folder) (res_of (fe_select_src fe));;
     message_nums <- imap source SEARCH_ALL (fe_search fe);;
     migrated_uids <- get_migrated_uids folder;;
     log INFO (MigratingFolder folder (length message_nums));;
     imap dest (SELECT folder) (res_of (fe_select_dst fe));;
     migrate_folder_from (fe_messages fe) folder migrated_uids 0 message_nums;;
     ret true)
    (fun e => log ERROR (ErrorMigratingFolder folder e);; ret false).

(** Lines 300-302: [for folder in folders]. *)
Fixpoint migrate_all_from (env : nat -> FolderEnv) (i : nat)
    (folders : list string) : M unit :=
  match folders with
  | [] => ret tt
  | folder :: rest =>
      create_folder (fe_create (env i)) folder;;
      _ <- migrate_folder (env i) folder;;
      migrate_all_from env (S i) rest
  end.

(** [migrate_all] returns [False] when [connect] fails and [None]
    otherwise. *)
Definition migrate_all (env : RunEnv) : M (option bool) :=
  ok <- connect (re_connect env);;
  if negb ok then ret (Some false)
  else
    try_finally
      (folders <- get_folders (re_list env);;
       migrate_all_from (re_folders env) 0 folders;;
       log INFO MigrationCompleted;;
       ret None)
      (logout_if_set source (re_logout_src env);;
       logout_if_set dest (re_logout_dst env)).

End Imap.

(* ===================================================================== *)
(** * [decode_folder_name]                                                *)
(* ===================================================================== *)

Module FolderNameCodec.

(** A Python [str] is the list of its code points, a [bytes] the list of
    its values below 256. *)
Definition pystr : Type := list N.
Definition bytes : Type := list N.

(** The [str] of an ASCII literal. *)
Definition u (s : string) : pystr := map N_of_ascii (list_ascii_of_string s).

Definition chr (c : ascii) : N := N_of_ascii c.

(** [s.startswith(c)] for a one-character [c] *)
Definition startswith (c : N) (s : pystr) : bool :=
  match s with
  | [] => false
  | x :: _ => N.eqb x c
  end.

(** [s.replace(old, new)] for one-character [old] and [new] *)
Definition replace (old new : N) (s : pystr) : pystr :=
  map (fun x => if N.eqb x old then new else x) s.

Section Decode.

(** [base64.b64decode] and [bytes.decode('utf-16be')] belong to the Python
    library: each returns a value or raises. *)
Variable b64decode : pystr -> Res bytes.
Variable decode_utf16be : bytes -> Res pystr.

(** Lines 65-86, the body of the [try]. *)
Definition decode_folder_name_try (encoded_name : pystr) : Res pystr :=
  let encoded_name :=
    if startswith (chr "&") encoded_name then skipn 1 encoded_name
    else encoded_name in
  let encoded_name := replace (chr ",") (chr "/") encoded_name in
  let encoded_name := replace (chr "-") (chr "=") encoded_name in
  let padding_length := length encoded_name mod 4 in
  let encoded_name :=
    if negb (padding_length =? 0)
    then encoded_name ++ repeat (chr "=") (4 - padding_length)
    else encoded_name in
  match b64decode encoded_name with
  | Raise e => Raise e
  | Ret decoded_bytes =>
      match decode_utf16be decoded_bytes with
      | Raise e => Raise e
      | Ret decoded_text => Ret decoded_text
      end
  end.

(** [except Exception: pass], then [return raw_encoded_name]. *)
Definition decode_folder_name (encoded_name : pystr) : Res pystr :=
  let raw_encoded_name := encoded_name in
  match decode_folder_name_try encoded_name with
  | Ret decoded_text => Ret decoded_text
  | Raise _ => Ret raw_encoded_name
  end.

(** The specification's algorithm, step by step in its words. *)
Definition strip_marker (raw : pystr) : pystr :=
  match raw with
  | c :: rest => if N.eqb c (chr "&") then rest else raw
  | [] => []
  end.

Definition substitute_reserved (s : pystr) : pystr :=
  map (fun c => if N.eqb c (chr ",") then chr "/"
                else if N.eqb c (chr "-") then chr "="
                else c) s.

Definition pad_to_multiple_of_4 (s : pystr) : pystr :=
  s ++ repeat (chr "=") ((4 - length s mod 4) mod 4).

Definition decodeDisplayName (raw : pystr) : pystr :=
  match b64decode (pad_to_multiple_of_4 (substitute_reserved (strip_marker raw))) with
  | Raise _ => raw
  | Ret decoded =>
      match decode_utf16be decoded with
      | Raise _ => raw
      | Ret text => text
      end
  end.

End Decode.

(** ** The two library functions, as CPython 3 computes them *)

Definition b64_value (c : N) : option N :=
  (if (65 <=? c) && (c <=? 90) then Some (c - 65)
   else if (97 <=? c) && (c <=? 122) then Some (c - 71)
   else if (48 <=? c) && (c <=? 57) then Some (c + 4)
   else if c =? 43 then Some 62
   else if c =? 47 then Some 63
   else None)%N.

(** [binascii.a2b_base64] without [strict_mode]: characters outside the
    alphabet are skipped, a pad that completes a quad ends the input. *)
Fixpoint a2b_base64 (s : bytes) (quad_pos : nat) (leftchar : N) (pads : nat)
    (out : bytes) : Res bytes :=
  match s with
  | [] =>
      match quad_pos with
      | 0 => Ret (rev out)
      | 1 => Raise (Exception "Invalid base64-encoded string")
      | _ => Raise (Exception "Incorrect padding")
      end
  | c :: rest =>
      if N.eqb c 61 then
        if 2 <=? quad_pos then
          if 4 <=? quad_pos + (pads + 1) then Ret (rev out)
          else a2b_base64 rest quad_pos leftchar (pads + 1) out
        else a2b_base64 rest quad_pos leftchar pads out
      else
        match b64_value c with
        | None => a2b_base64 rest quad_pos leftchar pads out
        | Some v =>
            match quad_pos with
            | 0 => a2b_base64 rest 1 v 0 out
            | 1 => a2b_base64 rest 2 (N.land v 15) 0
                     (N.lor (N.shiftl leftchar 2) (N.shiftr v 4) :: out)
            | 2 => a2b_base64 rest 3 (N.land v 3) 0
                     (N.lor (N.shiftl leftchar 4) (N.shiftr v 2) :: out)
            | _ => a2b_base64 rest 0 0%N 0
                     (N.lor (N.shiftl leftchar 6) v :: out)
            end
        end
  end.

(** [base64.b64decode(s)] for a [str]: ASCII only. *)
Definition b64decode (s : pystr) : Res bytes :=
  if forallb (fun c => c <? 128)%N s then a2b_base64 s 0 0%N 0 []
  else Raise (Exception "string argument should contain only ASCII characters").

(** [b.decode('utf-16be')], errors strict. *)
Fixpoint decode_utf16be (b : bytes) : Res pystr :=
  match b with
  | [] => Ret []
  | [_] => Raise (Exception "truncated data")
  | hi :: lo :: rest =>
      let w := (hi * 256 + lo)%N in
      if ((55296 <=? w) && (w <=? 56319))%N then
        match rest with
        | hi2 :: lo2 :: rest' =>
            let w2 := (hi2 * 256 + lo2)%N in
            if ((56320 <=? w2) && (w2 <=? 57343))%N then
              match decode_utf16be rest' with
              | Ret t => Ret ((65536 + (w - 55296) * 1024 + (w2 - 56320))%N :: t)
              | Raise e => Raise e
              end
            else Raise (Exception "illegal UTF-16 surrogate")
        | _ => Raise (Exception "unexpected end of data")
        end
      else if ((56320 <=? w) && (w <=? 57343))%N then
        Raise (Exception "illegal encoding")
      else
        match decode_utf16be rest with
        | Ret t => Ret (w :: t)
        | Raise e => Raise e
        end
  end.

(** [decode_folder_name] as it runs on CPython. *)
Definition decode (raw : pystr) : Res pystr :=
  decode_folder_name b64decode decode_utf16be raw.

End FolderNameCodec.

(* ===================================================================== *)
(** * Observations on runs                                                *)
(* ===================================================================== *)

Module Obs.
Import Store Imap.

Definition out {A : Type} (x : Res A * State * list Event) : Res A := fst (fst x).
Definition final {A : Type} (x : Res A * State * list Event) : State := snd (fst x).
Definition trace {A : Type} (x : Res A * State * list Event) : list Event := snd x.

(** Both attributes hold a session object. *)
Definition connected (s : State) : Prop :=
  source s <> None /\ dest s <> None.

(** The [APPEND]s that returned. *)
Fixpoint appended (t : list Event) : list (string * Flags * Body) :=
  match t with
  | [] => []
  | EvImap _ (APPEND f fl b) None :: t' => (f, fl, b) :: appended t'
  | _ :: t' => appended t'
  end.

(** The sequence numbers whose content was fetched. *)
Fixpoint fetched (t : list Event) : list string :=
  match t with
  | [] => []
  | EvImap _ (FETCH_RFC822_FLAGS n) _ :: t' => n :: fetched t'
  | _ :: t' => fetched t'
  end.

(** The sequence numbers whose uid was asked for. *)
Fixpoint uid_fetched (t : list Event) : list string :=
  match t with
  | [] => []
  | EvImap _ (FETCH_UID n) _ :: t' => n :: uid_fetched t'
  | _ :: t' => uid_fetched t'
  end.

(** The rows handed to [INSERT OR IGNORE]. *)
Fixpoint inserted (t : list Event) : list Row :=
  match t with
  | [] => []
  | EvInsert r :: t' => r :: inserted t'
  | _ :: t' => inserted t'
  end.

(** The calls of [reconnect] made by [migrate_message]. *)
Fixpoint reconnects (t : list Event) : nat :=
  match t with
  | [] => 0
  | EvReconnect _ _ _ :: t' => S (reconnects t')
  | _ :: t' => reconnects t'
  end.

(** The backoff delays: the [time.sleep]s of [migrate_message] itself
    (the pause of [reconnect] lies inside its [EvReconnect]). *)
Fixpoint backoffs (t : list Event) : list nat :=
  match t with
  | [] => []
  | EvSleep n :: t' => n :: backoffs t'
  | _ :: t' => backoffs t'
  end.

(** The [LOGOUT]s called, with the session and the outcome. *)
Fixpoint logouts (t : list Event) : list (Session * option exn) :=
  match t with
  | [] => []
  | EvImap x LOGOUT r :: t' => (x, r) :: logouts t'
  | _ :: t' => logouts t'
  end.

(** The sessions whose [LOGIN] returned. *)
Fixpoint logged_in (t : list Event) : list Session :=
  match t with
  | [] => []
  | EvImap x LOGIN None :: t' => x :: logged_in t'
  | _ :: t' => logged_in t'
  end.

(** An [APPEND] to folder [f] on a destination session that returned. *)
Definition is_append_returned (f : string) (e : Event) : bool :=
  match e with
  | EvImap x (APPEND f' _ _) None =>
      match side x with Dest => String.eqb f' f | Source => false end
  | _ => false
  end.

(** Every insert in [t] is of [row] and comes right after an [APPEND] to
    [folder row] on a destination session that returned; [prev] tells
    whether the event before [t] was such an [APPEND]. *)
Fixpoint insert_follows_append (row : Row) (prev : bool) (t : list Event) : bool :=
  match t with
  | [] => true
  | EvInsert r :: t' =>
      prev && row_eqb r row && insert_follows_append row false t'
  | e :: t' => insert_follows_append row (is_append_returned (folder row) e) t'
  end.

(** No content is fetched or appended after a [reconnect] that returned
    [False]; [failed] tells whether one did before [t]. *)
Fixpoint no_attempt_after_failed_reconnect (failed : bool) (t : list Event) : bool :=
  match t with
  | [] => true
  | EvReconnect _ _ (Ret false) :: t' => no_attempt_after_failed_reconnect true t'
  | EvImap _ (FETCH_RFC822_FLAGS _) _ :: t' =>
      negb failed && no_attempt_after_failed_reconnect failed t'
  | EvImap _ (APPEND _ _ _) _ :: t' =>
      negb failed && no_attempt_after_failed_reconnect failed t'
  | _ :: t' => no_attempt_after_failed_reconnect failed t'
  end.

(** [connect] returns [True]. *)
Definition connect_ok (ce : ConnectEnv) : bool :=
  match src_open ce, src_login ce, dst_open ce, dst_login ce with
  | None, None, None, None => true
  | _, _, _, _ => false
  end.

(** The attempt raises [e]: at the fetch, or at the append. *)
Definition fails_with (ae : AttemptEnv) (e : exn) : Prop :=
  at_fetch ae = Raise e \/
  (exists fb, at_fetch ae = Ret fb /\ at_append ae = Some e).

(** The fetch and the append of the attempt return. *)
Definition succeeds (ae : AttemptEnv) : Prop :=
  (exists fb, at_fetch ae = Ret fb) /\ at_append ae = None.

(** The failures that [migrate_message] answers with [reconnect] and a
    retry: errno 54, and the texts of line 285. *)
Definition transient (e : exn) : bool :=
  match e with
  | OSError (Some n) _ => Z.eqb n 54
  | OSError None _ => false
  | Exception m => contains "BAD_LENGTH" m || contains "socket error" m
  end.

(** [reconnect] does not raise: [connect] fails, or the folder is
    selected again. *)
Definition reconnect_returns (re : ReconnectEnv) : Prop :=
  connect_ok (rc_connect re) = false \/ rc_select re = None.

(** Both sessions, when held, are on the side their attribute names. *)
Definition sides_ok (s : State) : Prop :=
  (forall x, source s = Some x -> side x = Source) /\
  (forall x, dest s = Some x -> side x = Dest).

(** [m] keeps the state predicate [P]. *)
Definition preserves {A : Type} (P : State -> Prop) (m : M A) : Prop :=
  forall s, P s -> P (final (m s)).

(** [P] does not look at which session objects are held (once a side
    holds one of its own), nor at the session counter. *)
Definition stable (P : State -> Prop) : Prop :=
  (forall s n, P s -> P (set_source (Some (mkSession Source n)) s)) /\
  (forall s n, P s -> P (set_dest (Some (mkSession Dest n)) s)) /\
  (forall s, P s -> P (bump_sid s)).

(** [P] survives the insert of [store_migrated_uid]. *)
Definition stable_insert (P : State -> Prop) : Prop :=
  forall s r, P s -> P (set_db (insert_ignore r (db s)) s).

End Obs.

(* ===================================================================== *)
(** * Concrete environments and states                                    *)
(* ===================================================================== *)

Module Scenario.
Import Store Imap.

(** Every call returns. *)
Definition connect_fine : ConnectEnv := mkConnectEnv None None None None.

Definition reconnect_fine : ReconnectEnv :=
  mkReconnectEnv None None connect_fine None.

Definition attempt_fine (flags : Flags) (body : Body) : AttemptEnv :=
  mkAttemptEnv (Ret (flags, body)) None OK reconnect_fine.

(** A state after a first [connect], with two rows stored for [d@x]. *)
Definition two_stored : State :=
  mkState (Some (mkSession Source 0)) (Some (mkSession Dest 1)) "d@x"
    [mkRow "INBOX" "1" "d@x"; mkRow "INBOX" "2" "d@x"] 2.

Definition message_fine (uid : string) (flags : Flags) (body : Body) : MessageEnv :=
  mkMessageEnv (Ret uid) (fun _ => attempt_fine flags body).

(** A folder of three messages with uids 1, 2 and 3, every call returning. *)
Definition inbox_fine : FolderEnv :=
  mkFolderEnv None None (Ret ["1"; "2"; "3"]) None
    (fun i => match i with
              | 0 => message_fine "1" [] "first"
              | 1 => message_fine "2" [] "second"
              | _ => message_fine "3" ["\Seen"] "third"
              end).

Definition run_fine : RunEnv :=
  mkRunEnv connect_fine (Ret ["INBOX"]) (fun _ => inbox_fine) None None.

(** The first [k] attempts find the connection reset and reconnect; the
    later ones go through. *)
Definition reset_then_fine (k : nat) : nat -> AttemptEnv :=
  fun attempt =>
    if attempt <? k then
      mkAttemptEnv (Raise (OSError (Some 54%Z) "[Errno 54] Connection reset by peer"))
        None OK reconnect_fine
    else attempt_fine [] "third".

(** A reconnect in which the source refuses the login. *)
Definition login_refused : ReconnectEnv :=
  mkReconnectEnv None None
    (mkConnectEnv None (Some (Exception "[AUTHENTICATIONFAILED] Invalid credentials")) None None)
    None.

(** Attempt 0 finds the connection reset and the login of its reconnect
    is refused; the fetches that follow are refused by [imaplib], the
    session not being in the selected state. *)
Definition auth_lost : nat -> AttemptEnv :=
  fun attempt =>
    match attempt with
    | 0 => mkAttemptEnv (Raise (OSError (Some 54%Z) "[Errno 54] Connection reset by peer"))
             None OK login_refused
    | _ => mkAttemptEnv
             (Raise (Exception "command FETCH illegal in state NONAUTH, only allowed in states SELECTED"))
             None OK reconnect_fine
    end.

(** Messages after a first one, in a folder where the first one is given
    up on. *)
Definition after_first (first : nat -> AttemptEnv) : nat -> MessageEnv :=
  fun i =>
    match i with
    | 0 => mkMessageEnv (Ret "3") first
    | _ => message_fine "4" [] "fourth"
    end.

(** A reconnect that connects and then fails to select the folder. *)
Definition select_raises : ReconnectEnv :=
  mkReconnectEnv None None connect_fine
    (Some (Exception "command: SELECT => socket error: EOF")).

(** Every attempt finds the connection reset; the reconnect after the
    third is [select_raises]. *)
Definition reset_always : nat -> AttemptEnv :=
  fun attempt =>
    mkAttemptEnv (Raise (OSError (Some 54%Z) "[Errno 54] Connection reset by peer"))
      None OK
      (match attempt with
       | 0 | 1 => reconnect_fine
       | _ => select_raises
       end).

(** A folder of two messages, uids 3 and 4, the first of them served by
    [first]. *)
Definition inbox_after (first : nat -> AttemptEnv) : FolderEnv :=
  mkFolderEnv None None (Ret ["3"; "4"]) None (after_first first).

(** A run in which the destination refuses the login. *)
Definition dest_login_refused : RunEnv :=
  mkRunEnv
    (mkConnectEnv None None None
       (Some (Exception "[AUTHENTICATIONFAILED] Invalid credentials")))
    (Ret ["INBOX"]) (fun _ => inbox_fine) None None.

(** A run in which the last logout of the source raises. *)
Definition source_logout_raises : RunEnv :=
  mkRunEnv connect_fine (Ret ["INBOX"]) (fun _ => inbox_fine)
    (Some (OSError (Some 32%Z) "[Errno 32] Broken pipe")) None.

(** A run in which listing the folders raises. *)
Definition list_raises : RunEnv :=
  mkRunEnv connect_fine (Raise (Exception "command: LIST => socket error: EOF"))
    (fun _ => inbox_fine) None None.

(** The server refuses the message, over quota for one: [append] hands
    back ['NO'] and does not raise. *)
Definition append_refused : nat -> AttemptEnv :=
  fun _ => mkAttemptEnv (Ret ([], "body")) None NO reconnect_fine.



(** A new migrator for [d@x] on an empty database file. *)
Definition fresh : State := init "d@x" None.

End Scenario.

(* ===================================================================== *)
(** * Taking the servers' answers apart                                   *)
(* ===================================================================== *)

Module Parse.
Import FolderNameCodec.

(** [IndexError] of a list subscript *)
Definition index_error : exn := Exception "list index out of range".

(** [l[i]] for [i >= 0] *)
Definition getitem {A : Type} (l : list A) (i : nat) : Res A :=
  match nth_error l i with
  | Some x => Ret x
  | None => Raise index_error
  end.

(** [l[-k]] for [k >= 1] *)
Definition getitem_back {A : Type} (l : list A) (k : nat) : Res A :=
  if length l <? k then Raise index_error
  else getitem l (length l - k).

(** The characters [str.split()] takes for white space. *)
Definition isspace (c : N) : bool :=
  ((9 <=? c) && (c <=? 13) || (28 <=? c) && (c <=? 32)
   || (c =? 133) || (c =? 160) || (c =? 5760)
   || (8192 <=? c) && (c <=? 8202)
   || (c =? 8232) || (c =? 8233) || (c =? 8239) || (c =? 8287)
   || (c =? 12288))%N.

(** [s.split()]: the maximal runs without white space; [tok] is the run
    being read, last character first. *)
Fixpoint split_from (tok : pystr) (s : pystr) : list pystr :=
  match s with
  | [] =>
      match tok with
      | [] => []
      | _ => [rev tok]
      end
  | c :: rest =>
      if isspace c then
        match tok with
        | [] => split_from [] rest
        | _ => rev tok :: split_from [] rest
        end
      else split_from (c :: tok) rest
  end.

Definition split (s : pystr) : list pystr := split_from [] s.

(** [s.split(sep)] for a one-character [sep]: the pieces between the
    separators, empty ones included. *)
Fixpoint split_sep_from (sep : N) (tok : pystr) (s : pystr) : list pystr :=
  match s with
  | [] => [rev tok]
  | c :: rest =>
      if N.eqb c sep then rev tok :: split_sep_from sep [] rest
      else split_sep_from sep (c :: tok) rest
  end.

Definition split_sep (sep : N) (s : pystr) : list pystr := split_sep_from sep [] s.

(** Line 236, [uid_data[0].decode().split()[2]], on the decoded text. *)
Definition extract_uid (text : pystr) : Res pystr := getitem (split text) 2.

(** The double quote. *)
Definition dquote : N := 34.

(** Line 208, [f.decode().split(q)[-2]] with [q] the double quote, on the
    decoded text. *)
Definition folder_of_line (text : pystr) : Res pystr :=
  getitem_back (split_sep dquote text) 2.

(** [c] does not occur in [s]. *)
Definition free_of (c : N) (s : pystr) : bool := forallb (fun x => negb (N.eqb x c)) s.

(** [s] is a token of [split]: not empty, no white space. *)
Definition is_token (s : pystr) : bool :=
  negb (length s =? 0) && forallb (fun x => negb (isspace x)) s.

(** An item of the list that [imaplib] hands back for [list()]: a line;
    a pair, when the server sent a literal; or [None], the one item of
    the list when the server sent no line. *)
Inductive Item : Type :=
| Line (b : bytes)
| Pair (header literal : bytes)
| NoData.

(** [AttributeError] of [f.decode] on an item that is not [bytes]. *)
Definition no_decode (type_name : string) : exn :=
  Exception (String.append "'"
               (String.append type_name "' object has no attribute 'decode'")).

Section Listing.

(** [bytes.decode()], utf-8 and strict, belongs to the Python library. *)
Variable bytes_decode : bytes -> Res pystr.

(** [f.decode()] *)
Definition decode_item (f : Item) : Res pystr :=
  match f with
  | Line b => bytes_decode b
  | Pair _ _ => Raise (no_decode "tuple")
  | NoData => Raise (no_decode "NoneType")
  end.

(** Line 208, one item: [f.decode().split(q)[-2]]. *)
Definition folder_of_item (f : Item) : Res pystr :=
  match decode_item f with
  | Raise e => Raise e
  | Ret text => folder_of_line text
  end.

(** Line 208, the list comprehension: the first item that raises ends
    it. *)
Fixpoint folders_of_lines (folders : list Item) : Res (list pystr) :=
  match folders with
  | [] => Ret []
  | f :: rest =>
      match folder_of_item f with
      | Raise e => Raise e
      | Ret name =>
          match folders_of_lines rest with
          | Raise e => Raise e
          | Ret names => Ret (name :: names)
          end
      end
  end.

End Listing.

End Parse.

(* ===================================================================== *)
(** * [decode_subject]                                                    *)
(* ===================================================================== *)

Module Subject.
Import FolderNameCodec.

(** A part that [email.header.decode_header] yields. *)
Inductive Part : Type :=
| Text (s : pystr)
| Bytes (b : bytes).

Section DecodeSubject.

(** [header.decode_header] and [bytes.decode(encoding)] belong to the
    Python library. *)
Variable decode_header : pystr -> Res (list (Part * option pystr)).
Variable bytes_decode : bytes -> pystr -> Res pystr.

(** [part.decode(encoding or 'utf-8') if isinstance(part, bytes) else
    part]; [None] and the empty string are false. *)
Definition decode_part (p : Part * option pystr) : Res pystr :=
  match p with
  | (Text s, _) => Ret s
  | (Bytes b, Some (c :: enc)) => bytes_decode b (c :: enc)
  | (Bytes b, _) => bytes_decode b (u "utf-8")
  end.

(** [''.join(... for part, encoding in decoded_parts)] *)
Fixpoint join_parts (parts : list (Part * option pystr)) : Res pystr :=
  match parts with
  | [] => Ret []
  | p :: rest =>
      match decode_part p with
      | Raise e => Raise e
      | Ret s =>
          match join_parts rest with
          | Raise e => Raise e
          | Ret t => Ret (s ++ t)
          end
      end
  end.

Definition decode_subject (subject : pystr) : Res pystr :=
  match
    match decode_header subject with
    | Raise e => Raise e
    | Ret decoded_parts => join_parts decoded_parts
    end
  with
  | Ret decoded_subject => Ret decoded_subject
  | Raise _ => Ret subject
  end.

End DecodeSubject.

End Subject.

(* ===================================================================== *)
(** * Configuration: [setup_logger], [EmailConfig], [load_email_configs]  *)
(* ===================================================================== *)

Module Config.

(** [s.replace(old, new)] for a one-character [old]. *)
Fixpoint replace_char (old : ascii) (new : string) (s : string) : string :=
  match s with
  | EmptyString => EmptyString
  | String c rest =>
      if Ascii.eqb c old then String.append new (replace_char old new rest)
      else String c (replace_char old new rest)
  end.

(** Line 33 of [setup_logger]. *)
Definition safe_email (source_email : string) : string :=
  replace_char "." "_" (replace_char "@" "_at_" source_email).

(** Line 34: [os.path.join(logs_dir, f'{safe_email}.log')], which is
    its second part alone when that part is absolute. *)
Definition log_file (source_email : string) : string :=
  let name := String.append (safe_email source_email) ".log" in
  match name with
  | String "/"%char _ => name
  | _ => String.append "logs/" name
  end.

(** [c in s] *)
Fixpoint occurs (c : ascii) (s : string) : bool :=
  match s with
  | EmptyString => false
  | String x rest => Ascii.eqb x c || occurs c rest
  end.

(** A [dict] read from JSON: its items, one per key. *)
Definition Dict : Type := list (string * string).

(** [d[k]]: [KeyError(k)] when [k] is not a key; [str] of it is the key
    in quotes. *)
Definition key_error (k : string) : exn :=
  Exception (String.append "'" (String.append k "'")).

Fixpoint getitem (d : Dict) (k : string) : Res string :=
  match d with
  | [] => Raise (key_error k)
  | (k', v) :: rest => if String.eqb k' k then Ret v else getitem rest k
  end.

Record EmailConfig : Type := mkEmailConfig {
  source_host : string;
  source_email : string;
  source_password : string;
  dest_host : string;
  dest_email : string;
  dest_password : string
}.

Definition and_then {A B : Type} (r : Res A) (k : A -> Res B) : Res B :=
  match r with
  | Ret a => k a
  | Raise e => Raise e
  end.

(** [setup_logger(source_email)], as far as it can fail: it makes the
    directory [logs] and opens the log file.  [fs] answers for the file
    system: the exception of [os.makedirs] or of [logging.FileHandler]
    for that file, if there is one. *)
Definition setup_logger (fs : string -> option exn) (source_email : string) : Res unit :=
  res_of (fs (log_file source_email)).

(** [EmailConfig(config)]: the six subscripts, in the order of the
    source, and then the logger of line 102. *)
Definition email_config (fs : string -> option exn) (config : Dict) : Res EmailConfig :=
  and_then (getitem config "source_host") (fun sh =>
  and_then (getitem config "source_email") (fun se =>
  and_then (getitem config "source_password") (fun sp =>
  and_then (getitem config "dest_host") (fun dh =>
  and_then (getitem config "dest_email") (fun de =>
  and_then (getitem config "dest_password") (fun dp =>
  and_then (setup_logger fs se) (fun _ =>
  Ret (mkEmailConfig sh se sp dh de dp)))))))).

(** The keys [EmailConfig] reads, in the order it reads them. *)
Definition keys : list string :=
  ["source_host"; "source_email"; "source_password";
   "dest_host"; "dest_email"; "dest_password"].

(** [k in d] *)
Definition has_key (d : Dict) (k : string) : bool :=
  existsb (fun kv => String.eqb (fst kv) k) d.

(** The first key of [keys] that [d] lacks. *)
Definition first_missing (d : Dict) : option string :=
  find (fun k => negb (has_key d k)) keys.

(** [[EmailConfig(config) for config in configs]]; [fs i] is the file
    system as the [i]-th [EmailConfig] finds it. *)
Fixpoint email_configs (fs : nat -> string -> option exn) (i : nat) (configs : list Dict)
    : Res (list EmailConfig) :=
  match configs with
  | [] => Ret []
  | config :: rest =>
      and_then (email_config (fs i) config) (fun c =>
      and_then (email_configs fs (S i) rest) (fun cs =>
      Ret (c :: cs)))
  end.

(** [load_email_configs]: [file] answers [open] and [json.load]; the
    result, and the errors logged on the root logger. *)
Definition load_email_configs (file : Res (list Dict)) (fs : nat -> string -> option exn)
    : Res (list EmailConfig) * list exn :=
  match and_then file (email_configs fs 0) with
  | Ret cs => (Ret cs, [])
  | Raise e => (Raise e, [e])
  end.

End Config.

(* ===================================================================== *)
(** * The two scripts                                                     *)
(* ===================================================================== *)

Module Main.
Import Store Imap.

(** What the script of [imap_migration.py] does, account by account. *)
Inductive MainEvent : Type :=
| ErrorLoadingConfig (e : exn)
| StartingMigration (source_email dest_email : string)
| Migration (dest_email : string) (result : Res (option bool)) (t : list Event)
| MigrationFailed (e : exn).

(** Lines 320-323: [for config in email_configs]; [file] is the table of
    [migrated_uids.db], which every migrator opens. *)
Fixpoint run_from (envs : nat -> RunEnv) (i : nat) (configs : list Config.EmailConfig)
    (file : option Table) : Res unit * option Table * list MainEvent :=
  match configs with
  | [] => (Ret tt, file, [])
  | config :: rest =>
      let migrator := init (Config.dest_email config) file in
      match migrate_all (envs i) migrator with
      | (Ret r, s, t) =>
          match run_from envs (S i) rest (Some (db s)) with
          | (r', file', t') =>
              (r', file',
               StartingMigration (Config.source_email config) (Config.dest_email config)
               :: Migration (Config.dest_email config) (Ret r) t :: t')
          end
      | (Raise e, s, t) =>
          (Raise e, Some (db s),
           [StartingMigration (Config.source_email config) (Config.dest_email config);
            Migration (Config.dest_email config) (Raise e) t])
      end
  end.

(** Lines 315-326: the [try] around the loading and the loop. *)
Definition main (config_file : Res (list Config.Dict)) (fs : nat -> string -> option exn)
    (envs : nat -> RunEnv) (file : option Table) : option Table * list MainEvent :=
  match Config.load_email_configs config_file fs with
  | (Raise e, errors) =>
      (file, map ErrorLoadingConfig errors ++ [MigrationFailed e])
  | (Ret configs, _) =>
      match run_from envs 0 configs file with
      | (Ret _, file', t) => (file', t)
      | (Raise e, file', t) => (file', t ++ [MigrationFailed e])
      end
  end.

(** The accounts whose migration was started. *)
Fixpoint started (t : list MainEvent) : list string :=
  match t with
  | [] => []
  | StartingMigration _ d :: t' => d :: started t'
  | _ :: t' => started t'
  end.

End Main.

(* ===================================================================== *)
(** * More observations and environments                                  *)
(* ===================================================================== *)

Module Obs2.
Import Store Imap Obs.

(** The folders [create] was called for. *)
Fixpoint created (t : list Event) : list string :=
  match t with
  | [] => []
  | EvImap _ (CREATE f) _ :: t' => f :: created t'
  | _ :: t' => created t'
  end.

(** An [OSError] that is not errno 54. *)
Definition other_socket_error (e : exn) : bool :=
  match e with
  | OSError (Some n) _ => negb (Z.eqb n 54)
  | OSError None _ => true
  | Exception _ => false
  end.

(** An exception outside [OSError] whose text has neither of the words
    of line 285. *)
Definition plain_error (e : exn) : bool :=
  match e with
  | OSError _ _ => false
  | Exception m => negb (contains "BAD_LENGTH" m || contains "socket error" m)
  end.

(** What [reconnect] returns or raises: the exceptions of its logouts
    are dropped, and the folder is selected again only after [connect]
    returned [True]. *)
Definition reconnect_outcome (re : ReconnectEnv) (folder : option string) : Res bool :=
  if connect_ok (rc_connect re) then
    match folder with
    | Some (String _ _) =>
        match rc_select re with
        | Some e => Raise e
        | None => Ret true
        end
    | _ => Ret true
    end
  else Ret false.

(** The folders selected on a source session. *)
Fixpoint selected (t : list Event) : list string :=
  match t with
  | [] => []
  | EvImap x (SELECT f) _ :: t' =>
      match side x with
      | Source => f :: selected t'
      | Dest => selected t'
      end
  | _ :: t' => selected t'
  end.

(** The first step of [connect] that fails. *)
Definition connect_error (ce : ConnectEnv) : option exn :=
  match src_open ce, src_login ce, dst_open ce, dst_login ce with
  | Some e, _, _, _ => Some e
  | None, Some e, _, _ => Some e
  | None, None, Some e, _ => Some e
  | None, None, None, r => r
  end.

(** The sides on which [connect] opened a session. *)
Fixpoint opened (t : list Event) : list Side :=
  match t with
  | [] => []
  | EvOpen sd (Ret _) :: t' => sd :: opened t'
  | _ :: t' => opened t'
  end.

(** The messages logged. *)
Fixpoint logged (t : list Event) : list (Level * LogMsg) :=
  match t with
  | [] => []
  | EvLog lvl msg :: t' => (lvl, msg) :: logged t'
  | _ :: t' => logged t'
  end.

(** The state after a message with uid [u] that is skipped (its uid is
    in [migrated]) or migrated at the first attempt. *)
Definition after_message (folder u : string) (migrated : list string) (s : State) : State :=
  if mem u migrated then s
  else set_db (insert_ignore (mkRow folder u (dest_user s)) (db s)) s.

(** The message is in the store already, or its first attempt goes
    through. *)
Definition stored_or_fine (folder : string) (s : State) (me : MessageEnv) : Prop :=
  exists u, me_uid me = Ret u
            /\ (In (mkRow folder u (dest_user s)) (db s) \/ succeeds (me_attempts me 0)).

(** From a state in [I], every event of [m] is in [Q] (an event of
    [reconnect] called by [migrate_message] is the one [EvReconnect]). *)
Definition emits {A : Type} (I : State -> Prop) (Q : Event -> Prop) (m : M A) : Prop :=
  forall s, I s -> Forall Q (trace (m s)).

(** The commands that add to a mailbox, and those that read from one. *)
Definition writes (c : Command) : bool :=
  match c with
  | CREATE _ | APPEND _ _ _ => true
  | _ => false
  end.

Definition reads (c : Command) : bool :=
  match c with
  | LIST | SEARCH_ALL | FETCH_UID _ | FETCH_RFC822_FLAGS _ => true
  | _ => false
  end.

(** No writing command goes to a session of the source and no reading
    command to one of the destination, inside the calls of [reconnect]
    as well. *)
Fixpoint well_directed (e : Event) : bool :=
  match e with
  | EvImap x c _ =>
      match side x with
      | Source => negb (writes c)
      | Dest => negb (reads c)
      end
  | EvReconnect _ inner _ => forallb well_directed inner
  | _ => true
  end.

(** The event is not a [create]. *)
Definition no_create (e : Event) : Prop :=
  match e with
  | EvImap _ (CREATE _) _ => False
  | _ => True
  end.

(** [P] survives the insert of a row for the account of [self]. *)
Definition stable_store (P : State -> Prop) : Prop :=
  forall s f u, P s -> P (set_db (insert_ignore (mkRow f u (dest_user s)) (db s)) s).

(** The table is [t0] followed by rows of account [d], which is the
    account of [self]. *)
Definition extends_for (d : string) (t0 : Table) (s : State) : Prop :=
  dest_user s = d
  /\ exists added, db s = t0 ++ added /\ Forall (fun r => dest_email r = d) added.

(** What [get_migrated_uids] yields. *)
Definition lookup (folder : string) (s : State) : list string :=
  match out (get_migrated_uids folder s) with
  | Ret l => l
  | Raise _ => []
  end.

(** What [migrate_all] returns or raises: [False] when [connect] fails;
    otherwise the exception of a final logout, or else that of the
    folder listing, or else [None]. *)
Definition run_outcome (env : RunEnv) : Res (option bool) :=
  if connect_ok (re_connect env) then
    match re_logout_src env, re_logout_dst env with
    | Some e, _ => Raise e
    | None, Some e => Raise e
    | None, None =>
        match re_list env with
        | Ret _ => Ret None
        | Raise e => Raise e
        end
    end
  else Ret (Some false).

(** No exception leaves [migrate_all]. *)
Definition run_returns (env : RunEnv) : bool :=
  match run_outcome env with
  | Ret _ => true
  | Raise _ => false
  end.

End Obs2.

Module Scenario2.
Import Store Imap.

(** Every attempt times out. *)
Definition timeout_always : nat -> AttemptEnv :=
  fun _ => mkAttemptEnv (Raise (OSError None "timed out")) None OK Scenario.reconnect_fine.

(** Every attempt is refused by the server. *)
Definition refused_always : nat -> AttemptEnv :=
  fun _ => mkAttemptEnv (Ret ([], "third"))
             (Some (Exception "command: APPEND => message too large")) OK
             Scenario.reconnect_fine.

(** A reconnect in which the logout of the source raises. *)
Definition logout_raises : ReconnectEnv :=
  mkReconnectEnv (Some (OSError (Some 32%Z) "[Errno 32] Broken pipe")) None
    Scenario.connect_fine None.

(** The uid of the second message cannot be fetched. *)
Definition second_uid_raises : FolderEnv :=
  mkFolderEnv None None (Ret ["1"; "2"; "3"]) None
    (fun i => match i with
              | 1 => mkMessageEnv (Raise (Exception "command: FETCH => socket error: EOF"))
                       (fun _ => Scenario.attempt_fine [] "second")
              | _ => Scenario.message_fine "9" [] "other"
              end).

(** A header decoder that yields one encoded word and a text part, and a
    codec that knows no charset. *)
Definition one_word (subject : FolderNameCodec.pystr)
    : Res (list (Subject.Part * option FolderNameCodec.pystr)) :=
  Ret [(Subject.Bytes [72; 105]%N, Some (FolderNameCodec.u "x-unknown"));
       (Subject.Text subject, None)].

Definition no_codec (b : FolderNameCodec.bytes) (encoding : FolderNameCodec.pystr)
    : Res FolderNameCodec.pystr :=
  Raise (Exception "unknown encoding").

Definition account (src dst : string) : Config.Dict :=
  [("source_host", "imap.a"); ("source_email", src); ("source_password", "p");
   ("dest_host", "imap.b"); ("dest_email", dst); ("dest_password", "q")].

(** Three accounts: the servers of the first refuse the connection, the
    folder listing of the second raises, the third is fine. *)
Definition three_runs : nat -> RunEnv :=
  fun i =>
    match i with
    | 0 => Scenario.dest_login_refused
    | 1 => Scenario.list_raises
    | _ => Scenario.run_fine
    end.

Definition config_of (src dst : string) : Config.EmailConfig :=
  Config.mkEmailConfig "imap.a" src "p" "imap.b" dst "q".

(** A file system with a directory [logs] and no directory under it: a
    log file whose name has a ['/'] cannot be opened. *)
Definition fs_flat : nat -> string -> option exn :=
  fun _ path =>
    match path with
    | String "l" (String "o" (String "g" (String "s" (String "/" name)))) =>
        if Config.occurs "/" name
        then Some (OSError (Some 2%Z) "[Errno 2] No such file or directory")
        else None
    | _ => None
    end.

(** A decoder for lines of ASCII characters. *)
Definition ascii_decode (b : FolderNameCodec.bytes) : Res FolderNameCodec.pystr :=
  if forallb (fun c => N.ltb c 128) b then Ret b
  else Raise (Exception "'utf-8' codec can't decode byte").

End Scenario2.

(* ===================================================================== *)
(** * Folder name decoding                                                *)
(* ===================================================================== *)

Section CodecFacts.
Import FolderNameCodec.

Variable b64decode : pystr -> Res bytes.
Variable decode_utf16be : bytes -> Res pystr.

Lemma strip_marker_slice (s : pystr) :
  (if startswith (chr "&") s then skipn 1 s else s) = strip_marker s.
Proof.
  destruct s as [|c rest]; simpl; [reflexivity|].
  destruct (N.eqb c (chr "&")); reflexivity.
Qed.

Lemma replace_twice (s : pystr) :
  replace (chr "-") (chr "=") (replace (chr ",") (chr "/") s) = substitute_reserved s.
Proof.
  unfold replace, substitute_reserved. rewrite map_map.
  apply map_ext. intros c.
  destruct (N.eqb c (chr ",")) eqn:E; [reflexivity|].
  reflexivity.
Qed.

Lemma pad_branch (s : pystr) :
  (if negb (length s mod 4 =? 0)
   then s ++ repeat (chr "=") (4 - length s mod 4) else s)
  = pad_to_multiple_of_4 s.
Proof.
  unfold pad_to_multiple_of_4.
  assert (Hlt : length s mod 4 < 4) by (apply Nat.mod_upper_bound; discriminate).
  destruct (Nat.eqb_spec (length s mod 4) 0) as [E|E]; cbn [negb].
  - rewrite E. cbn. now rewrite app_nil_r.
  - rewrite (Nat.mod_small (4 - length s mod 4)) by lia. reflexivity.
Qed.

Lemma length_pad (s : pystr) : length (pad_to_multiple_of_4 s) mod 4 = 0.
Proof.
  unfold pad_to_multiple_of_4. rewrite length_app, repeat_length.
  assert (Hlt : length s mod 4 < 4) by (apply Nat.mod_upper_bound; discriminate).
  pose proof (Nat.div_mod_eq (length s) 4) as D.
  destruct (Nat.eq_dec (length s mod 4) 0) as [E|E].
  - rewrite E. cbn. rewrite Nat.add_0_r. exact E.
  - rewrite (Nat.mod_small (4 - length s mod 4)) by lia.
    replace (length s + (4 - length s mod 4)) with ((length s / 4 + 1) * 4) by lia.
    apply Nat.Div0.mod_mul.
Qed.

Lemma decode_folder_name_try_steps (raw : pystr) :
  decode_folder_name_try b64decode decode_utf16be raw =
  match b64decode (pad_to_multiple_of_4 (substitute_reserved (strip_marker raw))) with
  | Raise e => Raise e
  | Ret decoded => decode_utf16be decoded
  end.
Proof.
  unfold decode_folder_name_try.
  rewrite strip_marker_slice, replace_twice.
  fold (chr "="). rewrite pad_branch.
  destruct (b64decode _) as [decoded|e]; [|reflexivity].
  destruct (decode_utf16be decoded); reflexivity.
Qed.

(** C7.  For every raw name and whatever the two library functions do,
    [decode_folder_name] returns without raising; what it returns is the
    result of the specification's pipeline (strip the leading ['&'],
    substitute [','] and ['-'], pad to a multiple of four, base64-decode,
    decode as UTF-16 big-endian), and it is the raw name itself whenever
    the base64 step or the UTF-16 step raises. *)
Theorem decode_folder_name_pipeline (raw : pystr) :
  let padded := pad_to_multiple_of_4 (substitute_reserved (strip_marker raw)) in
  length padded mod 4 = 0 /\
  decode_folder_name b64decode decode_utf16be raw
    = Ret (decodeDisplayName b64decode decode_utf16be raw) /\
  match b64decode padded with
  | Raise _ => decode_folder_name b64decode decode_utf16be raw = Ret raw
  | Ret decoded =>
      match decode_utf16be decoded with
      | Raise _ => decode_folder_name b64decode decode_utf16be raw = Ret raw
      | Ret text => decode_folder_name b64decode decode_utf16be raw = Ret text
      end
  end.
Proof.
  intros padded. split; [apply length_pad|].
  unfold decode_folder_name, decodeDisplayName.
  rewrite decode_folder_name_try_steps. fold padded.
  destruct (b64decode padded) as [decoded|e]; [|split; reflexivity].
  destruct (decode_utf16be decoded); split; reflexivity.
Qed.

End CodecFacts.

(** A well-formed name decodes to its display string, a plain one to
    itself. *)
Example decode_fixture :
  FolderNameCodec.decode (FolderNameCodec.u "&BB8EQAQ4BDIENQRC-")
    = Ret [1055; 1088; 1080; 1074; 1077; 1090]%N.
Proof. reflexivity. Qed.

Example decode_malformed :
  FolderNameCodec.decode (FolderNameCodec.u "INBOX") = Ret (FolderNameCodec.u "INBOX").
Proof. reflexivity. Qed.

(* ===================================================================== *)
(** * The dedup store                                                     *)
(* ===================================================================== *)

Section StoreFacts.
Import Store ClearUids.

Lemma row_eqb_eq (a b : Row) : row_eqb a b = true <-> a = b.
Proof.
  unfold row_eqb. rewrite !andb_true_iff, !String.eqb_eq.
  destruct a, b; simpl. split.
  - intros [[-> ->] ->]. reflexivity.
  - intros E. injection E as -> -> ->. auto.
Qed.

Lemma existsb_row_In (r : Row) (t : Table) :
  existsb (row_eqb r) t = true <-> In r t.
Proof.
  rewrite existsb_exists. split.
  - intros [x [Hx E]]. apply row_eqb_eq in E. now subst.
  - intros H. exists r. split; [exact H | now apply row_eqb_eq].
Qed.

(** A row that is stored is not stored again; a new one goes last. *)
Lemma sql_insert_ignore (r : Row) (t : Table) :
  sql_insert IGNORE r t = Ret (insert_ignore r t).
Proof.
  unfold sql_insert, insert_ignore. destruct (existsb (row_eqb r) t); reflexivity.
Qed.

Lemma NoDup_insert_ignore (r : Row) (t : Table) :
  NoDup t -> NoDup (insert_ignore r t).
Proof.
  intros H. unfold insert_ignore. destruct (existsb (row_eqb r) t) eqn:E; [exact H|].
  apply NoDup_app; [exact H | repeat constructor; intros [] |].
  intros x Hx [<- | []].
  apply existsb_row_In in Hx. congruence.
Qed.

Lemma filter_none_length {A : Type} (p : A -> bool) (l : list A) :
  length (filter p l) = 0 -> filter (fun x => negb (p x)) l = l.
Proof.
  induction l as [|a l IH]; simpl; [reflexivity|].
  destruct (p a); simpl; [discriminate|].
  intros H. now rewrite IH.
Qed.

Lemma filter_negb_none {A : Type} (p : A -> bool) (l : list A) :
  filter p (filter (fun x => negb (p x)) l) = [].
Proof.
  induction l as [|a l IH]; simpl; [reflexivity|].
  destruct (p a) eqn:E; simpl; [exact IH|].
  now rewrite E.
Qed.

(** C9.  [delete_rows email] leaves the table without its rows for
    [email] and with every other row, in place: the rows whose
    [dest_email] is another address are the same before and after, and
    none for [email] is left.  A table of two rows for [a@x] and three
    for [b@y], purged for [a@x], holds exactly the three rows of [b@y]. *)
Theorem delete_rows_purges_one_destination :
  (forall email t,
      fst (delete_rows email t)
        = filter (fun r => negb (String.eqb (dest_email r) email)) t
      /\ filter (fun r => String.eqb (dest_email r) email) (fst (delete_rows email t)) = []
      /\ filter (fun r => negb (String.eqb (dest_email r) email)) (fst (delete_rows email t))
         = filter (fun r => negb (String.eqb (dest_email r) email)) t)
  /\ (forall f1 u1 f2 u2 f3 u3 f4 u4 f5 u5,
      fst (delete_rows "a@x"
             [mkRow f1 u1 "a@x"; mkRow f2 u2 "b@y"; mkRow f3 u3 "b@y";
              mkRow f4 u4 "a@x"; mkRow f5 u5 "b@y"])
        = [mkRow f2 u2 "b@y"; mkRow f3 u3 "b@y"; mkRow f5 u5 "b@y"]).
Proof.
  assert (E : forall email t,
      fst (delete_rows email t)
        = filter (fun r => negb (String.eqb (dest_email r) email)) t).
  { intros email t. unfold delete_rows, sql_delete_dest, sql_count_dest.
    destruct (Nat.ltb_spec 0 (length (filter (fun r => String.eqb (dest_email r) email) t)))
      as [H|H]; simpl; [reflexivity|].
    symmetry. apply filter_none_length. lia. }
  split.
  - intros email t. rewrite E. split; [reflexivity|]. split.
    + apply (filter_negb_none (fun r => String.eqb (dest_email r) email)).
    + induction t as [|r t IH]; simpl; [reflexivity|].
      destruct (String.eqb (dest_email r) email) eqn:D; simpl; [exact IH|].
      rewrite D. simpl. now rewrite IH.
  - intros. reflexivity.
Qed.

End StoreFacts.

(* ===================================================================== *)
(** * Reasoning about runs                                                *)
(* ===================================================================== *)

Import Store Imap Obs.

Ltac unfold_prims :=
  unfold logout_if_set, get_folders, append_answer in *;
  unfold log, sleep, emit, modify, ret, imap, imap_open,
    store_migrated_uid, get_migrated_uids in *.

Lemma run_eta {A : Type} (x : Res A * State * list Event) :
  x = (out x, final x, trace x).
Proof. destruct x as [[r s] t]. reflexivity. Qed.

Lemma out_mk {A : Type} (r : Res A) (s : State) (t : list Event) : out (r, s, t) = r.
Proof. reflexivity. Qed.

Lemma final_mk {A : Type} (r : Res A) (s : State) (t : list Event) : final (r, s, t) = s.
Proof. reflexivity. Qed.

Lemma trace_mk {A : Type} (r : Res A) (s : State) (t : list Event) : trace (r, s, t) = t.
Proof. reflexivity. Qed.

Ltac run_simpl := rewrite ?out_mk, ?final_mk, ?trace_mk in *.

Lemma bind_ret_run {A B : Type} (m : M A) (k : A -> M B) s a s1 t1 :
  m s = (Ret a, s1, t1) ->
  bind m k s = (out (k a s1), final (k a s1), t1 ++ trace (k a s1)).
Proof.
  intros E. unfold bind. rewrite E. destruct (k a s1) as [[r s2] t2]. reflexivity.
Qed.

(** ** State predicates kept by every method *)

Section Preservation.

Variable P : State -> Prop.

Lemma preserves_ret {A : Type} (a : A) : preserves P (ret a).
Proof. intros s H. exact H. Qed.

Lemma preserves_log lvl msg : preserves P (log lvl msg).
Proof. intros s H. exact H. Qed.

Lemma preserves_sleep n : preserves P (sleep n).
Proof. intros s H. exact H. Qed.

Lemma preserves_imap {A : Type} attr c (r : Res A) : preserves P (imap attr c r).
Proof. intros s H. unfold imap, final. destruct (attr s); exact H. Qed.

Lemma preserves_logout_if_set attr r : preserves P (logout_if_set attr r).
Proof.
  intros s H. unfold logout_if_set, imap, final. destruct (attr s); exact H.
Qed.

Lemma preserves_get_migrated_uids f : preserves P (get_migrated_uids f).
Proof. intros s H. exact H. Qed.

Lemma preserves_bind {A B : Type} (m : M A) (k : A -> M B) :
  preserves P m -> (forall a, preserves P (k a)) -> preserves P (bind m k).
Proof.
  intros Hm Hk s H. specialize (Hm s H). unfold bind.
  destruct (m s) as [[[a|e] s1] t1]; [|exact Hm].
  specialize (Hk a s1 Hm). destruct (k a s1) as [[r s2] t2]. exact Hk.
Qed.

Lemma preserves_try_except {A : Type} (m : M A) (h : exn -> M A) :
  preserves P m -> (forall e, preserves P (h e)) -> preserves P (try_except m h).
Proof.
  intros Hm Hh s H. specialize (Hm s H). unfold try_except.
  destruct (m s) as [[[a|e] s1] t1]; [exact Hm|].
  specialize (Hh e s1 Hm). destruct (h e s1) as [[r s2] t2]. exact Hh.
Qed.

Lemma preserves_try_finally {A : Type} (m : M A) (f : M unit) :
  preserves P m -> preserves P f -> preserves P (try_finally m f).
Proof.
  intros Hm Hf s H. specialize (Hm s H). unfold try_finally.
  destruct (m s) as [[r s1] t1]. specialize (Hf s1 Hm).
  destruct (f s1) as [[[[]|e] s2] t2]; exact Hf.
Qed.

Hypothesis P_stable : stable P.

Lemma P_source s n : P s -> P (set_source (Some (mkSession Source n)) s).
Proof. apply P_stable. Qed.

Lemma P_dest s n : P s -> P (set_dest (Some (mkSession Dest n)) s).
Proof. apply P_stable. Qed.

Lemma P_sid s : P s -> P (bump_sid s).
Proof. apply P_stable. Qed.

Lemma preserves_open {B : Type} sd r (k : Session -> M B) :
  (forall n, preserves P (k (mkSession sd n))) ->
  preserves P (bind (imap_open sd r) k).
Proof.
  intros Hk s H. unfold bind, imap_open. destruct r as [e|]; [exact H|].
  specialize (Hk (next_sid s) (bump_sid s) (P_sid s H)).
  destruct (k _ _) as [[r s2] t2]. exact Hk.
Qed.

Lemma preserves_connect ce : preserves P (connect ce).
Proof.
  unfold connect.
  apply preserves_try_except.
  - apply preserves_open. intros n.
    apply preserves_bind; [intros s H; apply P_source, H|]. intros _.
    apply preserves_bind; [apply preserves_imap|]. intros _.
    apply preserves_bind; [apply preserves_log|]. intros _.
    apply preserves_open. intros n'.
    apply preserves_bind; [intros s H; apply P_dest, H|]. intros _.
    apply preserves_bind; [apply preserves_imap|]. intros _.
    apply preserves_bind; [apply preserves_log|]. intros _.
    apply preserves_ret.
  - intros e. apply preserves_bind; [apply preserves_log | intros; apply preserves_ret].
Qed.

Lemma preserves_reconnect re folder : preserves P (reconnect re folder).
Proof.
  unfold reconnect.
  apply preserves_bind.
  { apply preserves_try_except.
    - apply preserves_bind; [|intros ?]; apply preserves_logout_if_set.
    - intros e. apply preserves_ret. }
  intros _. apply preserves_bind; [apply preserves_sleep|]. intros _.
  apply preserves_bind; [apply preserves_connect|]. intros ok.
  destruct (negb ok); [apply preserves_ret|].
  destruct folder as [[|c f]|]; try apply preserves_ret.
  apply preserves_bind; [apply preserves_imap|]. intros _.
  apply preserves_bind; [apply preserves_log|]. intros _. apply preserves_ret.
Qed.

Lemma preserves_call_reconnect re folder : preserves P (call_reconnect re folder).
Proof.
  intros s H. pose proof (preserves_reconnect re (Some folder) s H) as H1.
  unfold call_reconnect.
  destruct (reconnect re (Some folder) s) as [[[b|e] s1] t]; exact H1.
Qed.

Lemma preserves_create_folder r folder : preserves P (create_folder r folder).
Proof.
  unfold create_folder. apply preserves_try_except.
  - apply preserves_bind; [apply preserves_imap | intros; apply preserves_log].
  - intros e. apply preserves_log.
Qed.

Lemma preserves_on_error ae folder uid attempt retries e :
  preserves P (on_error ae folder uid attempt retries e).
Proof.
  unfold on_error. destruct e as [[n|] msg|msg].
  - destruct (Z.eqb n 54).
    + repeat (apply preserves_bind; [|intros ?]);
        auto using preserves_log, preserves_call_reconnect, preserves_sleep, preserves_ret.
    + apply preserves_bind; [apply preserves_log | intros; apply preserves_ret].
  - apply preserves_bind; [apply preserves_log | intros; apply preserves_ret].
  - apply preserves_bind; [apply preserves_log|]. intros _.
    destruct (attempt <? retries - 1).
    + apply preserves_bind.
      * destruct (_ || _); [|apply preserves_ret].
        apply preserves_bind; [apply preserves_log|]. intros _.
        apply preserves_call_reconnect.
      * intros _. apply preserves_bind; [apply preserves_sleep|]. intros _.
        apply preserves_ret.
    + apply preserves_bind; [apply preserves_log | intros; apply preserves_ret].
Qed.

Hypothesis P_insert : stable_insert P.

Lemma preserves_store_migrated_uid folder uid :
  preserves P (store_migrated_uid folder uid).
Proof.
  intros s H. unfold store_migrated_uid. rewrite sql_insert_ignore.
  apply P_insert, H.
Qed.

Lemma preserves_transfer ae num folder uid : preserves P (transfer ae num folder uid).
Proof.
  unfold transfer. apply preserves_bind; [apply preserves_imap|].
  intros [flags body].
  apply preserves_bind; [apply preserves_imap|]. intros _.
  apply preserves_bind; [apply preserves_store_migrated_uid|]. intros _.
  apply preserves_log.
Qed.

Lemma preserves_migrate_message_from env num folder uid retries attempts :
  preserves P (migrate_message_from env num folder uid retries attempts).
Proof.
  induction attempts as [|attempt rest IH]; simpl; [apply preserves_ret|].
  apply preserves_bind.
  - apply preserves_try_except.
    + apply preserves_bind; [apply preserves_transfer | intros; apply preserves_ret].
    + intros e. apply preserves_on_error.
  - intros [b|]; [apply preserves_ret | exact IH].
Qed.

Lemma preserves_migrate_message env num folder uid retries :
  preserves P (migrate_message env num folder uid retries).
Proof. apply preserves_migrate_message_from. Qed.

Lemma preserves_migrate_folder_from env folder migrated message_nums :
  forall i, preserves P (migrate_folder_from env folder migrated i message_nums).
Proof.
  induction message_nums as [|num rest IH]; intros i; simpl; [apply preserves_ret|].
  apply preserves_bind; [apply preserves_imap|]. intros uid.
  apply preserves_bind; [|intros _; apply IH].
  destruct (mem uid migrated); [apply preserves_log|].
  apply preserves_bind; [apply preserves_migrate_message|]. intros success.
  destruct (negb (truthy success)); [apply preserves_log | apply preserves_ret].
Qed.

Lemma preserves_migrate_folder fe folder : preserves P (migrate_folder fe folder).
Proof.
  unfold migrate_folder. apply preserves_try_except.
  - apply preserves_bind; [apply preserves_imap|]. intros _.
    apply preserves_bind; [apply preserves_imap|]. intros nums.
    apply preserves_bind; [apply preserves_get_migrated_uids|]. intros migrated.
    apply preserves_bind; [apply preserves_log|]. intros _.
    apply preserves_bind; [apply preserves_imap|]. intros _.
    apply preserves_bind; [apply preserves_migrate_folder_from|]. intros _.
    apply preserves_ret.
  - intros e. apply preserves_bind; [apply preserves_log | intros; apply preserves_ret].
Qed.

Lemma preserves_migrate_all_from env folders :
  forall i, preserves P (migrate_all_from env i folders).
Proof.
  induction folders as [|folder rest IH]; intros i; simpl; [apply preserves_ret|].
  apply preserves_bind; [apply preserves_create_folder|]. intros _.
  apply preserves_bind; [apply preserves_migrate_folder|]. intros _. apply IH.
Qed.

Lemma preserves_migrate_all env : preserves P (migrate_all env).
Proof.
  unfold migrate_all. apply preserves_bind; [apply preserves_connect|]. intros ok.
  destruct (negb ok); [apply preserves_ret|].
  apply preserves_try_finally.
  - apply preserves_bind; [apply preserves_imap|]. intros folders.
    apply preserves_bind; [apply preserves_migrate_all_from|]. intros _.
    apply preserves_bind; [apply preserves_log | intros; apply preserves_ret].
  - apply preserves_bind; [|intros ?]; apply preserves_logout_if_set.
Qed.

End Preservation.

(** ** The predicates used below *)

Lemma stable_connected : stable connected /\ stable_insert connected.
Proof.
  unfold stable, stable_insert, connected. simpl.
  repeat split; intros; try discriminate; intuition.
Qed.

Lemma stable_sides_ok : stable sides_ok /\ stable_insert sides_ok.
Proof.
  unfold stable, stable_insert, sides_ok. simpl.
  repeat split; intros; try (injection H0 as <-; reflexivity); intuition.
Qed.

Lemma stable_NoDup : stable (fun s => NoDup (db s)) /\ stable_insert (fun s => NoDup (db s)).
Proof.
  unfold stable, stable_insert. simpl. repeat split; auto.
  intros s r H. now apply NoDup_insert_ignore.
Qed.

Lemma stable_dest_user d :
  stable (fun s => dest_user s = d) /\ stable_insert (fun s => dest_user s = d).
Proof. unfold stable, stable_insert. simpl. repeat split; auto. Qed.

Lemma stable_db t : stable (fun s => db s = t).
Proof. unfold stable. simpl. repeat split; auto. Qed.

(* ===================================================================== *)
(** * Uniqueness of the dedup rows                                        *)
(* ===================================================================== *)

Lemma set_db_same (s : State) : set_db (db s) s = s.
Proof. destruct s. reflexivity. Qed.

Lemma store_migrated_uid_run folder uid s :
  store_migrated_uid folder uid s =
  (Ret tt,
   set_db (insert_ignore (mkRow folder uid (dest_user s)) (db s)) s,
   [EvInsert (mkRow folder uid (dest_user s))]).
Proof. unfold store_migrated_uid. now rewrite sql_insert_ignore. Qed.

(** C3.  In a store whose rows are pairwise distinct, [store_migrated_uid]
    returns without raising and leaves the rows pairwise distinct; when
    the triple is already stored, the state after is the state before,
    and otherwise the triple is the one row added.  A whole run of
    [migrate_all] and a purge by [delete_rows] keep the rows pairwise
    distinct as well, and the table that [init_db] creates is empty, so
    that no triple ever has two rows. *)
Theorem store_migrated_uid_unique (env : RunEnv) (s : State) (folder uid : string) :
  NoDup (db s) ->
  let row := mkRow folder uid (dest_user s) in
  let x := store_migrated_uid folder uid s in
  out x = Ret tt
  /\ NoDup (db (final x))
  /\ (In row (db s) -> final x = s)
  /\ (~ In row (db s) -> db (final x) = db s ++ [row])
  /\ NoDup (db (final (migrate_all env s)))
  /\ (forall email, NoDup (fst (ClearUids.delete_rows email (db s))))
  /\ NoDup (db (init (dest_user s) None)).
Proof.
  intros H row x. subst x. rewrite store_migrated_uid_run. fold row.
  unfold out, final, insert_ignore. simpl. repeat split.
  - now apply NoDup_insert_ignore.
  - intros Hin. apply existsb_row_In in Hin. rewrite Hin. apply set_db_same.
  - intros Hin. destruct (existsb (row_eqb row) (db s)) eqn:E; [|reflexivity].
    apply existsb_row_In in E. contradiction.
  - apply (preserves_migrate_all (fun s => NoDup (db s))); try apply stable_NoDup.
    exact H.
  - intros email. unfold ClearUids.delete_rows, sql_delete_dest.
    destruct (0 <? _); simpl; [apply NoDup_filter|]; exact H.
  - constructor.
Qed.

Lemma store_migrated_uid_unique_witness :
  NoDup (db Scenario.two_stored)
  /\ final (store_migrated_uid "INBOX" "1" Scenario.two_stored) = Scenario.two_stored.
Proof.
  assert (H : NoDup (db Scenario.two_stored)).
  { simpl. repeat constructor; simpl; intuition discriminate. }
  split; [exact H|].
  destruct (store_migrated_uid_unique Scenario.run_fine Scenario.two_stored
              "INBOX" "1" H) as (_ & _ & E & _).
  apply E. simpl. auto.
Defined.

(* ===================================================================== *)
(** * Folder creation                                                     *)
(* ===================================================================== *)

(** C10.  [create_folder] returns without raising in every state, for
    every folder name and whatever the destination's [create] does: an
    exception of [create], whichever it is, is caught and followed by the
    "Folder already exists" line, and the state is left as it was. *)
Theorem create_folder_never_raises (r : option exn) (folder : string) (s : State) :
  out (create_folder r folder s) = Ret tt
  /\ final (create_folder r folder s) = s
  /\ trace (create_folder r folder s) =
     match dest s, r with
     | Some d, None =>
         [EvImap d (CREATE folder) None; EvLog INFO (CreatedFolder folder)]
     | Some d, Some e =>
         [EvImap d (CREATE folder) (Some e); EvLog INFO (FolderAlreadyExists folder)]
     | None, _ => [EvLog INFO (FolderAlreadyExists folder)]
     end.
Proof.
  unfold create_folder, try_except, bind. unfold_prims.
  destruct (dest s) as [d|]; [destruct r as [e|]|]; repeat split.
Qed.

(* ===================================================================== *)
(** * Traces                                                              *)
(* ===================================================================== *)

(** ** Inserts and appends *)

Lemma ifa_weaken row p t :
  insert_follows_append row false t = true -> insert_follows_append row p t = true.
Proof. destruct t as [|[] t]; simpl; auto; discriminate. Qed.

Lemma ifa_app row t1 : forall p t2,
  insert_follows_append row p t1 = true ->
  insert_follows_append row false t2 = true ->
  insert_follows_append row p (t1 ++ t2) = true.
Proof.
  induction t1 as [|e t1 IH]; intros p t2 H1 H2; simpl.
  - now apply ifa_weaken.
  - destruct e; simpl in *; try (apply IH; assumption).
    apply andb_true_iff in H1 as [H1 H3]. rewrite H1. simpl. now apply IH.
Qed.

Lemma ifa_no_insert row t : forall p,
  inserted t = [] -> insert_follows_append row p t = true.
Proof.
  induction t as [|e t IH]; intros p H; simpl; [reflexivity|].
  destruct e; simpl in *; try (apply IH; assumption). discriminate.
Qed.

Lemma inserted_app t1 t2 : inserted (t1 ++ t2) = inserted t1 ++ inserted t2.
Proof.
  induction t1 as [|e t1 IH]; simpl; [reflexivity|].
  destruct e; simpl; rewrite ?IH; reflexivity.
Qed.

Lemma appended_app t1 t2 : appended (t1 ++ t2) = appended t1 ++ appended t2.
Proof.
  induction t1 as [|e t1 IH]; simpl; [reflexivity|].
  destruct e as [| x c [err|] | | | |]; simpl; rewrite ?IH; try reflexivity;
    destruct c; simpl; rewrite ?IH; reflexivity.
Qed.

(** A call of [reconnect] is one event of the caller. *)
Lemma call_reconnect_trace re folder s :
  exists inner r, trace (call_reconnect re folder s) = [EvReconnect folder inner r].
Proof.
  unfold call_reconnect.
  destruct (reconnect re (Some folder) s) as [[[b|e] s1] t]; simpl; eauto.
Qed.

(** The handlers leave the table alone, insert nothing and append
    nothing. *)
Lemma on_error_quiet ae folder uid attempt retries e s :
  let y := on_error ae folder uid attempt retries e s in
  db (final y) = db s /\ inserted (trace y) = [] /\ appended (trace y) = [].
Proof.
  intros y. subst y. split.
  - apply (preserves_on_error (fun s' => db s' = db s)); [apply stable_db | reflexivity].
  - unfold on_error. destruct e as [[n|] msg|msg].
    + destruct (Z.eqb n 54); unfold bind; unfold_prims; simpl; [|split; reflexivity].
      destruct (call_reconnect_trace (at_reconnect ae) folder s) as (i & r & Ht).
      destruct (call_reconnect (at_reconnect ae) folder s) as [[[[]|e'] s1] t1];
        simpl in Ht; subst t1; split; reflexivity.
    + unfold bind; unfold_prims; simpl. split; reflexivity.
    + destruct (attempt <? retries - 1); [|unfold bind; unfold_prims; simpl; split; reflexivity].
      destruct (_ || _); unfold bind; unfold_prims; simpl; [|split; reflexivity].
      destruct (call_reconnect_trace (at_reconnect ae) folder s) as (i & r & Ht).
      destruct (call_reconnect (at_reconnect ae) folder s) as [[[[]|e'] s1] t1];
        simpl in Ht; subst t1; split; reflexivity.
Qed.

(* ===================================================================== *)
(** * One attempt of [migrate_message]                                    *)
(* ===================================================================== *)

(** An attempt whose fetch and append return stores the row and logs. *)
Lemma transfer_success ae num folder uid s src dst fl b :
  source s = Some src -> dest s = Some dst ->
  at_fetch ae = Ret (fl, b) -> at_append ae = None ->
  transfer ae num folder uid s =
  (Ret tt,
   set_db (insert_ignore (mkRow folder uid (dest_user s)) (db s)) s,
   [EvImap src (FETCH_RFC822_FLAGS num) None;
    EvImap dst (APPEND folder fl b) None;
    EvInsert (mkRow folder uid (dest_user s));
    EvLog INFO (SuccessfullyMigrated uid folder)]).
Proof.
  intros Hs Hd Hf Ha. unfold transfer, bind. unfold_prims.
  rewrite Hs, Hf. simpl. rewrite Hd, Ha. simpl.
  rewrite sql_insert_ignore. simpl. reflexivity.
Qed.

(** An attempt that raises leaves the state as it was, appends nothing
    that returns and inserts nothing. *)
Lemma transfer_raise ae num folder uid s e :
  out (transfer ae num folder uid s) = Raise e ->
  final (transfer ae num folder uid s) = s
  /\ inserted (trace (transfer ae num folder uid s)) = []
  /\ appended (trace (transfer ae num folder uid s)) = [].
Proof.
  unfold transfer, bind. unfold_prims.
  destruct (source s) as [src|]; [|simpl; auto].
  destruct (at_fetch ae) as [[fl b]|e1]; simpl; [|auto].
  destruct (dest s) as [dst|]; [|simpl; auto].
  destruct (at_append ae) as [e2|]; simpl; [auto|].
  rewrite sql_insert_ignore. simpl. discriminate.
Qed.

(** The attempt returns only in the way of [transfer_success]. *)
Lemma transfer_ret ae num folder uid s :
  out (transfer ae num folder uid s) = Ret tt ->
  exists src dst fl b,
    source s = Some src /\ dest s = Some dst /\
    at_fetch ae = Ret (fl, b) /\ at_append ae = None.
Proof.
  unfold transfer, bind. unfold_prims.
  destruct (source s) as [src|]; [|discriminate].
  destruct (at_fetch ae) as [[fl b]|e1]; simpl; [|discriminate].
  destruct (dest s) as [dst|]; [|discriminate].
  destruct (at_append ae) as [e2|]; simpl; [discriminate|].
  intros _. exists src, dst, fl, b. auto.
Qed.

(** With both sessions held, the attempt raises what the environment
    raises. *)
Lemma transfer_fails_with ae num folder uid s e :
  connected s -> fails_with ae e ->
  out (transfer ae num folder uid s) = Raise e
  /\ fetched (trace (transfer ae num folder uid s)) = [num].
Proof.
  intros [Hs Hd] Hf. unfold transfer, bind. unfold_prims.
  destruct (source s) as [src|]; [|now elim Hs].
  destruct (dest s) as [dst|] eqn:Ed; [|now elim Hd].
  destruct Hf as [Hf | [[fl b] [Hf Ha]]]; rewrite Hf; simpl; [auto|].
  rewrite Ed, Ha. simpl. auto.
Qed.

(** ** One iteration of the retry loop *)

Lemma migrate_message_from_done env num folder uid retries attempt rest s s1 t1 :
  transfer (env attempt) num folder uid s = (Ret tt, s1, t1) ->
  migrate_message_from env num folder uid retries (attempt :: rest) s
    = (Ret (Some true), s1, t1).
Proof.
  intros E. simpl. unfold bind at 1. unfold try_except, bind at 1. rewrite E.
  unfold ret. simpl. now rewrite !app_nil_r.
Qed.

Lemma migrate_message_from_handled env num folder uid retries attempt rest s e s1 t1 :
  transfer (env attempt) num folder uid s = (Raise e, s1, t1) ->
  migrate_message_from env num folder uid retries (attempt :: rest) s =
  let h := on_error (env attempt) folder uid attempt retries e s1 in
  match out h with
  | Ret (Return b) => (Ret (Some b), final h, t1 ++ trace h)
  | Ret Continue =>
      let x := migrate_message_from env num folder uid retries rest (final h) in
      (out x, final x, (t1 ++ trace h) ++ trace x)
  | Raise e' => (Raise e', final h, t1 ++ trace h)
  end.
Proof.
  intros E. simpl. unfold bind at 1. unfold try_except, bind at 1. rewrite E.
  destruct (on_error _ _ _ _ _ _ _) as [[[[b|]|e'] s2] t2]; simpl.
  - unfold ret. now rewrite app_nil_r.
  - destruct (migrate_message_from _ _ _ _ _ _ _) as [[r s3] t3]. reflexivity.
  - reflexivity.
Qed.

(* ===================================================================== *)
(** * The record is written after the append                              *)
(* ===================================================================== *)

Lemma migrate_message_from_record env num folder uid retries attempts :
  forall s, sides_ok s ->
  let x := migrate_message_from env num folder uid retries attempts s in
  insert_follows_append (mkRow folder uid (dest_user s)) false (trace x) = true
  /\ (appended (trace x) = [] -> inserted (trace x) = [] /\ db (final x) = db s).
Proof.
  induction attempts as [|attempt rest IH]; intros s Hs; [simpl; auto|].
  cbv zeta.
  destruct (transfer (env attempt) num folder uid s) as [[[[]|e] s1] t1] eqn:E.
  - rewrite (migrate_message_from_done _ _ _ _ _ _ _ _ _ _ E).
    destruct (transfer_ret (env attempt) num folder uid s) as (src & dst & fl & b & H1 & H2 & H3 & H4);
      [now rewrite E|].
    rewrite (transfer_success _ _ _ _ _ _ _ _ _ H1 H2 H3 H4) in E.
    injection E as <- <-. run_simpl. simpl.
    destruct Hs as [_ Hd]. rewrite (Hd dst H2), String.eqb_refl.
    unfold row_eqb. simpl. rewrite !String.eqb_refl. simpl.
    split; [reflexivity | discriminate].
  - rewrite (migrate_message_from_handled _ _ _ _ _ _ _ _ _ _ _ E).
    destruct (transfer_raise (env attempt) num folder uid s e) as (F1 & F2 & F3);
      [now rewrite E|].
    rewrite E in F1, F2, F3. run_simpl. subst s1.
    destruct (on_error_quiet (env attempt) folder uid attempt retries e s) as (G1 & G2 & G3).
    pose proof (preserves_on_error sides_ok (proj1 stable_sides_ok)
                  (env attempt) folder uid attempt retries e s Hs) as Hs'.
    pose proof (preserves_on_error (fun s' => dest_user s' = dest_user s)
                  (proj1 (stable_dest_user _))
                  (env attempt) folder uid attempt retries e s eq_refl) as Hu.
    cbv zeta.
    destruct (out (on_error (env attempt) folder uid attempt retries e s)) as [[b|]|e'].
    + run_simpl.
      split; [apply ifa_no_insert|intros _; split]; rewrite ?inserted_app, ?F2, ?G2; auto.
    + specialize (IH _ Hs'). cbv zeta in IH. destruct IH as [I1 I2].
      rewrite Hu in I1.
      run_simpl.
      split.
      * apply ifa_app; [|exact I1].
        apply ifa_no_insert. now rewrite inserted_app, F2, G2.
      * rewrite !appended_app, F3, G3. simpl. intros Ha.
        destruct (I2 Ha) as [J1 J2].
        rewrite !inserted_app, F2, G2, J1, J2, G1. auto.
    + run_simpl.
      split; [apply ifa_no_insert|intros _; split]; rewrite ?inserted_app, ?F2, ?G2; auto.
Qed.

(** C1, as the code has it.  In every run of [migrate_message], each
    [INSERT] of the dedup row is of the triple (folder, uid, destination
    account) and comes right after an [APPEND] to that folder on the
    destination session that returned without raising; a run in which
    no [APPEND] returned inserts nothing and leaves the table as it was.
    Attempt by attempt: one whose [APPEND] raises (or is not reached)
    inserts nothing and leaves the table as it was, and one that
    completes has fetched the message, appended the flags and the body
    it fetched, and only then inserted the row.  The status that
    [append] hands back is not looked at: with both sessions held, an
    attempt whose fetch and [append] return inserts the row whether the
    status is ['OK'] or ['NO']. *)
Theorem record_only_after_append (env : nat -> AttemptEnv)
    (num folder uid : string) (retries : nat) (s : State) :
  sides_ok s ->
  let x := migrate_message env num folder uid retries s in
  insert_follows_append (mkRow folder uid (dest_user s)) false (trace x) = true
  /\ (appended (trace x) = [] -> inserted (trace x) = [] /\ db (final x) = db s)
  /\ (forall attempt s',
        let y := transfer (env attempt) num folder uid s' in
        at_append (env attempt) <> None ->
        inserted (trace y) = [] /\ db (final y) = db s')
  /\ (forall attempt s',
        let y := transfer (env attempt) num folder uid s' in
        out y = Ret tt ->
        exists src dst fl b,
          at_fetch (env attempt) = Ret (fl, b)
          /\ trace y = [EvImap src (FETCH_RFC822_FLAGS num) None;
                        EvImap dst (APPEND folder fl b) None;
                        EvInsert (mkRow folder uid (dest_user s'));
                        EvLog INFO (SuccessfullyMigrated uid folder)])
  /\ (forall attempt s' typ,
        let y := transfer (env attempt) num folder uid s' in
        connected s' ->
        (exists fb, at_fetch (env attempt) = Ret fb) ->
        append_answer (env attempt) = Ret typ ->
        out y = Ret tt /\ inserted (trace y) = [mkRow folder uid (dest_user s')]).
Proof.
  intros Hs x.
  destruct (migrate_message_from_record env num folder uid retries (seq 0 retries) s Hs)
    as [H1 H2].
  split; [exact H1|]. split; [exact H2|].
  assert (H5 : forall attempt s' typ,
        let y := transfer (env attempt) num folder uid s' in
        connected s' ->
        (exists fb, at_fetch (env attempt) = Ret fb) ->
        append_answer (env attempt) = Ret typ ->
        out y = Ret tt /\ inserted (trace y) = [mkRow folder uid (dest_user s')]).
  { intros attempt s' typ y [Hsrc Hdst] [[fl b] Hf] Ha. subst y.
    destruct (source s') as [src|] eqn:E1; [|now elim Hsrc].
    destruct (dest s') as [dst|] eqn:E2; [|now elim Hdst].
    assert (E4 : at_append (env attempt) = None).
    { unfold append_answer in Ha. destruct (at_append (env attempt)); [discriminate|reflexivity]. }
    rewrite (transfer_success _ num folder uid s' src dst fl b E1 E2 Hf E4).
    split; reflexivity. }
  split; [|split; [|exact H5]].
  - intros attempt s' y Ha.
    destruct (out y) as [[]|e] eqn:E.
    + destruct (transfer_ret _ _ _ _ _ E) as (? & ? & ? & ? & _ & _ & _ & Hn). contradiction.
    + destruct (transfer_raise _ _ _ _ _ _ E) as (F1 & F2 & _).
      fold y in F1, F2. rewrite F1. auto.
  - intros attempt s' y E.
    destruct (transfer_ret _ _ _ _ _ E) as (src & dst & fl & b & E1 & E2 & E3 & E4).
    exists src, dst, fl, b. split; [exact E3|]. subst y.
    now rewrite (transfer_success _ _ _ _ _ _ _ _ _ E1 E2 E3 E4).
Qed.

Lemma record_only_after_append_witness :
  let x := migrate_message (Scenario.reset_then_fine 1) "3" "INBOX" "3" 3
             Scenario.two_stored in
  sides_ok Scenario.two_stored
  /\ inserted (trace x) = [mkRow "INBOX" "3" "d@x"]
  /\ insert_follows_append (mkRow "INBOX" "3" "d@x") false (trace x) = true.
Proof.
  assert (H : sides_ok Scenario.two_stored).
  { split; intros x E; injection E as <-; reflexivity. }
  split; [exact H|]. split; [reflexivity|].
  exact (proj1 (record_only_after_append (Scenario.reset_then_fine 1) "3" "INBOX" "3" 3
                  Scenario.two_stored H)).
Defined.

(** C1, as the specification has it, fails.  The server refuses the
    message and [imaplib] hands the refusal back as the status ['NO']
    without raising; line 261 drops the status, so the first attempt
    goes on to insert the row, logs a success and returns [True]: the
    message is recorded as migrated and is not in the destination
    folder. *)
Lemma record_after_refused_append :
  let x := migrate_message Scenario.append_refused "7" "INBOX" "42" default_retries
             Scenario.two_stored in
  append_answer (Scenario.append_refused 0) = Ret NO
  /\ out x = Ret (Some true)
  /\ trace x = [EvImap (mkSession Source 0) (FETCH_RFC822_FLAGS "7") None;
                EvImap (mkSession Dest 1) (APPEND "INBOX" [] "body") None;
                EvInsert (mkRow "INBOX" "42" "d@x");
                EvLog INFO (SuccessfullyMigrated "42" "INBOX")]
  /\ db (final x) = db Scenario.two_stored ++ [mkRow "INBOX" "42" "d@x"].
Proof. repeat split. Qed.

(* ===================================================================== *)
(** * Connecting and reconnecting                                         *)
(* ===================================================================== *)

(** [connect] never raises: it returns whether all four calls returned,
    and both sessions are held when it returns [True]. *)
Lemma connect_out ce s :
  out (connect ce s) = Ret (connect_ok ce)
  /\ (connect_ok ce = true -> connected (final (connect ce s))).
Proof.
  unfold connect, connect_ok, try_except, bind, connected. unfold_prims.
  destruct (src_open ce); simpl; [split; [reflexivity|discriminate]|].
  destruct (src_login ce); simpl; [split; [reflexivity|discriminate]|].
  destruct (dst_open ce); simpl; [split; [reflexivity|discriminate]|].
  destruct (dst_login ce); simpl; [split; [reflexivity|discriminate]|].
  split; [reflexivity|]. intros _. split; discriminate.
Qed.

(** The two logouts of [reconnect] never raise past their [except]. *)
Lemma reconnect_logouts re s :
  exists t,
    try_except
      (logout_if_set source (rc_src_logout re);;
       logout_if_set dest (rc_dst_logout re))
      (fun _ => ret tt) s = (Ret tt, s, t).
Proof.
  unfold try_except, bind. unfold_prims.
  destruct (source s), (dest s), (rc_src_logout re), (rc_dst_logout re);
    simpl; eauto.
Qed.

(** [reconnect] returns what [connect] returns, unless selecting the
    folder again raises. *)
Lemma reconnect_out re folder s :
  reconnect_returns re ->
  out (reconnect re folder s) = Ret (connect_ok (rc_connect re)).
Proof.
  intros Hr. unfold reconnect.
  destruct (reconnect_logouts re s) as [t0 E0].
  rewrite (bind_ret_run _ _ _ _ _ _ E0).
  rewrite (bind_ret_run _ _ s tt s [EvSleep 1]) by reflexivity.
  destruct (connect_out (rc_connect re) s) as [C1 C2].
  destruct (connect (rc_connect re) s) as [[r1 s1] t1] eqn:E1.
  run_simpl. subst r1.
  rewrite (bind_ret_run _ _ _ _ _ _ E1). run_simpl.
  destruct (connect_ok (rc_connect re)) eqn:Ok; simpl; [|reflexivity].
  destruct Hr as [Hr|Hr]; [congruence|].
  destruct folder as [[|c f]|]; try reflexivity.
  destruct (C2 eq_refl) as [Hs _].
  unfold bind. unfold_prims. destruct (source s1); [|now elim Hs].
  rewrite Hr. reflexivity.
Qed.

Lemma call_reconnect_run re folder s :
  reconnect_returns re ->
  exists inner,
    call_reconnect re folder s =
    (Ret tt, final (reconnect re (Some folder) s),
     [EvReconnect folder inner (Ret (connect_ok (rc_connect re)))]).
Proof.
  intros Hr. pose proof (reconnect_out re (Some folder) s Hr) as H.
  unfold call_reconnect.
  destruct (reconnect re (Some folder) s) as [[r s1] t]. run_simpl. subst r.
  eauto.
Qed.

(* ===================================================================== *)
(** * Retry with reconnect and backoff                                    *)
(* ===================================================================== *)

Lemma reconnects_app t1 t2 : reconnects (t1 ++ t2) = reconnects t1 + reconnects t2.
Proof.
  induction t1 as [|e t1 IH]; simpl; [reflexivity|].
  destruct e; simpl; rewrite IH; reflexivity.
Qed.

Lemma backoffs_app t1 t2 : backoffs (t1 ++ t2) = backoffs t1 ++ backoffs t2.
Proof.
  induction t1 as [|e t1 IH]; simpl; [reflexivity|].
  destruct e; simpl; rewrite IH; reflexivity.
Qed.

Lemma fetched_app t1 t2 : fetched (t1 ++ t2) = fetched t1 ++ fetched t2.
Proof.
  induction t1 as [|e t1 IH]; simpl; [reflexivity|].
  destruct e as [| x c err | | | |]; simpl; rewrite ?IH; try reflexivity.
  destruct c; simpl; rewrite ?IH; reflexivity.
Qed.

(** The [try] block neither reconnects nor sleeps. *)
Lemma transfer_quiet ae num folder uid s :
  reconnects (trace (transfer ae num folder uid s)) = 0
  /\ backoffs (trace (transfer ae num folder uid s)) = [].
Proof.
  unfold transfer, bind. unfold_prims.
  destruct (source s) as [src|]; [|simpl; auto].
  destruct (at_fetch ae) as [[fl b]|e1]; simpl; [|auto].
  destruct (dest s) as [dst|]; [|simpl; auto].
  destruct (at_append ae) as [e2|]; simpl; [auto|].
  rewrite sql_insert_ignore. simpl. auto.
Qed.

(** On the failures it takes for transient, before the last attempt, the
    handler reconnects once, sleeps [2 ^ attempt] and lets the loop go
    on; the value of [reconnect] plays no part. *)
Lemma on_error_retry ae folder uid attempt retries e s :
  transient e = true -> attempt < retries - 1 ->
  reconnect_returns (at_reconnect ae) ->
  let h := on_error ae folder uid attempt retries e s in
  out h = Ret Continue
  /\ final h = final (reconnect (at_reconnect ae) (Some folder) s)
  /\ reconnects (trace h) = 1
  /\ backoffs (trace h) = [2 ^ attempt]
  /\ fetched (trace h) = []
  /\ exists l inner,
       trace h = l ++ [EvReconnect folder inner
                         (Ret (connect_ok (rc_connect (at_reconnect ae))));
                       EvSleep (2 ^ attempt)]
       /\ fetched l = [] /\ reconnects l = 0.
Proof.
  intros Ht Ha Hr h. subst h.
  destruct (call_reconnect_run (at_reconnect ae) folder s Hr) as [inner Ec].
  unfold on_error. destruct e as [[n|] msg|msg]; simpl in Ht.
  - rewrite Ht. unfold bind, log, sleep, emit, ret. rewrite Ec. run_simpl. simpl.
    repeat split; try reflexivity.
    exists [EvLog ERROR (ConnectionResetByPeer uid (attempt + 1) retries)], inner.
    repeat split; reflexivity.
  - discriminate.
  - apply Nat.ltb_lt in Ha. rewrite Ha. unfold str. rewrite Ht.
    unfold bind, log, sleep, emit, ret. rewrite Ec. run_simpl. simpl.
    repeat split; try reflexivity.
    exists [EvLog WARNING (AttemptFailed (attempt + 1) retries uid (Exception msg));
            EvLog INFO AttemptingToReconnect], inner.
    repeat split; reflexivity.
Qed.






(* ===================================================================== *)
(** * Retry exhaustion and failed reconnects                              *)
(* ===================================================================== *)

(** As long as [reconnect] does not raise, the handlers do not either:
    they end the call with [False] or let the loop go on. *)
Lemma on_error_returns ae folder uid attempt retries e s :
  reconnect_returns (at_reconnect ae) ->
  let h := on_error ae folder uid attempt retries e s in
  (out h = Ret Continue \/ out h = Ret (Return false))
  /\ fetched (trace h) = [].
Proof.
  intros Hr h. subst h.
  destruct (call_reconnect_run (at_reconnect ae) folder s Hr) as [inner Ec].
  unfold on_error. destruct e as [[n|] msg|msg].
  - destruct (Z.eqb n 54); unfold bind, log, sleep, emit, ret; rewrite ?Ec;
      run_simpl; simpl; auto.
  - unfold bind, log, sleep, emit, ret. run_simpl. simpl. auto.
  - destruct (attempt <? retries - 1); [destruct (_ || _)|];
      unfold bind, log, sleep, emit, ret; rewrite ?Ec; run_simpl; simpl; auto.
Qed.

(** Attempts that all fail end in [False] or [None], with the table as
    it was, and every one of them fetched when the failures are
    transient. *)
Lemma migrate_message_from_exhausted env num folder uid retries n :
  forall a s,
  a + n = retries -> connected s ->
  (forall i, i < n -> exists e,
      fails_with (env (a + i)) e /\ reconnect_returns (at_reconnect (env (a + i)))) ->
  let x := migrate_message_from env num folder uid retries (seq a n) s in
  (out x = Ret (Some false) \/ out x = Ret None)
  /\ db (final x) = db s
  /\ inserted (trace x) = []
  /\ appended (trace x) = []
  /\ ((forall i, i < n -> forall e, fails_with (env (a + i)) e -> transient e = true) ->
      length (fetched (trace x)) = n).
Proof.
  induction n as [|n IH]; intros a s Hn Hc Hfail x; subst x.
  - simpl. unfold ret. run_simpl. simpl. auto.
  - simpl seq.
    destruct (Hfail 0) as (e & Hf & Hr); [lia|]. rewrite Nat.add_0_r in Hf, Hr.
    destruct (transfer_fails_with (env a) num folder uid s e Hc Hf) as [T1 T4].
    destruct (transfer_raise (env a) num folder uid s e T1) as (T2 & T3 & T5).
    destruct (transfer (env a) num folder uid s) as [[r1 s1] t1] eqn:E.
    run_simpl. subst r1 s1.
    rewrite (migrate_message_from_handled _ _ _ _ _ _ _ _ _ _ _ E).
    destruct (on_error_returns (env a) folder uid a retries e s Hr) as [O1 O2].
    destruct (on_error_quiet (env a) folder uid a retries e s) as (G1 & G2 & G3).
    cbv zeta.
    destruct O1 as [O1|O1]; rewrite O1.
    + assert (Hc' : connected (final (on_error (env a) folder uid a retries e s))).
      { apply (preserves_on_error connected (proj1 stable_connected)). exact Hc. }
      specialize (IH (S a) _ ltac:(lia) Hc').
      destruct IH as (I1 & I2 & I3 & I4 & I5).
      { intros i Hi. replace (S a + i) with (a + S i) by lia. apply Hfail. lia. }
      run_simpl.
      rewrite !inserted_app, !appended_app, !fetched_app, !length_app.
      rewrite I2, I3, I4, G1, G2, G3, T3, T4, T5, O2. simpl.
      repeat split; auto.
      intros Htr. rewrite I5; [reflexivity|].
      intros i Hi e' He'. replace (S a + i) with (a + S i) in He' by lia.
      apply (Htr (S i)); [lia | exact He'].
    + run_simpl.
      rewrite !inserted_app, !appended_app, !fetched_app, !length_app.
      rewrite G1, G2, G3, T3, T4, T5, O2. simpl.
      repeat split; auto.
      intros Htr. destruct n as [|n]; [reflexivity|]. exfalso.
      assert (Ht : transient e = true).
      { apply (Htr 0); [lia | now rewrite Nat.add_0_r]. }
      destruct (on_error_retry (env a) folder uid a retries e s Ht ltac:(lia) Hr)
        as (O3 & _).
      congruence.
Qed.

(** A message that [migrate_message] gives up on is logged and the loop
    goes on with the next sequence number. *)
Lemma migrate_folder_from_failed env folder migrated i num rest s src uid :
  source s = Some src ->
  me_uid (env i) = Ret uid -> mem uid migrated = false ->
  let x := migrate_message (me_attempts (env i)) num folder uid default_retries s in
  let y := migrate_folder_from env folder migrated (S i) rest (final x) in
  (out x = Ret (Some false) \/ out x = Ret None) ->
  migrate_folder_from env folder migrated i (num :: rest) s =
  (out y, final y,
   EvImap src (FETCH_UID num) None
   :: trace x ++ EvLog ERROR (FailedAfterMultipleAttempts uid folder) :: trace y).
Proof.
  intros Hs Hu Hm x y Hx. simpl.
  assert (E1 : imap source (FETCH_UID num) (me_uid (env i)) s
               = (Ret uid, s, [EvImap src (FETCH_UID num) None])).
  { unfold imap. now rewrite Hs, Hu. }
  rewrite (bind_ret_run _ _ _ _ _ _ E1). rewrite Hm.
  assert (E2 : (success <- migrate_message (me_attempts (env i)) num folder uid
                             default_retries;;
                if negb (truthy success)
                then log ERROR (FailedAfterMultipleAttempts uid folder)
                else ret tt) s
               = (Ret tt, final x,
                  trace x ++ [EvLog ERROR (FailedAfterMultipleAttempts uid folder)])).
  { unfold bind. fold x. rewrite (run_eta x).
    destruct Hx as [Hx|Hx]; rewrite Hx; reflexivity. }
  rewrite (bind_ret_run _ _ _ _ _ _ E2). fold y. run_simpl.
  simpl. rewrite <- app_assoc. reflexivity.
Qed.

Lemma fails_with_unique ae e e' : fails_with ae e -> fails_with ae e' -> e = e'.
Proof.
  intros [H|[fb [H1 H2]]] [H'|[fb' [H1' H2']]]; congruence.
Qed.

(** C5, as the code has it.  With both sessions held: when every one of
    the [retries] attempts fails with a transient network failure and no
    [reconnect] made on the way raises, [migrate_message] makes all
    [retries] attempts and returns a failure value ([False], or [None]
    when the last failure was errno 54), with nothing inserted and the
    table as it was; and the loop of [migrate_folder] logs "Failed to
    migrate message" and goes on with the next sequence number from the
    state the message left. *)
Theorem retry_exhaustion_continues (env : nat -> AttemptEnv)
    (num folder uid : string) (retries : nat) (s : State) :
  connected s ->
  (forall a, a < retries -> exists e,
      fails_with (env a) e /\ transient e = true /\
      reconnect_returns (at_reconnect (env a))) ->
  let x := migrate_message env num folder uid retries s in
  (out x = Ret (Some false) \/ out x = Ret None)
  /\ length (fetched (trace x)) = retries
  /\ inserted (trace x) = []
  /\ db (final x) = db s
  /\ forall menv migrated i rest src,
       retries = default_retries -> me_attempts (menv i) = env ->
       me_uid (menv i) = Ret uid -> mem uid migrated = false ->
       source s = Some src ->
       let y := migrate_folder_from menv folder migrated (S i) rest (final x) in
       migrate_folder_from menv folder migrated i (num :: rest) s =
       (out y, final y,
        EvImap src (FETCH_UID num) None
        :: trace x ++ EvLog ERROR (FailedAfterMultipleAttempts uid folder) :: trace y).
Proof.
  intros Hc Hfail x.
  destruct (migrate_message_from_exhausted env num folder uid retries retries 0 s
              eq_refl Hc) as (H1 & H2 & H3 & H4 & H5).
  { intros i Hi. destruct (Hfail i Hi) as (e & ? & ? & ?). exists e. auto. }
  fold (migrate_message env num folder uid retries) in H1, H2, H3, H4, H5.
  fold x in H1, H2, H3, H4, H5.
  split; [exact H1|]. split.
  { apply H5. intros i Hi e He. destruct (Hfail i Hi) as (e' & He' & Ht & _).
    simpl in He. now rewrite (fails_with_unique _ _ _ He He'). }
  split; [exact H3|]. split; [exact H2|].
  intros menv migrated i rest src -> <- Hu Hm Hs y.
  apply migrate_folder_from_failed; assumption.
Qed.

Lemma retry_exhaustion_continues_witness :
  connected Scenario.two_stored
  /\ out (migrate_message (Scenario.reset_then_fine 3) "3" "INBOX" "3" 3
            Scenario.two_stored) = Ret None
  /\ length (fetched (trace (migrate_message (Scenario.reset_then_fine 3) "3" "INBOX" "3" 3
                               Scenario.two_stored))) = 3.
Proof.
  assert (Hc : connected Scenario.two_stored) by (split; discriminate).
  split; [exact Hc|]. split; [reflexivity|].
  apply (retry_exhaustion_continues (Scenario.reset_then_fine 3) "3" "INBOX" "3" 3
           Scenario.two_stored Hc).
  intros a Ha. exists (OSError (Some 54%Z) "[Errno 54] Connection reset by peer").
  destruct a as [|[|[|a]]]; [| | |lia];
    (split; [left; reflexivity | split; [reflexivity | right; reflexivity]]).
Defined.

(** C5, as the specification has it, fails when a [reconnect] raises.
    Here the three attempts find the connection reset (errno 54); after
    the third the handler reconnects once more, selecting the folder
    again raises, the exception leaves [migrate_message], and
    [migrate_folder] gives the folder up without asking for the uid of
    the next message. *)
Lemma retry_exhaustion_aborts_folder :
  let x := migrate_message Scenario.reset_always "3" "INBOX" "3" 3 Scenario.two_stored in
  let y := migrate_folder (Scenario.inbox_after Scenario.reset_always) "INBOX"
             Scenario.two_stored in
  (forall a, exists e,
      fails_with (Scenario.reset_always a) e /\ transient e = true)
  /\ fetched (trace x) = ["3"; "3"; "3"]
  /\ out x = Raise (Exception "command: SELECT => socket error: EOF")
  /\ out y = Ret false
  /\ uid_fetched (trace y) = ["3"]
  /\ last (trace y) (EvSleep 0)
     = EvLog ERROR (ErrorMigratingFolder "INBOX"
                      (Exception "command: SELECT => socket error: EOF")).
Proof.
  split; [|repeat split].
  intros a. exists (OSError (Some 54%Z) "[Errno 54] Connection reset by peer").
  split; [left|]; reflexivity.
Qed.

(** ** A reconnect that fails to authenticate *)

Lemma naf_failed_no_fetch t :
  no_attempt_after_failed_reconnect true t = true -> fetched t = [].
Proof.
  induction t as [|e t IH]; simpl; [reflexivity|].
  destruct e as [| x c err | | | | f inner [[|]|e']]; simpl; auto.
  destruct c; simpl; auto; discriminate.
Qed.

Lemma naf_after_failed l1 : forall b f inner l2,
  no_attempt_after_failed_reconnect b (l1 ++ EvReconnect f inner (Ret false) :: l2) = true ->
  fetched l2 = [].
Proof.
  induction l1 as [|e l1 IH]; intros b f inner l2; simpl.
  - apply naf_failed_no_fetch.
  - destruct e as [| x c err | | | | f' inner' [[|]|e']]; simpl; eauto.
    destruct c; simpl; eauto; intros H; apply andb_true_iff in H as [_ H]; eauto.
Qed.

(** With both sessions held, a failing attempt has fetched. *)
Lemma migrate_message_from_fetches env num folder uid retries a rest s e :
  connected s -> fails_with (env a) e ->
  fetched (trace (migrate_message_from env num folder uid retries (a :: rest) s)) <> [].
Proof.
  intros Hc Hf.
  destruct (transfer_fails_with (env a) num folder uid s e Hc Hf) as [T1 T4].
  destruct (transfer (env a) num folder uid s) as [[r1 s1] t1] eqn:E.
  run_simpl. subst r1.
  rewrite (migrate_message_from_handled _ _ _ _ _ _ _ _ _ _ _ E). cbv zeta.
  destruct (out (on_error _ _ _ _ _ _ _)) as [[b|]|e']; run_simpl;
    rewrite !fetched_app, T4; discriminate.
Qed.

(** When the reconnect of attempt [j] fails to authenticate and an
    attempt is left, that attempt is made. *)
Lemma migrate_message_from_failed_reconnect env num folder uid retries j d :
  forall a n s,
  a + d = j -> a + n = retries -> j + 1 < retries -> connected s ->
  (forall i, i < n -> exists e,
      fails_with (env (a + i)) e /\ reconnect_returns (at_reconnect (env (a + i))) /\
      (a + i <= j -> transient e = true)) ->
  connect_ok (rc_connect (at_reconnect (env j))) = false ->
  exists l1 inner l2,
    trace (migrate_message_from env num folder uid retries (seq a n) s)
      = l1 ++ EvReconnect folder inner (Ret false) :: l2
    /\ fetched l2 <> [].
Proof.
  induction d as [|d IH]; intros a n s Hd Hn Hj Hc Hfail Hko.
  - rewrite Nat.add_0_r in Hd. subst a.
    destruct n as [|[|n]]; [lia|lia|]. simpl seq.
    destruct (Hfail 0) as (e & Hf & Hr & Ht); [lia|]. rewrite Nat.add_0_r in Hf, Hr, Ht.
    specialize (Ht (le_n _)).
    destruct (transfer_fails_with (env j) num folder uid s e Hc Hf) as [T1 _].
    destruct (transfer_raise (env j) num folder uid s e T1) as (T2 & _).
    destruct (transfer (env j) num folder uid s) as [[r1 s1] t1] eqn:E.
    run_simpl. subst r1 s1.
    rewrite (migrate_message_from_handled _ _ _ _ _ _ _ _ _ _ _ E).
    destruct (on_error_retry (env j) folder uid j retries e s Ht ltac:(lia) Hr)
      as (O1 & _ & _ & _ & _ & l & inner & O2 & _).
    cbv zeta. rewrite O1, O2, Hko. run_simpl.
    exists (t1 ++ l), inner.
    eexists. split.
    + rewrite <- !app_assoc. simpl. reflexivity.
    + simpl.
      destruct (Hfail 1) as (e1 & Hf1 & _); [lia|].
      replace (j + 1) with (S j) in Hf1 by lia.
      apply (migrate_message_from_fetches env num folder uid retries (S j) _ _ e1);
        [|exact Hf1].
      apply (preserves_on_error connected (proj1 stable_connected)), Hc.
  - destruct n as [|n]; [lia|]. simpl seq.
    destruct (Hfail 0) as (e & Hf & Hr & Ht); [lia|]. rewrite Nat.add_0_r in Hf, Hr, Ht.
    specialize (Ht ltac:(lia)).
    destruct (transfer_fails_with (env a) num folder uid s e Hc Hf) as [T1 _].
    destruct (transfer_raise (env a) num folder uid s e T1) as (T2 & _).
    destruct (transfer (env a) num folder uid s) as [[r1 s1] t1] eqn:E.
    run_simpl. subst r1 s1.
    rewrite (migrate_message_from_handled _ _ _ _ _ _ _ _ _ _ _ E).
    destruct (on_error_retry (env a) folder uid a retries e s Ht ltac:(lia) Hr)
      as (O1 & _).
    cbv zeta. rewrite O1.
    assert (Hc' : connected (final (on_error (env a) folder uid a retries e s))).
    { apply (preserves_on_error connected (proj1 stable_connected)). exact Hc. }
    destruct (IH (S a) n _ ltac:(lia) ltac:(lia) Hj Hc') as (l1 & inner & l2 & I1 & I2).
    + intros i Hi. replace (S a + i) with (a + S i) by lia. apply Hfail. lia.
    + exact Hko.
    + run_simpl. rewrite I1.
      exists ((t1 ++ trace (on_error (env a) folder uid a retries e s)) ++ l1), inner, l2.
      split; [now rewrite <- !app_assoc | exact I2].
Qed.

(** C6, as the code has it.  With both sessions held, when attempt [j]
    fails with a transient failure and the [reconnect] that follows
    fails to authenticate, [reconnect] returns [False] and
    [migrate_message] drops that value: if an attempt is left it is made
    (after the backoff) on the sessions as they are.  When the attempts
    all fail, [migrate_message] returns [False] or [None] for the
    message, with nothing inserted, and the loop of [migrate_folder] logs
    the failure and goes on with the next sequence number. *)
Theorem failed_reconnect_is_retried (env : nat -> AttemptEnv)
    (num folder uid : string) (retries j : nat) (s : State) :
  connected s ->
  j < retries ->
  (forall a, a < retries -> exists e,
      fails_with (env a) e /\ reconnect_returns (at_reconnect (env a)) /\
      (a <= j -> transient e = true)) ->
  connect_ok (rc_connect (at_reconnect (env j))) = false ->
  let x := migrate_message env num folder uid retries s in
  (forall s', out (reconnect (at_reconnect (env j)) (Some folder) s') = Ret false)
  /\ (j + 1 < retries -> no_attempt_after_failed_reconnect false (trace x) = false)
  /\ (out x = Ret (Some false) \/ out x = Ret None)
  /\ inserted (trace x) = []
  /\ db (final x) = db s
  /\ forall menv migrated i rest src,
       retries = default_retries -> me_attempts (menv i) = env ->
       me_uid (menv i) = Ret uid -> mem uid migrated = false ->
       source s = Some src ->
       let y := migrate_folder_from menv folder migrated (S i) rest (final x) in
       migrate_folder_from menv folder migrated i (num :: rest) s =
       (out y, final y,
        EvImap src (FETCH_UID num) None
        :: trace x ++ EvLog ERROR (FailedAfterMultipleAttempts uid folder) :: trace y).
Proof.
  intros Hc Hj Hfail Hko x.
  destruct (migrate_message_from_exhausted env num folder uid retries retries 0 s
              eq_refl Hc) as (H1 & H2 & H3 & _).
  { intros i Hi. destruct (Hfail i Hi) as (e & ? & ? & ?). exists e. auto. }
  fold (migrate_message env num folder uid retries) in H1, H2, H3.
  fold x in H1, H2, H3.
  split.
  { intros s'. rewrite <- Hko. apply reconnect_out. now left. }
  split.
  { intros Hj'.
    destruct (migrate_message_from_failed_reconnect env num folder uid retries j j
                0 retries s eq_refl eq_refl Hj' Hc Hfail Hko)
      as (l1 & inner & l2 & E & Hne).
    fold (migrate_message env num folder uid retries) in E. fold x in E.
    destruct (no_attempt_after_failed_reconnect false (trace x)) eqn:N; [|reflexivity].
    rewrite E in N. apply naf_after_failed in N. contradiction. }
  split; [exact H1|]. split; [exact H3|]. split; [exact H2|].
  intros menv migrated i rest src -> <- Hu Hm Hs y.
  apply migrate_folder_from_failed; assumption.
Qed.

Lemma failed_reconnect_is_retried_witness :
  connected Scenario.two_stored
  /\ connect_ok (rc_connect (at_reconnect (Scenario.auth_lost 0))) = false
  /\ out (migrate_message Scenario.auth_lost "3" "INBOX" "3" 3 Scenario.two_stored)
     = Ret (Some false)
  /\ db (final (migrate_message Scenario.auth_lost "3" "INBOX" "3" 3 Scenario.two_stored))
     = db Scenario.two_stored.
Proof.
  assert (Hc : connected Scenario.two_stored) by (split; discriminate).
  split; [exact Hc|]. split; [reflexivity|]. split; [reflexivity|].
  apply (failed_reconnect_is_retried Scenario.auth_lost "3" "INBOX" "3" 3 0
           Scenario.two_stored Hc); [lia| |reflexivity].
  intros a Ha. destruct a as [|a].
  - exists (OSError (Some 54%Z) "[Errno 54] Connection reset by peer").
    split; [left; reflexivity | split; [left; reflexivity | reflexivity]].
  - exists (Exception "command FETCH illegal in state NONAUTH, only allowed in states SELECTED").
    split; [left; reflexivity | split; [right; reflexivity | lia]].
Defined.

(** C6, as the specification has it, fails: in this run the login of the
    reconnect after attempt 1 is refused, [reconnect] returns [False],
    and the content is fetched twice more on the session that was not
    logged in. *)
Lemma failed_reconnect_not_terminal :
  let x := migrate_message Scenario.auth_lost "3" "INBOX" "3" 3 Scenario.two_stored in
  out (reconnect (at_reconnect (Scenario.auth_lost 0)) (Some "INBOX") Scenario.two_stored)
    = Ret false
  /\ fetched (trace x) = ["3"; "3"; "3"]
  /\ no_attempt_after_failed_reconnect false (trace x) = false.
Proof. repeat split. Qed.

(* ===================================================================== *)
(** * Skipping what is already migrated                                   *)
(* ===================================================================== *)

Lemma mem_In u l : mem u l = true <-> In u l.
Proof.
  unfold mem. rewrite existsb_exists. split.
  - intros [x [Hx E]]. apply String.eqb_eq in E. now subst.
  - intros H. exists u. split; [exact H | apply String.eqb_refl].
Qed.

Lemma sql_select_uid_In f u d t :
  In u (sql_select_uid f d t) <-> In (mkRow f u d) t.
Proof.
  unfold sql_select_uid. rewrite in_map_iff. split.
  - intros [[f' u' d'] [<- Hr]]. apply filter_In in Hr as [Hr Hb]. simpl in *.
    apply andb_true_iff in Hb as [Hf Hd].
    apply String.eqb_eq in Hf, Hd. now subst.
  - intros H. exists (mkRow f u d). split; [reflexivity|].
    apply filter_In. split; [exact H|]. simpl. now rewrite !String.eqb_refl.
Qed.

Lemma sql_select_uid_insert f u d t f' d' :
  forall v, In v (sql_select_uid f' d' (insert_ignore (mkRow f u d) t))
    <-> In v (sql_select_uid f' d' t) \/ (v = u /\ f' = f /\ d' = d).
Proof.
  intros v. rewrite !sql_select_uid_In. unfold insert_ignore.
  destruct (existsb (row_eqb (mkRow f u d)) t) eqn:E.
  - apply existsb_row_In in E. split; [auto|].
    intros [H|(-> & -> & ->)]; assumption.
  - rewrite in_app_iff. simpl. split.
    + intros [H|[H|[]]]; [auto|]. injection H as -> -> ->. auto.
    + intros [H|(-> & -> & ->)]; auto.
Qed.

(** The run of [migrate_folder] on three messages of which the first two
    are in the store. *)
Lemma migrate_folder_third_only (fe : FolderEnv) (folder n1 n2 n3 u1 u2 u3 : string)
    (fl : Flags) (body : Body) (s : State) (src dst : Session) :
  source s = Some src -> dest s = Some dst ->
  fe_select_src fe = None -> fe_search fe = Ret [n1; n2; n3] ->
  fe_select_dst fe = None ->
  me_uid (fe_messages fe 0) = Ret u1 ->
  me_uid (fe_messages fe 1) = Ret u2 ->
  me_uid (fe_messages fe 2) = Ret u3 ->
  (forall u, In u (sql_select_uid folder (dest_user s) (db s)) <-> u = u1 \/ u = u2) ->
  u3 <> u1 -> u3 <> u2 ->
  at_fetch (me_attempts (fe_messages fe 2) 0) = Ret (fl, body) ->
  at_append (me_attempts (fe_messages fe 2) 0) = None ->
  migrate_folder fe folder s =
  (Ret true,
   set_db (insert_ignore (mkRow folder u3 (dest_user s)) (db s)) s,
   [EvImap src (SELECT folder) None; EvImap src SEARCH_ALL None;
    EvLog INFO (MigratingFolder folder 3); EvImap dst (SELECT folder) None;
    EvImap src (FETCH_UID n1) None;
    EvLog INFO (SkippingAlreadyMigrated u1 folder);
    EvImap src (FETCH_UID n2) None;
    EvLog INFO (SkippingAlreadyMigrated u2 folder);
    EvImap src (FETCH_UID n3) None; EvImap src (FETCH_RFC822_FLAGS n3) None;
    EvImap dst (APPEND folder fl body) None;
    EvInsert (mkRow folder u3 (dest_user s));
    EvLog INFO (SuccessfullyMigrated u3 folder)]).
Proof.
  intros Hs Hd Hss Hsr Hsd Hu1 Hu2 Hu3 Hdb N1 N2 Hf Ha.
  assert (M1 : mem u1 (sql_select_uid folder (dest_user s) (db s)) = true).
  { apply mem_In, Hdb. auto. }
  assert (M2 : mem u2 (sql_select_uid folder (dest_user s) (db s)) = true).
  { apply mem_In, Hdb. auto. }
  assert (M3 : mem u3 (sql_select_uid folder (dest_user s) (db s)) = false).
  { destruct (mem u3 _) eqn:E; [|reflexivity]. apply mem_In, Hdb in E. tauto. }
  pose proof (migrate_message_from_done (me_attempts (fe_messages fe 2)) n3 folder u3
                default_retries 0 [1; 2] s _ _
                (transfer_success _ n3 folder u3 s src dst fl body Hs Hd Hf Ha)) as Em.
  change (migrate_message_from (me_attempts (fe_messages fe 2)) n3 folder u3
            default_retries [0; 1; 2])
    with (migrate_message (me_attempts (fe_messages fe 2)) n3 folder u3 default_retries) in Em.
  unfold migrate_folder, try_except.
  unfold bind at 1. unfold imap at 1. rewrite Hs, Hss. simpl res_of. cbv iota beta.
  unfold bind at 1. unfold imap at 1. rewrite Hs, Hsr. cbv iota beta.
  unfold bind at 1. unfold get_migrated_uids at 1. cbv iota beta.
  unfold bind at 1. unfold log at 1, emit at 1. cbv iota beta.
  unfold bind at 1. unfold imap at 1. rewrite Hd, Hsd. simpl res_of. cbv iota beta.
  unfold bind at 1.
  simpl migrate_folder_from.
  unfold bind at 1. unfold imap at 1. rewrite Hs, Hu1. cbv iota beta.
  unfold bind at 1. rewrite M1. unfold bind at 1. unfold log at 1, emit at 1. cbv iota beta.
  unfold bind at 1. unfold imap at 1. rewrite Hs, Hu2. cbv iota beta.
  unfold bind at 1. rewrite M2. unfold bind at 1. unfold log at 1, emit at 1. cbv iota beta.
  unfold bind at 1. unfold imap at 1. rewrite Hs, Hu3. cbv iota beta.
  unfold bind at 1. rewrite M3. unfold bind at 1. rewrite Em.
  cbv iota beta. simpl. unfold ret. simpl. reflexivity.
Qed.

(** C2.  With both sessions held and every call returning: for a folder
    whose search yields three sequence numbers with uids [u1], [u2],
    [u3], and a store that holds exactly [u1] and [u2] for this folder
    and destination account, [migrate_folder] fetches and appends the
    content of the third message only, to that folder, fetches no
    content for the first two, and leaves a store that holds exactly
    [u1], [u2] and [u3] for the folder and the account. *)
Theorem migrate_folder_skips_migrated (fe : FolderEnv)
    (folder n1 n2 n3 u1 u2 u3 : string)
    (fl : Flags) (body : Body) (s : State) (src dst : Session) :
  source s = Some src -> dest s = Some dst ->
  fe_select_src fe = None -> fe_search fe = Ret [n1; n2; n3] ->
  fe_select_dst fe = None ->
  me_uid (fe_messages fe 0) = Ret u1 ->
  me_uid (fe_messages fe 1) = Ret u2 ->
  me_uid (fe_messages fe 2) = Ret u3 ->
  (forall u, In u (sql_select_uid folder (dest_user s) (db s)) <-> u = u1 \/ u = u2) ->
  u3 <> u1 -> u3 <> u2 ->
  at_fetch (me_attempts (fe_messages fe 2) 0) = Ret (fl, body) ->
  at_append (me_attempts (fe_messages fe 2) 0) = None ->
  let x := migrate_folder fe folder s in
  out x = Ret true
  /\ appended (trace x) = [(folder, fl, body)]
  /\ fetched (trace x) = [n3]
  /\ inserted (trace x) = [mkRow folder u3 (dest_user s)]
  /\ (forall u, In u (sql_select_uid folder (dest_user s) (db (final x)))
                <-> u = u1 \/ u = u2 \/ u = u3)
  /\ db (final x) = db s ++ [mkRow folder u3 (dest_user s)].
Proof.
  intros Hs Hd Hss Hsr Hsd Hu1 Hu2 Hu3 Hdb N1 N2 Hf Ha x. subst x.
  rewrite (migrate_folder_third_only fe folder n1 n2 n3 u1 u2 u3 fl body s src dst)
    by assumption.
  run_simpl. simpl.
  repeat split; try reflexivity.
  - intros H. apply sql_select_uid_insert in H as [H|(-> & _)]; [|auto].
    apply Hdb in H. tauto.
  - intros H. apply sql_select_uid_insert.
    destruct H as [H|[H|H]]; [left; apply Hdb; auto | left; apply Hdb; auto | right; auto].
  - unfold insert_ignore.
    destruct (existsb _ _) eqn:E; [|reflexivity].
    apply existsb_row_In, sql_select_uid_In, Hdb in E. tauto.
Qed.

Lemma migrate_folder_skips_migrated_witness :
  appended (trace (migrate_folder Scenario.inbox_fine "INBOX" Scenario.two_stored))
    = [("INBOX", ["\Seen"], "third")]
  /\ sql_select_uid "INBOX" "d@x"
       (db (final (migrate_folder Scenario.inbox_fine "INBOX" Scenario.two_stored)))
     = ["1"; "2"; "3"].
Proof.
  split; [|reflexivity].
  apply (migrate_folder_skips_migrated Scenario.inbox_fine "INBOX" "1" "2" "3" "1" "2" "3"
           ["\Seen"] "third" Scenario.two_stored (mkSession Source 0) (mkSession Dest 1));
    try reflexivity; try discriminate.
  intros u. simpl. intuition.
Defined.

(* ===================================================================== *)
(** * The end of a run                                                    *)
(* ===================================================================== *)

Lemma bind_run {A B : Type} (m : M A) (k : A -> M B) s :
  bind m k s =
  match out (m s) with
  | Ret a =>
      (out (k a (final (m s))), final (k a (final (m s))),
       trace (m s) ++ trace (k a (final (m s))))
  | Raise e => (Raise e, final (m s), trace (m s))
  end.
Proof.
  unfold bind. destruct (m s) as [[[a|e] s1] t1]; run_simpl; [|reflexivity].
  destruct (k a s1) as [[r s2] t2]. reflexivity.
Qed.

Lemma create_folder_returns r folder s : out (create_folder r folder s) = Ret tt.
Proof.
  unfold create_folder, try_except, bind. unfold_prims.
  destruct (dest s); [destruct r|]; reflexivity.
Qed.

(** [migrate_folder] catches what its body raises. *)
Lemma migrate_folder_returns fe folder s :
  exists b, out (migrate_folder fe folder s) = Ret b.
Proof.
  unfold migrate_folder, try_except.
  match goal with |- context [match ?m s with _ => _ end] => destruct (m s) as [[[b|e] s1] t1] end.
  - exists b. reflexivity.
  - exists false. reflexivity.
Qed.

Lemma migrate_all_from_returns env folders :
  forall i s, out (migrate_all_from env i folders s) = Ret tt.
Proof.
  induction folders as [|folder rest IH]; intros i s; simpl; [reflexivity|].
  rewrite bind_run, create_folder_returns. run_simpl.
  rewrite bind_run.
  destruct (migrate_folder_returns (env i) folder
              (final (create_folder (fe_create (env i)) folder s))) as [b ->].
  run_simpl. apply IH.
Qed.

(** The folders of a run: what the [try] of [migrate_all] returns, and
    that it keeps both sessions held. *)
Lemma migrate_all_try env s :
  let body :=
    (folders <- get_folders (re_list env);;
     migrate_all_from (re_folders env) 0 folders;;
     log INFO MigrationCompleted;;
     ret (@None bool)) in
  connected s ->
  connected (final (body s))
  /\ out (body s) = match re_list env with
                    | Ret _ => Ret None
                    | Raise e => Raise e
                    end.
Proof.
  intros body Hc. split.
  - apply (preserves_bind connected); [apply preserves_imap| |exact Hc].
    intros folders.
    apply preserves_bind;
      [apply preserves_migrate_all_from; apply stable_connected|].
    intros _. apply preserves_bind; [apply preserves_log | intros; apply preserves_ret].
  - subst body. rewrite bind_run. unfold get_folders, imap.
    destruct Hc as [Hs _]. destruct (source s) as [src|]; [|now elim Hs].
    run_simpl. destruct (re_list env) as [folders|e]; [|reflexivity].
    rewrite bind_run, migrate_all_from_returns. run_simpl. reflexivity.
Qed.

(** C8, as the code has it.  When [connect] fails, [migrate_all] returns
    [False] and calls no [logout].  When [connect] succeeds and the two
    logouts of the [finally] return, the run ends, after a normal
    completion as well as after an exception of the folder listing, with
    the logout of the source session and then of the destination
    session that [self] holds, and its outcome is that of the folders:
    [None], or the exception of the listing. *)
Theorem migrate_all_logs_out (env : RunEnv) (s : State) :
  re_logout_src env = None -> re_logout_dst env = None ->
  let x := migrate_all env s in
  if connect_ok (re_connect env) then
    out x = match re_list env with
            | Ret _ => Ret None
            | Raise e => Raise e
            end
    /\ exists t src dst,
         source (final x) = Some src /\ dest (final x) = Some dst
         /\ trace x = t ++ [EvImap src LOGOUT None; EvImap dst LOGOUT None]
  else
    out x = Ret (Some false) /\ logouts (trace x) = [].
Proof.
  intros Hls Hld x. subst x. unfold migrate_all.
  destruct (connect_out (re_connect env) s) as [C1 C2].
  rewrite bind_run, C1. run_simpl.
  destruct (connect_ok (re_connect env)) eqn:Ok; cbv beta; cbn [negb]; cbv beta iota.
  - specialize (C2 eq_refl).
    destruct (migrate_all_try env _ C2) as [Hc Ho]. cbv zeta in Hc, Ho.
    unfold try_finally.
    set (body := (folders <- get_folders (re_list env);;
                  migrate_all_from (re_folders env) 0 folders;;
                  log INFO MigrationCompleted;;
                  ret (@None bool))) in *.
    destruct (body (final (connect (re_connect env) s))) as [[r s1] t1] eqn:Eb.
    run_simpl. subst r.
    destruct Hc as [Hs Hd].
    destruct (source s1) as [src|] eqn:Es; [|now elim Hs].
    destruct (dest s1) as [dst|] eqn:Ed; [|now elim Hd].
    assert (Ef : (logout_if_set source (re_logout_src env);;
                  logout_if_set dest (re_logout_dst env)) s1
                 = (Ret tt, s1, [EvImap src LOGOUT None; EvImap dst LOGOUT None])).
    { unfold bind, logout_if_set, imap. rewrite Es, Ed, Hls, Hld. reflexivity. }
    rewrite Ef. run_simpl. split; [reflexivity|].
    exists (trace (connect (re_connect env) s) ++ t1), src, dst.
    rewrite Es, Ed. repeat split. now rewrite app_assoc.
  - unfold ret. run_simpl. rewrite app_nil_r. split; [reflexivity|].
    clear C1 C2. revert Ok.
    unfold connect, connect_ok, try_except, bind. unfold_prims.
    destruct (src_open (re_connect env)); simpl; [reflexivity|].
    destruct (src_login (re_connect env)); simpl; [reflexivity|].
    destruct (dst_open (re_connect env)); simpl; [reflexivity|].
    destruct (dst_login (re_connect env)); simpl; [reflexivity|].
    discriminate.
Qed.

Lemma migrate_all_logs_out_witness :
  logouts (trace (migrate_all Scenario.list_raises Scenario.fresh))
    = [(mkSession Source 0, None); (mkSession Dest 1, None)]
  /\ out (migrate_all Scenario.list_raises Scenario.fresh)
     = Raise (Exception "command: LIST => socket error: EOF").
Proof.
  split; [reflexivity|].
  apply (migrate_all_logs_out Scenario.list_raises Scenario.fresh eq_refl eq_refl).
Defined.

(** C8, as the specification has it, fails twice.  When the destination
    refuses the login, the source session is logged in and never logged
    out; when the logout of the source raises at the end of a run, the
    exception leaves [migrate_all] and the destination is not logged
    out. *)
Lemma migrate_all_leaves_sessions :
  let x := migrate_all Scenario.dest_login_refused Scenario.fresh in
  let y := migrate_all Scenario.source_logout_raises Scenario.fresh in
  out x = Ret (Some false)
  /\ logged_in (trace x) = [mkSession Source 0]
  /\ logouts (trace x) = []
  /\ out y = Raise (OSError (Some 32%Z) "[Errno 32] Broken pipe")
  /\ logged_in (trace y) = [mkSession Source 0; mkSession Dest 1]
  /\ logouts (trace y)
     = [(mkSession Source 0, Some (OSError (Some 32%Z) "[Errno 32] Broken pipe"))].
Proof. repeat split. Qed.

(* ===================================================================== *)
(** * The answers of the servers, taken apart                             *)
(* ===================================================================== *)

Section ParseFacts.
Import FolderNameCodec Parse.

Lemma split_from_token (t : pystr) : forall tok rest,
  forallb (fun x => negb (isspace x)) t = true ->
  split_from tok (t ++ rest) = split_from (rev t ++ tok) rest.
Proof.
  induction t as [|c t IH]; intros tok rest H; simpl; [reflexivity|].
  simpl in H. apply andb_true_iff in H as [Hc Ht].
  apply negb_true_iff in Hc. rewrite Hc, IH by exact Ht.
  now rewrite <- app_assoc.
Qed.

(** A token followed by white space is the first piece. *)
Lemma split_token_space (t : pystr) (w : N) (rest : pystr) :
  is_token t = true -> isspace w = true ->
  split (t ++ w :: rest) = t :: split rest.
Proof.
  intros Ht Hw. apply andb_true_iff in Ht as [Hn Ht].
  unfold split. rewrite split_from_token by exact Ht. simpl. rewrite Hw.
  rewrite app_nil_r. destruct t as [|c t]; [discriminate|].
  destruct (rev (c :: t)) as [|x l] eqn:E.
  - apply (f_equal (@length N)) in E. rewrite length_rev in E. discriminate.
  - rewrite <- E, rev_involutive. reflexivity.
Qed.

Lemma split_token (t : pystr) : is_token t = true -> split t = [t].
Proof.
  intros Ht. apply andb_true_iff in Ht as [Hn Ht].
  unfold split. rewrite <- (app_nil_r t) at 1.
  rewrite split_from_token by exact Ht. simpl. rewrite app_nil_r.
  destruct t as [|c t]; [discriminate|].
  destruct (rev (c :: t)) as [|x l] eqn:E.
  - apply (f_equal (@length N)) in E. rewrite length_rev in E. discriminate.
  - rewrite <- E, rev_involutive. reflexivity.
Qed.

(** X1.  The uid that [migrate_folder] reads off the answer to
    [fetch(num, '(UID)')] is the third piece between white space: for an
    answer of three tokens it is the third one whole, so that the closing
    parenthesis of [n (UID u)] stays on the uid; what follows a fourth
    token is not looked at; an answer of two tokens raises
    [IndexError]. *)
Theorem extract_uid_third_token (a b c rest : pystr) (w1 w2 w3 : N) :
  is_token a = true -> is_token b = true -> is_token c = true ->
  isspace w1 = true -> isspace w2 = true -> isspace w3 = true ->
  extract_uid (a ++ w1 :: b ++ w2 :: c) = Ret c
  /\ extract_uid (a ++ w1 :: b ++ w2 :: c ++ w3 :: rest) = Ret c
  /\ extract_uid (a ++ w1 :: b) = Raise index_error
  /\ extract_uid (a ++ w1 :: b ++ [w2]) = Raise index_error.
Proof.
  intros Ha Hb Hc H1 H2 H3. unfold extract_uid. repeat split.
  - rewrite split_token_space, split_token_space, split_token by assumption.
    reflexivity.
  - rewrite !split_token_space by assumption. reflexivity.
  - rewrite split_token_space, split_token by assumption. reflexivity.
  - rewrite !split_token_space by assumption. reflexivity.
Qed.

Lemma extract_uid_third_token_witness :
  extract_uid (u "1 (UID 101)") = Ret (u "101)").
Proof.
  apply (extract_uid_third_token (u "1") (u "(UID") (u "101)") [] 32 32 32)%N;
    reflexivity.
Defined.

Lemma split_sep_from_free sep (t : pystr) : forall tok rest,
  free_of sep t = true ->
  split_sep_from sep tok (t ++ rest) = split_sep_from sep (rev t ++ tok) rest.
Proof.
  induction t as [|c t IH]; intros tok rest H; simpl; [reflexivity|].
  simpl in H. apply andb_true_iff in H as [Hc Ht].
  apply negb_true_iff in Hc. rewrite Hc, IH by exact Ht.
  now rewrite <- app_assoc.
Qed.

Lemma split_sep_free sep (t : pystr) : free_of sep t = true -> split_sep sep t = [t].
Proof.
  intros H. unfold split_sep. rewrite <- (app_nil_r t) at 1.
  rewrite split_sep_from_free by exact H. simpl.
  now rewrite app_nil_r, rev_involutive.
Qed.

(** The piece after the last separator comes last. *)
Lemma split_sep_from_last sep (a : pystr) : forall tok b,
  free_of sep b = true ->
  split_sep_from sep tok (a ++ sep :: b) = split_sep_from sep tok a ++ [b].
Proof.
  induction a as [|c a IH]; intros tok b Hb; simpl.
  - rewrite N.eqb_refl. change (split_sep_from sep [] b) with (split_sep sep b).
    now rewrite split_sep_free by exact Hb.
  - destruct (N.eqb c sep); simpl; now rewrite IH.
Qed.

Lemma split_sep_last sep (a b : pystr) :
  free_of sep b = true -> split_sep sep (a ++ sep :: b) = split_sep sep a ++ [b].
Proof. apply split_sep_from_last. Qed.

Lemma getitem_back_two {A : Type} (l : list A) (x y : A) :
  getitem_back (l ++ [x; y]) 2 = Ret x.
Proof.
  unfold getitem_back, getitem. rewrite length_app. simpl.
  destruct (Nat.ltb_spec (length l + 2) 2) as [H|H]; [lia|].
  replace (length l + 2 - 2) with (length l) by lia.
  rewrite nth_error_app2 by lia. now rewrite Nat.sub_diag.
Qed.

(** X2.  The folder name that [get_folders] reads off a line of the
    listing is what stands between its last two double quotes: the name
    itself when the server quotes it; the hierarchy delimiter, and not
    the name, when the server sends the name without quotes; and a line
    without any double quote raises [IndexError]. *)
Theorem folder_of_line_between_quotes (pre name delim : pystr) :
  free_of dquote name = true -> free_of dquote delim = true ->
  folder_of_line (pre ++ dquote :: name ++ [dquote]) = Ret name
  /\ folder_of_line (pre ++ dquote :: delim ++ dquote :: name) = Ret delim
  /\ folder_of_line name = Raise index_error.
Proof.
  intros Hn Hd. unfold folder_of_line. repeat split.
  - replace (pre ++ dquote :: name ++ [dquote])
      with ((pre ++ dquote :: name) ++ dquote :: []) by now rewrite <- app_assoc.
    rewrite split_sep_last by reflexivity.
    rewrite split_sep_last by exact Hn.
    rewrite <- app_assoc. apply getitem_back_two.
  - replace (pre ++ dquote :: delim ++ dquote :: name)
      with ((pre ++ dquote :: delim) ++ dquote :: name) by now rewrite <- app_assoc.
    rewrite split_sep_last by exact Hn.
    rewrite split_sep_last by exact Hd.
    rewrite <- app_assoc. apply getitem_back_two.
  - rewrite split_sep_free by exact Hn. reflexivity.
Qed.

Lemma folder_of_line_between_quotes_witness :
  folder_of_line (u "(\HasNoChildren) " ++ dquote :: u "/" ++ dquote :: u " INBOX")
    = Ret (u "/").
Proof.
  apply (folder_of_line_between_quotes (u "(\HasNoChildren) ") (u " INBOX") (u "/"));
    reflexivity.
Defined.

Variable bytes_decode : bytes -> Res pystr.

Lemma folders_of_lines_names (good : list Item) (names : list pystr) :
  Forall2 (fun g name => folder_of_item bytes_decode g = Ret name) good names ->
  folders_of_lines bytes_decode good = Ret names.
Proof.
  induction 1 as [|g name good names Hg _ IH]; simpl; [reflexivity|].
  now rewrite Hg, IH.
Qed.

Lemma folders_of_lines_first (good : list Item) (names : list pystr) (f : Item)
    (rest : list Item) (e : exn) :
  Forall2 (fun g name => folder_of_item bytes_decode g = Ret name) good names ->
  folder_of_item bytes_decode f = Raise e ->
  folders_of_lines bytes_decode (good ++ f :: rest) = Raise e.
Proof.
  intros H He. induction H as [|g name good names Hg _ IH]; simpl.
  - now rewrite He.
  - now rewrite Hg, IH.
Qed.

(** X3.  [get_folders] yields every name or the exception of the first
    item that fails.  When every item of the listing yields a name, the
    result is these names, in order.  Otherwise the exception is that
    of the first item that fails, and the items after it are not looked
    at.  An item fails when it is not [bytes] ([AttributeError]: the
    pair that stands for a literal, or the [None] that is the whole
    listing when the server sent no line), when its bytes cannot be
    decoded (the exception of the decoder), or when the decoded line
    has no double quote ([IndexError]). *)
Theorem folders_of_lines_all_or_nothing (good : list Item) (names : list pystr)
    (f : Item) (rest : list Item) (e : exn) :
  Forall2 (fun g name => folder_of_item bytes_decode g = Ret name) good names ->
  folder_of_item bytes_decode f = Raise e ->
  folders_of_lines bytes_decode good = Ret names
  /\ folders_of_lines bytes_decode (good ++ f :: rest) = Raise e
  /\ (forall b text,
        bytes_decode b = Ret text -> free_of dquote text = true ->
        folder_of_item bytes_decode (Line b) = Raise index_error)
  /\ (forall b e',
        bytes_decode b = Raise e' -> folder_of_item bytes_decode (Line b) = Raise e')
  /\ (forall h l, folder_of_item bytes_decode (Pair h l) = Raise (no_decode "tuple"))
  /\ folders_of_lines bytes_decode [NoData] = Raise (no_decode "NoneType").
Proof.
  intros H He. split; [now apply folders_of_lines_names|].
  split; [now apply (folders_of_lines_first good names)|].
  repeat split.
  - intros b text Hb Hq. unfold folder_of_item, decode_item. rewrite Hb.
    unfold folder_of_line. now rewrite split_sep_free by exact Hq.
  - intros b e' Hb. unfold folder_of_item, decode_item. now rewrite Hb.
Qed.

End ParseFacts.

Lemma folders_of_lines_all_or_nothing_witness :
  Parse.folders_of_lines Scenario2.ascii_decode
    ([Parse.Line (FolderNameCodec.u "(\HasNoChildren) " ++ Parse.dquote
                  :: FolderNameCodec.u "/" ++ Parse.dquote :: FolderNameCodec.u " "
                  ++ Parse.dquote :: FolderNameCodec.u "INBOX" ++ [Parse.dquote])]
     ++ Parse.Line (FolderNameCodec.u "garbage")
     :: [Parse.Pair (FolderNameCodec.u "(\HasNoChildren) {5}") (FolderNameCodec.u "Inbox")])
  = Raise Parse.index_error.
Proof.
  refine (proj1 (proj2 (folders_of_lines_all_or_nothing Scenario2.ascii_decode
    [Parse.Line (FolderNameCodec.u "(\HasNoChildren) " ++ Parse.dquote
                 :: FolderNameCodec.u "/" ++ Parse.dquote :: FolderNameCodec.u " "
                 ++ Parse.dquote :: FolderNameCodec.u "INBOX" ++ [Parse.dquote])]
    [FolderNameCodec.u "INBOX"] (Parse.Line (FolderNameCodec.u "garbage"))
    [Parse.Pair (FolderNameCodec.u "(\HasNoChildren) {5}") (FolderNameCodec.u "Inbox")]
    Parse.index_error _ eq_refl))).
  repeat constructor.
Defined.


(* ===================================================================== *)
(** * Subjects                                                            *)
(* ===================================================================== *)

Section SubjectFacts.
Import FolderNameCodec Subject.

Variable decode_header : pystr -> Res (list (Part * option pystr)).
Variable bytes_decode : bytes -> pystr -> Res pystr.

Lemma join_parts_texts (texts : list pystr) :
  join_parts bytes_decode (map (fun s => (Text s, @None pystr)) texts)
    = Ret (concat texts).
Proof.
  induction texts as [|s texts IH]; simpl; [reflexivity|]. now rewrite IH.
Qed.

Lemma join_parts_raise (parts : list (Part * option pystr)) (p : Part * option pystr) (e : exn) :
  In p parts -> decode_part bytes_decode p = Raise e ->
  exists e', join_parts bytes_decode parts = Raise e'.
Proof.
  induction parts as [|q parts IH]; intros Hin Hp; [contradiction|]. simpl.
  destruct Hin as [->|Hin].
  - rewrite Hp. eauto.
  - destruct (decode_part bytes_decode q); [|eauto].
    destruct (IH Hin Hp) as [e' ->]. eauto.
Qed.

(** X4.  [decode_subject] never raises.  When the header decoder raises,
    or one part of the header cannot be decoded, it returns the raw
    subject whole, the parts that could be decoded included; when every
    part is text already, it returns the parts joined.  A bytes part
    whose charset is [None] or empty is decoded as utf-8. *)
Theorem decode_subject_all_or_nothing (subject : pystr) :
  (exists r, decode_subject decode_header bytes_decode subject = Ret r)
  /\ (forall e, decode_header subject = Raise e ->
        decode_subject decode_header bytes_decode subject = Ret subject)
  /\ (forall parts p e,
        decode_header subject = Ret parts -> In p parts ->
        decode_part bytes_decode p = Raise e ->
        decode_subject decode_header bytes_decode subject = Ret subject)
  /\ (forall texts,
        decode_header subject = Ret (map (fun s => (Text s, None)) texts) ->
        decode_subject decode_header bytes_decode subject = Ret (concat texts))
  /\ (forall b,
        decode_part bytes_decode (Bytes b, None) = bytes_decode b (u "utf-8")
        /\ decode_part bytes_decode (Bytes b, Some []) = bytes_decode b (u "utf-8")).
Proof.
  unfold decode_subject. repeat split.
  - destruct (decode_header subject) as [parts|e]; [|eauto].
    destruct (join_parts bytes_decode parts); eauto.
  - intros e ->. reflexivity.
  - intros parts p e -> Hin Hp.
    destruct (join_parts_raise parts p e Hin Hp) as [e' ->]. reflexivity.
  - intros texts ->. now rewrite join_parts_texts.
Qed.

End SubjectFacts.

Lemma decode_subject_all_or_nothing_witness :
  Subject.decode_subject Scenario2.one_word Scenario2.no_codec (FolderNameCodec.u "Hi there")
    = Ret (FolderNameCodec.u "Hi there").
Proof.
  destruct (decode_subject_all_or_nothing Scenario2.one_word Scenario2.no_codec
              (FolderNameCodec.u "Hi there")) as (_ & _ & H & _).
  apply (H _ (Subject.Bytes [72; 105]%N, Some (FolderNameCodec.u "x-unknown"))
           (Exception "unknown encoding") eq_refl); [left|]; reflexivity.
Defined.

(* ===================================================================== *)
(** * Configuration                                                       *)
(* ===================================================================== *)

Section ConfigFacts.
Import Config.

Lemma append_assoc3 (a b c : string) :
  String.append (String.append a b) c = String.append a (String.append b c).
Proof. induction a as [|x a IH]; simpl; [reflexivity|]. now rewrite IH. Qed.

Lemma replace_char_app old new (s1 s2 : string) :
  replace_char old new (String.append s1 s2)
    = String.append (replace_char old new s1) (replace_char old new s2).
Proof.
  induction s1 as [|c s1 IH]; simpl; [reflexivity|].
  destruct (Ascii.eqb c old); simpl; rewrite IH; [|reflexivity].
  now rewrite append_assoc3.
Qed.

Lemma occurs_app c (s1 s2 : string) :
  occurs c (String.append s1 s2) = occurs c s1 || occurs c s2.
Proof.
  induction s1 as [|x s1 IH]; simpl; [reflexivity|]. now rewrite IH, orb_assoc.
Qed.

Lemma replace_char_occurs old new (s : string) :
  occurs old new = false -> occurs old (replace_char old new s) = false.
Proof.
  intros Hn. induction s as [|c s IH]; simpl; [reflexivity|].
  destruct (Ascii.eqb c old) eqn:E.
  - now rewrite occurs_app, Hn, IH.
  - simpl. now rewrite E, IH.
Qed.

Lemma replace_char_keeps c old new (s : string) :
  occurs c new = false -> occurs c s = false ->
  occurs c (replace_char old new s) = false.
Proof.
  intros Hn. induction s as [|x s IH]; simpl; [reflexivity|].
  intros H. apply orb_false_iff in H as [Hx Hs].
  destruct (Ascii.eqb x old).
  - now rewrite occurs_app, Hn, IH.
  - simpl. now rewrite Hx, IH.
Qed.

Lemma replace_char_absent old new (s : string) :
  occurs old s = false -> replace_char old new s = s.
Proof.
  induction s as [|x s IH]; simpl; [reflexivity|].
  intros H. apply orb_false_iff in H as [Hx Hs]. now rewrite Hx, IH.
Qed.

Lemma safe_email_cons (c : ascii) (s : string) :
  safe_email (String c s) =
  if Ascii.eqb c "@" then String.append "_at_" (safe_email s)
  else if Ascii.eqb c "." then String.append "_" (safe_email s)
  else String c (safe_email s).
Proof.
  unfold safe_email. simpl. destruct (Ascii.eqb c "@") eqn:Ea.
  - reflexivity.
  - simpl. destruct (Ascii.eqb c "."); reflexivity.
Qed.

(** X5.  The name of an account's log file has no ['@'] and no ['.'] in
    the part made from the address.  An address is turned piece by piece
    (the name of a concatenation is the concatenation of the names), and
    a second turn changes nothing; two addresses that differ only by
    ['.'] against ['_'] share one log file. *)
Theorem safe_email_file_name (s1 s2 : string) :
  occurs "@" (safe_email s1) = false
  /\ occurs "." (safe_email s1) = false
  /\ safe_email (String.append s1 s2) = String.append (safe_email s1) (safe_email s2)
  /\ safe_email (safe_email s1) = safe_email s1
  /\ log_file (replace_char "." "_" s1) = log_file s1.
Proof.
  assert (A : occurs "@" (safe_email s1) = false).
  { unfold safe_email. apply replace_char_keeps; [reflexivity|].
    now apply replace_char_occurs. }
  assert (D : occurs "." (safe_email s1) = false).
  { unfold safe_email. now apply replace_char_occurs. }
  repeat split; try assumption.
  - unfold safe_email. now rewrite !replace_char_app.
  - unfold safe_email at 1.
    rewrite (replace_char_absent "@" _ _ A). now apply replace_char_absent.
  - assert (E : safe_email (replace_char "." "_" s1) = safe_email s1);
      [|unfold log_file; now rewrite E].
    clear A D. induction s1 as [|c s IH]; [reflexivity|].
    rewrite (safe_email_cons c s). simpl replace_char.
    destruct (Ascii.eqb_spec c ".") as [->|Hd].
    + simpl Ascii.eqb. cbv iota.
      change (String.append "_" (replace_char "." "_" s))
        with (String "_" (replace_char "." "_" s)).
      rewrite safe_email_cons. simpl. now rewrite IH.
    + rewrite safe_email_cons.
      destruct (Ascii.eqb c "@"); [now rewrite IH|].
      destruct (Ascii.eqb_spec c "."); [contradiction|]. now rewrite IH.
Qed.

Lemma getitem_has_key (d : Dict) (k : string) :
  (has_key d k = true -> exists v, getitem d k = Ret v)
  /\ (has_key d k = false -> getitem d k = Raise (key_error k)).
Proof.
  unfold has_key. induction d as [|[k' v] d IH]; simpl; [split; [discriminate|reflexivity]|].
  destruct (String.eqb k' k); simpl; [split; [eauto|discriminate]|exact IH].
Qed.

Lemma email_config_by_keys (fs : string -> option exn) (config : Dict) :
  match first_missing config with
  | Some k => email_config fs config = Raise (key_error k)
  | None =>
      exists c,
        getitem config "source_host" = Ret (source_host c)
        /\ getitem config "source_email" = Ret (source_email c)
        /\ getitem config "source_password" = Ret (source_password c)
        /\ getitem config "dest_host" = Ret (dest_host c)
        /\ getitem config "dest_email" = Ret (dest_email c)
        /\ getitem config "dest_password" = Ret (dest_password c)
        /\ email_config fs config
           = match fs (log_file (source_email c)) with
             | Some e => Raise e
             | None => Ret c
             end
  end.
Proof.
  unfold first_missing, email_config, keys. simpl.
  destruct (has_key config "source_host") eqn:H1; simpl;
    [|now rewrite (proj2 (getitem_has_key _ _) H1)].
  destruct (proj1 (getitem_has_key _ _) H1) as [v1 E1]. rewrite E1. simpl.
  destruct (has_key config "source_email") eqn:H2; simpl;
    [|now rewrite (proj2 (getitem_has_key _ _) H2)].
  destruct (proj1 (getitem_has_key _ _) H2) as [v2 E2]. rewrite E2. simpl.
  destruct (has_key config "source_password") eqn:H3; simpl;
    [|now rewrite (proj2 (getitem_has_key _ _) H3)].
  destruct (proj1 (getitem_has_key _ _) H3) as [v3 E3]. rewrite E3. simpl.
  destruct (has_key config "dest_host") eqn:H4; simpl;
    [|now rewrite (proj2 (getitem_has_key _ _) H4)].
  destruct (proj1 (getitem_has_key _ _) H4) as [v4 E4]. rewrite E4. simpl.
  destruct (has_key config "dest_email") eqn:H5; simpl;
    [|now rewrite (proj2 (getitem_has_key _ _) H5)].
  destruct (proj1 (getitem_has_key _ _) H5) as [v5 E5]. rewrite E5. simpl.
  destruct (has_key config "dest_password") eqn:H6; simpl;
    [|now rewrite (proj2 (getitem_has_key _ _) H6)].
  destruct (proj1 (getitem_has_key _ _) H6) as [v6 E6]. rewrite E6. simpl.
  exists (mkEmailConfig v1 v2 v3 v4 v5 v6). simpl. repeat split.
  unfold setup_logger. destruct (fs (log_file v2)); reflexivity.
Qed.

(** X6.  [EmailConfig(config)] reads the six keys in the order
    [source_host], [source_email], [source_password], [dest_host],
    [dest_email], [dest_password] and raises [KeyError] for the first
    one that is missing, before any logger is set up.  When the dict has
    the six keys it sets up the logger of the source address: it raises
    what [setup_logger] raises when the log file cannot be opened (the
    file of an address with a ['/'], for one), and otherwise succeeds,
    its fields being the values of the keys, whatever else the dict
    holds. *)
Theorem email_config_keys (fs : string -> option exn) (config : Dict) :
  match first_missing config with
  | Some k => email_config fs config = Raise (key_error k)
  | None =>
      exists c,
        getitem config "source_host" = Ret (source_host c)
        /\ getitem config "source_email" = Ret (source_email c)
        /\ getitem config "source_password" = Ret (source_password c)
        /\ getitem config "dest_host" = Ret (dest_host c)
        /\ getitem config "dest_email" = Ret (dest_email c)
        /\ getitem config "dest_password" = Ret (dest_password c)
        /\ email_config fs config
           = match fs (log_file (source_email c)) with
             | Some e => Raise e
             | None => Ret c
             end
  end.
Proof.
  exact (email_config_by_keys fs config).
Qed.

End ConfigFacts.

(* ===================================================================== *)
(** * Loading the accounts and the script                                 *)
(* ===================================================================== *)

Section LoadFacts.
Import Config.

Lemma email_configs_accepted fs (ds : list Dict) :
  forall i,
  (forall j d, nth_error ds j = Some d -> exists c, email_config (fs (i + j)) d = Ret c) ->
  exists cs,
    email_configs fs i ds = Ret cs
    /\ length cs = length ds
    /\ forall j d, nth_error ds j = Some d ->
         exists c, nth_error cs j = Some c /\ email_config (fs (i + j)) d = Ret c.
Proof.
  induction ds as [|d ds IH]; intros i H; simpl.
  - exists []. repeat split. intros [|j] d; discriminate.
  - destruct (H 0 d eq_refl) as [c Ec]. rewrite Nat.add_0_r in Ec. rewrite Ec. simpl.
    destruct (IH (S i)) as (cs & E & L & F).
    { intros j d' Hj. replace (S i + j) with (i + S j) by lia. now apply H. }
    rewrite E. simpl. exists (c :: cs). split; [reflexivity|]. split; [simpl; now rewrite L|].
    intros [|j] d' Hj; simpl in Hj.
    + injection Hj as <-. exists c. rewrite Nat.add_0_r. now split.
    + destruct (F j d' Hj) as (c' & F1 & F2). exists c'. split; [exact F1|].
      now replace (i + S j) with (S i + j) by lia.
Qed.

Lemma email_configs_first_failure fs (ds1 : list Dict) :
  forall i d ds2 e,
  (forall j d', nth_error ds1 j = Some d' -> exists c, email_config (fs (i + j)) d' = Ret c) ->
  email_config (fs (i + length ds1)) d = Raise e ->
  email_configs fs i (ds1 ++ d :: ds2) = Raise e.
Proof.
  induction ds1 as [|d1 ds1 IH]; intros i d ds2 e H He; simpl.
  - simpl in He. rewrite Nat.add_0_r in He. now rewrite He.
  - destruct (H 0 d1 eq_refl) as [c Ec]. rewrite Nat.add_0_r in Ec. rewrite Ec. simpl.
    rewrite (IH (S i) d ds2 e); [reflexivity| |].
    + intros j d' Hj. replace (S i + j) with (i + S j) by lia. now apply H.
    + now replace (S i + length ds1) with (i + length (d1 :: ds1)) by (simpl; lia).
Qed.

(** X7.  [load_email_configs] yields all the accounts or none.  When
    the file cannot be opened or parsed, it logs the exception and
    raises it again.  When [EmailConfig] accepts every dict (the six
    keys are there and the logger can be set up), it returns one
    configuration per dict, in the order of the file.  When
    [EmailConfig] raises for a dict, for a missing key or from setting
    up the logger, after dicts that it accepted, that exception is
    logged and raised, whatever the dicts after it hold. *)
Theorem load_email_configs_all_or_nothing (fs : nat -> string -> option exn) :
  (forall e, load_email_configs (Raise e) fs = (Raise e, [e]))
  /\ (forall ds,
        (forall j d, nth_error ds j = Some d ->
           exists c, email_config (fs j) d = Ret c) ->
        exists cs,
          load_email_configs (Ret ds) fs = (Ret cs, [])
          /\ length cs = length ds
          /\ forall j d, nth_error ds j = Some d ->
               exists c, nth_error cs j = Some c /\ email_config (fs j) d = Ret c)
  /\ (forall ds1 d ds2 e,
        (forall j d', nth_error ds1 j = Some d' ->
           exists c, email_config (fs j) d' = Ret c) ->
        email_config (fs (length ds1)) d = Raise e ->
        load_email_configs (Ret (ds1 ++ d :: ds2)) fs = (Raise e, [e])).
Proof.
  split; [reflexivity|]. split.
  - intros ds H. destruct (email_configs_accepted fs ds 0 H) as (cs & E & L & F).
    exists cs. unfold load_email_configs. simpl. rewrite E. repeat split; assumption.
  - intros ds1 d ds2 e H He. unfold load_email_configs. simpl.
    now rewrite (email_configs_first_failure fs ds1 0 d ds2 e H He).
Qed.

End LoadFacts.

Lemma load_email_configs_all_or_nothing_witness :
  Config.load_email_configs
    (Ret ([Scenario2.account "a@x" "b@y"]
          ++ Scenario2.account "c/d@x" "e@y" :: [Scenario2.account "f@x" "g@y"]))
    Scenario2.fs_flat
  = (Raise (OSError (Some 2%Z) "[Errno 2] No such file or directory"),
     [OSError (Some 2%Z) "[Errno 2] No such file or directory"]).
Proof.
  destruct (load_email_configs_all_or_nothing Scenario2.fs_flat) as (_ & _ & H).
  apply H; [|reflexivity].
  intros [|j] d' Hj; [|destruct j; discriminate Hj].
  injection Hj as <-. eexists. reflexivity.
Defined.

Section MainFacts.
Import Obs2 Main.

Lemma migrate_all_out (env : RunEnv) (s : State) :
  out (migrate_all env s) = run_outcome env.
Proof.
  unfold migrate_all, run_outcome.
  destruct (connect_out (re_connect env) s) as [C1 C2].
  rewrite bind_run, C1. run_simpl.
  destruct (connect_ok (re_connect env)) eqn:Ok; cbv beta; cbn [negb]; cbv beta iota;
    [|reflexivity].
  specialize (C2 eq_refl).
  destruct (migrate_all_try env _ C2) as [Hc Ho]. cbv zeta in Hc, Ho.
  unfold try_finally.
  set (body := (folders <- get_folders (re_list env);;
                migrate_all_from (re_folders env) 0 folders;;
                log INFO MigrationCompleted;;
                ret (@None bool))) in *.
  destruct (body (final (connect (re_connect env) s))) as [[r s1] t1] eqn:Eb.
  run_simpl. subst r.
  destruct Hc as [Hs Hd].
  destruct (source s1) as [src|] eqn:Es; [|now elim Hs].
  destruct (dest s1) as [dst|] eqn:Ed; [|now elim Hd].
  unfold bind, logout_if_set, imap. rewrite Es.
  destruct (re_logout_src env) as [e1|]; simpl; [reflexivity|].
  rewrite Ed.
  destruct (re_logout_dst env) as [e2|]; simpl; reflexivity.
Qed.

Lemma run_from_cons envs i c rest file :
  run_from envs i (c :: rest) file =
  let x := migrate_all (envs i) (init (Config.dest_email c) file) in
  match run_outcome (envs i) with
  | Ret r =>
      let y := run_from envs (S i) rest (Some (db (final x))) in
      (fst (fst y), snd (fst y),
       StartingMigration (Config.source_email c) (Config.dest_email c)
       :: Migration (Config.dest_email c) (Ret r) (trace x) :: snd y)
  | Raise e =>
      (Raise e, Some (db (final x)),
       [StartingMigration (Config.source_email c) (Config.dest_email c);
        Migration (Config.dest_email c) (Raise e) (trace x)])
  end.
Proof.
  cbv zeta. rewrite <- (migrate_all_out (envs i) (init (Config.dest_email c) file)).
  simpl. destruct (migrate_all (envs i) (init (Config.dest_email c) file)) as [[[r|e] s] t];
    run_simpl; [|reflexivity].
  destruct (run_from envs (S i) rest (Some (db s))) as [[r' f'] t']. reflexivity.
Qed.

Lemma run_from_all_return envs configs :
  forall i file,
  (forall j, j < length configs -> run_returns (envs (i + j)) = true) ->
  let x := run_from envs i configs file in
  fst (fst x) = Ret tt
  /\ started (snd x) = map Config.dest_email configs
  /\ Forall (fun ev => match ev with MigrationFailed _ => False | _ => True end) (snd x).
Proof.
  induction configs as [|c rest IH]; intros i file H; cbv zeta.
  - simpl. repeat split. constructor.
  - rewrite run_from_cons. cbv zeta.
    pose proof (H 0 ltac:(simpl; lia)) as H0. rewrite Nat.add_0_r in H0.
    unfold run_returns in H0.
    destruct (run_outcome (envs i)) as [r|e]; [|discriminate].
    destruct (IH (S i) (Some (db (final (migrate_all (envs i)
                 (init (Config.dest_email c) file)))))) as (I1 & I2 & I3).
    { intros j Hj. replace (S i + j) with (i + S j) by lia. apply H. simpl. lia. }
    simpl. repeat split; [exact I1|now rewrite I2|].
    repeat constructor. exact I3.
Qed.

Lemma run_from_first_raise envs c1 :
  forall i c c2 file e,
  (forall j, j < length c1 -> run_returns (envs (i + j)) = true) ->
  run_outcome (envs (i + length c1)) = Raise e ->
  let x := run_from envs i (c1 ++ c :: c2) file in
  fst (fst x) = Raise e
  /\ started (snd x) = map Config.dest_email (c1 ++ [c]).
Proof.
  induction c1 as [|c0 c1 IH]; intros i c c2 file e H He; cbv zeta.
  - simpl app. rewrite run_from_cons. cbv zeta.
    simpl in He. rewrite Nat.add_0_r in He. rewrite He. simpl. split; reflexivity.
  - simpl app. rewrite run_from_cons. cbv zeta.
    pose proof (H 0 ltac:(simpl; lia)) as H0. rewrite Nat.add_0_r in H0.
    unfold run_returns in H0.
    destruct (run_outcome (envs i)) as [r|e0]; [|discriminate].
    destruct (IH (S i) c c2 (Some (db (final (migrate_all (envs i)
                 (init (Config.dest_email c0) file))))) e) as (I1 & I2).
    { intros j Hj. replace (S i + j) with (i + S j) by lia. apply H. simpl. lia. }
    { replace (S i + length c1) with (i + length (c0 :: c1)) by (simpl; lia). exact He. }
    simpl. split; [exact I1|now rewrite I2].
Qed.

(** X8.  A configuration that cannot be loaded stops the script before
    any account.  Whether the file cannot be read, or [EmailConfig]
    raises for one dict of it (a key is missing, or the logger cannot be
    set up), no migration is started, not even for the accounts listed
    before the faulty dict, the database file is left as it was, and
    the exception is logged twice, by [load_email_configs] and by the
    script. *)
Theorem main_loads_all_accounts_first (fs : nat -> string -> option exn)
    (envs : nat -> RunEnv) (file : option Table) :
  (forall e,
      main (Raise e) fs envs file = (file, [ErrorLoadingConfig e; MigrationFailed e]))
  /\ (forall ds1 d ds2 e,
        (forall j d', nth_error ds1 j = Some d' ->
           exists c, Config.email_config (fs j) d' = Ret c) ->
        Config.email_config (fs (length ds1)) d = Raise e ->
        main (Ret (ds1 ++ d :: ds2)) fs envs file
          = (file, [ErrorLoadingConfig e; MigrationFailed e])
        /\ started (snd (main (Ret (ds1 ++ d :: ds2)) fs envs file)) = []).
Proof.
  split; [reflexivity|].
  intros ds1 d ds2 e H He.
  assert (E : main (Ret (ds1 ++ d :: ds2)) fs envs file
              = (file, [ErrorLoadingConfig e; MigrationFailed e])).
  { unfold main, Config.load_email_configs. simpl.
    now rewrite (email_configs_first_failure fs ds1 0 d ds2 e H He). }
  rewrite E. split; reflexivity.
Qed.

(** X9.  The accounts are migrated in the order of the file, and an
    account whose servers cannot be reached does not stop the script:
    when the configuration loads and no run raises (for one, when
    [connect] fails, [migrate_all] returning [False]), a migration is
    started for every account and the script logs no failure. *)
Theorem main_runs_every_account (fs : nat -> string -> option exn)
    (envs : nat -> RunEnv) (file : option Table)
    (ds : list Config.Dict) (configs : list Config.EmailConfig) :
  Config.email_configs fs 0 ds = Ret configs ->
  (forall j, j < length configs -> run_returns (envs j) = true) ->
  let x := main (Ret ds) fs envs file in
  started (snd x) = map Config.dest_email configs
  /\ Forall (fun ev => match ev with MigrationFailed _ => False | _ => True end) (snd x).
Proof.
  intros E H x. subst x. unfold main, Config.load_email_configs. simpl. rewrite E.
  destruct (run_from_all_return envs configs 0 file H) as (I1 & I2 & I3).
  cbv zeta in I1, I2, I3.
  destruct (run_from envs 0 configs file) as [[r f] t]. simpl in *. subst r.
  split; assumption.
Qed.

(** X10.  When the configuration loads, an exception that leaves
    [migrate_all] (from the folder listing, or from a final logout)
    ends the script: the accounts after that one are never started, and
    the script logs the exception. *)
Theorem main_stops_at_first_exception (fs : nat -> string -> option exn)
    (envs : nat -> RunEnv) (file : option Table)
    (ds : list Config.Dict) (c1 c2 : list Config.EmailConfig) (c : Config.EmailConfig)
    (e : exn) :
  Config.email_configs fs 0 ds = Ret (c1 ++ c :: c2) ->
  (forall j, j < length c1 -> run_returns (envs j) = true) ->
  run_outcome (envs (length c1)) = Raise e ->
  let x := main (Ret ds) fs envs file in
  started (snd x) = map Config.dest_email (c1 ++ [c])
  /\ exists t, snd x = t ++ [MigrationFailed e].
Proof.
  intros E H He x. subst x. unfold main, Config.load_email_configs. simpl. rewrite E.
  destruct (run_from_first_raise envs c1 0 c c2 file e H He) as (I1 & I2).
  cbv zeta in I1, I2.
  destruct (run_from envs 0 (c1 ++ c :: c2) file) as [[r f] t]. simpl in *. subst r.
  simpl. split; [|now exists t].
  rewrite <- I2. clear. induction t as [|ev t IH]; simpl; [reflexivity|].
  destruct ev; simpl; rewrite ?IH; reflexivity.
Qed.

End MainFacts.

Lemma main_loads_all_accounts_first_witness :
  Main.started
    (snd (Main.main
            (Ret ([Scenario2.account "a@x" "b@y"]
                  ++ Scenario2.account "c/d@x" "e@y" :: [Scenario2.account "f@x" "g@y"]))
            Scenario2.fs_flat (fun _ => Scenario.run_fine) None)) = [].
Proof.
  destruct (main_loads_all_accounts_first Scenario2.fs_flat (fun _ => Scenario.run_fine) None)
    as (_ & H).
  apply (H [Scenario2.account "a@x" "b@y"] (Scenario2.account "c/d@x" "e@y")
           [Scenario2.account "f@x" "g@y"]
           (OSError (Some 2%Z) "[Errno 2] No such file or directory")); [|reflexivity].
  intros [|j] d' Hj; [|destruct j; discriminate Hj].
  injection Hj as <-. eexists. reflexivity.
Defined.

Lemma main_runs_every_account_witness :
  Main.started
    (snd (Main.main (Ret [Scenario2.account "a@x" "b@y"; Scenario2.account "c@x" "d@y"])
            Scenario2.fs_flat
            (fun i => match i with
                      | 0 => Scenario.dest_login_refused
                      | _ => Scenario.run_fine
                      end) None))
  = ["b@y"; "d@y"].
Proof.
  apply (main_runs_every_account Scenario2.fs_flat
           (fun i => match i with
                     | 0 => Scenario.dest_login_refused
                     | _ => Scenario.run_fine
                     end) None
           [Scenario2.account "a@x" "b@y"; Scenario2.account "c@x" "d@y"]
           [Scenario2.config_of "a@x" "b@y"; Scenario2.config_of "c@x" "d@y"]
           eq_refl).
  intros [|[|j]] Hj; [reflexivity|reflexivity|simpl in Hj; lia].
Defined.

Lemma main_stops_at_first_exception_witness :
  Main.started
    (snd (Main.main
            (Ret [Scenario2.account "a@x" "b@y"; Scenario2.account "c@x" "d@y";
                  Scenario2.account "e@x" "f@y"])
            Scenario2.fs_flat Scenario2.three_runs None))
  = ["b@y"; "d@y"].
Proof.
  apply (main_stops_at_first_exception Scenario2.fs_flat Scenario2.three_runs None
           [Scenario2.account "a@x" "b@y"; Scenario2.account "c@x" "d@y";
            Scenario2.account "e@x" "f@y"]
           [Scenario2.config_of "a@x" "b@y"] [Scenario2.config_of "e@x" "f@y"]
           (Scenario2.config_of "c@x" "d@y")
           (Exception "command: LIST => socket error: EOF") eq_refl).
  - intros [|j] Hj; [reflexivity|simpl in Hj; lia].
  - reflexivity.
Defined.

(* ===================================================================== *)
(** * [connect] and [reconnect]                                           *)
(* ===================================================================== *)

Section ConnectFacts.
Import Obs2.

(** X11.  [connect] never raises.  It returns [True] when its four
    steps return and [False] otherwise, then logging the exception of
    the first step that failed as its only error.  It opens the
    destination only once the login of the source has returned, and it
    assigns each session before the login: after a failed login of the
    source, [self.source] is the new session, which is not logged in,
    and [self.dest] is what it was.  The table and the account are not
    touched. *)
Theorem connect_stops_at_first_failure (ce : ConnectEnv) (s : State) :
  let x := connect ce s in
  out x = Ret (connect_ok ce)
  /\ db (final x) = db s /\ dest_user (final x) = dest_user s
  /\ (connect_ok ce = true <-> connect_error ce = None)
  /\ (forall e, connect_error ce = Some e ->
        filter (fun m => match fst m with ERROR => true | _ => false end) (logged (trace x))
          = [(ERROR, ConnectionError e)])
  /\ (forall e, src_open ce = Some e -> final x = s /\ opened (trace x) = [])
  /\ (forall e, src_open ce = None -> src_login ce = Some e ->
        source (final x) = Some (mkSession Source (next_sid s))
        /\ dest (final x) = dest s
        /\ opened (trace x) = [Source]
        /\ logged_in (trace x) = []).
Proof.
  cbv zeta. unfold connect, connect_ok, connect_error, try_except, bind. unfold_prims.
  destruct ce as [so sl d_o dl]. simpl.
  destruct so as [e1|]; simpl.
  { repeat split; try discriminate; try congruence. }
  destruct sl as [e2|]; simpl.
  { repeat split; try discriminate; try congruence. }
  destruct d_o as [e3|]; simpl.
  { repeat split; try discriminate; try congruence. }
  destruct dl as [e4|]; simpl; repeat split; try discriminate; try congruence.
Qed.

Lemma reconnect_run re folder s :
  exists t0,
    reconnect re folder s =
    (let c := connect (rc_connect re) s in
    let k := (if negb (connect_ok (rc_connect re)) then ret false
              else
                match folder with
                | Some (String ch f) =>
                    imap source (SELECT (String ch f)) (res_of (rc_select re));;
                    log INFO (ReselectedFolder (String ch f));;
                    ret true
                | _ => ret true
                end) (final c) in
    (out k, final k, t0 ++ EvSleep 1 :: trace c ++ trace k))
    /\ logouts t0 =
       match source s, dest s with
       | None, None => []
       | Some src, None => [(src, rc_src_logout re)]
       | None, Some dst => [(dst, rc_dst_logout re)]
       | Some src, Some dst =>
           match rc_src_logout re with
           | Some e => [(src, Some e)]
           | None => [(src, None); (dst, rc_dst_logout re)]
           end
       end
    /\ Forall (fun ev => match ev with EvImap _ LOGOUT _ => True | _ => False end) t0.
Proof.
  destruct (connect_out (rc_connect re) s) as [C1 _].
  assert (L : exists t0,
    try_except
      (logout_if_set source (rc_src_logout re);;
       logout_if_set dest (rc_dst_logout re))
      (fun _ => ret tt) s = (Ret tt, s, t0)
    /\ logouts t0 =
       match source s, dest s with
       | None, None => []
       | Some src, None => [(src, rc_src_logout re)]
       | None, Some dst => [(dst, rc_dst_logout re)]
       | Some src, Some dst =>
           match rc_src_logout re with
           | Some e => [(src, Some e)]
           | None => [(src, None); (dst, rc_dst_logout re)]
           end
       end
    /\ Forall (fun ev => match ev with EvImap _ LOGOUT _ => True | _ => False end) t0).
  { unfold try_except, bind, logout_if_set, imap, ret.
    destruct (source s) as [src|] eqn:Es, (dest s) as [dst|] eqn:Ed;
      destruct (rc_src_logout re) as [e1|], (rc_dst_logout re) as [e2|]; simpl;
      rewrite ?Es, ?Ed; simpl; eexists; (split; [reflexivity|]);
      (split; [reflexivity|]); repeat constructor. }
  destruct L as (t0 & E0 & L0 & F0). exists t0. split; [|split; assumption].
  unfold reconnect.
  rewrite (bind_ret_run _ _ s tt s t0 E0).
  rewrite (bind_ret_run (sleep 1) _ s tt s [EvSleep 1] eq_refl).
  rewrite bind_run, C1. run_simpl. cbv zeta.
  simpl. reflexivity.
Qed.

Lemma reconnect_tail_out re folder s :
  connect_ok (rc_connect re) = true -> connected s ->
  out ((match folder with
        | Some (String ch f) =>
            imap source (SELECT (String ch f)) (res_of (rc_select re));;
            log INFO (ReselectedFolder (String ch f));;
            ret true
        | _ => ret true
        end) s)
  = reconnect_outcome re folder.
Proof.
  intros Ok [Hs Hd]. unfold reconnect_outcome. rewrite Ok.
  destruct folder as [[|ch f]|]; try reflexivity.
  unfold bind, imap, log, emit, ret.
  destruct (source s) as [src|]; [|now elim Hs].
  destruct (rc_select re); reflexivity.
Qed.

Lemma reconnect_out_any re folder s :
  out (reconnect re folder s) = reconnect_outcome re folder.
Proof.
  destruct (reconnect_run re folder s) as (t0 & E & _). rewrite E. cbv zeta. run_simpl.
  destruct (connect_out (rc_connect re) s) as [_ C2].
  destruct (connect_ok (rc_connect re)) eqn:Ok; cbn [negb]; cbv iota.
  - now apply reconnect_tail_out; [|apply C2].
  - unfold reconnect_outcome. now rewrite Ok.
Qed.

(** X12.  What leaves [reconnect]: it returns [False] when [connect]
    fails, and otherwise selects the folder again, unless the folder is
    [None] or the empty string, and returns [True]; the one exception
    that can leave it is that of this [select].  The exceptions of the
    two logouts never do.  It pauses for one second, once, whatever
    happens, and selects nothing after a failed [connect]. *)
Theorem reconnect_raises_only_from_select (re : ReconnectEnv) (folder : option string)
    (s : State) :
  let x := reconnect re folder s in
  out x = reconnect_outcome re folder
  /\ backoffs (trace x) = [1]
  /\ selected (trace x)
     = (if connect_ok (rc_connect re) then
          match folder with
          | Some (String c f) => [String c f]
          | _ => []
          end
        else []).
Proof.
  cbv zeta. split; [apply reconnect_out_any|].
  destruct (reconnect_run re folder s) as (t0 & E & _ & F0). rewrite E. cbv zeta. run_simpl.
  assert (B0 : backoffs t0 = [] /\ selected t0 = []).
  { clear E. induction F0 as [|ev t0 Hev _ IH]; [split; reflexivity|].
    destruct ev as [| x c r | | | |]; try contradiction.
    destruct c; try contradiction. exact IH. }
  destruct B0 as [B0 S0].
  assert (BC : backoffs (trace (connect (rc_connect re) s)) = []
               /\ selected (trace (connect (rc_connect re) s)) = []).
  { unfold connect, try_except, bind. unfold_prims.
    destruct (rc_connect re) as [so sl d_o dl]. simpl.
    destruct so; simpl; [split; reflexivity|].
    destruct sl; simpl; [split; reflexivity|].
    destruct d_o; simpl; [split; reflexivity|].
    destruct dl; simpl; split; reflexivity. }
  destruct BC as [BC SC].
  destruct (connect_out (rc_connect re) s) as [_ C2].
  assert (Sapp : forall a b, selected (a ++ b) = selected a ++ selected b).
  { intros a b. induction a as [|ev a IH]; simpl; [reflexivity|].
    destruct ev as [| x c r | | | |]; try exact IH.
    destruct c; try exact IH. destruct (side x); simpl; now rewrite IH. }
  rewrite backoffs_app, Sapp, B0, S0. simpl.
  rewrite backoffs_app, Sapp, BC, SC. simpl.
  destruct (connect_ok (rc_connect re)) eqn:Ok; cbn [negb]; cbv iota;
    [|split; reflexivity].
  specialize (C2 eq_refl). destruct C2 as [Hs Hd].
  destruct folder as [[|ch f]|]; try (split; reflexivity).
  unfold bind, imap, log, emit, ret.
  destruct (source (final (connect (rc_connect re) s))) as [src|] eqn:Es; [|now elim Hs].
  assert (Sd : side src = Source).
  { revert Es Ok. clear. unfold connect, connect_ok, try_except, bind. unfold_prims.
    destruct (rc_connect re) as [so sl d_o dl]. simpl.
    destruct so; simpl; [discriminate|].
    destruct sl; simpl; [discriminate|].
    destruct d_o; simpl; [discriminate|].
    destruct dl; simpl; [discriminate|]. intros [= <-]; reflexivity. }
  destruct (rc_select re); simpl; rewrite Sd; split; reflexivity.
Qed.

(** X13.  The logouts of [reconnect] share one [try]: when the logout
    of the source raises, the destination is never logged out, and its
    session is dropped when [connect] then assigns a new one.  When the
    logout of the source returns, both are logged out, the source
    first, whatever the logout of the destination does.  No exception
    of either leaves [reconnect]. *)
Theorem reconnect_logout_skips_destination (re : ReconnectEnv) (folder : option string)
    (s : State) (src dst : Session) :
  source s = Some src -> dest s = Some dst ->
  let x := reconnect re folder s in
  logouts (trace x)
    = match rc_src_logout re with
      | Some e => [(src, Some e)]
      | None => [(src, None); (dst, rc_dst_logout re)]
      end
  /\ out x = reconnect_outcome re folder.
Proof.
  intros Es Ed x. subst x. split; [|apply reconnect_out_any].
  destruct (reconnect_run re folder s) as (t0 & E & L0 & _). rewrite E. cbv zeta. run_simpl.
  rewrite Es, Ed in L0.
  assert (Lapp : forall a b, logouts (a ++ b) = logouts a ++ logouts b).
  { intros a b. induction a as [|ev a IH]; simpl; [reflexivity|].
    destruct ev as [| x c r | | | |]; try exact IH.
    destruct c; try exact IH. simpl. now rewrite IH. }
  assert (LC : logouts (trace (connect (rc_connect re) s)) = []).
  { unfold connect, try_except, bind. unfold_prims.
    destruct (rc_connect re) as [so sl d_o dl]. simpl.
    destruct so; simpl; [reflexivity|].
    destruct sl; simpl; [reflexivity|].
    destruct d_o; simpl; [reflexivity|].
    destruct dl; simpl; reflexivity. }
  rewrite Lapp, L0. simpl. rewrite Lapp, LC. simpl.
  assert (LK : forall s', logouts (trace
      ((if negb (connect_ok (rc_connect re)) then ret false
        else
          match folder with
          | Some (String ch f) =>
              imap source (SELECT (String ch f)) (res_of (rc_select re));;
              log INFO (ReselectedFolder (String ch f));;
              ret true
          | _ => ret true
          end) s')) = []).
  { intros s'. destruct (negb (connect_ok (rc_connect re))); [reflexivity|].
    destruct folder as [[|ch f]|]; try reflexivity.
    unfold bind, imap, log, emit, ret.
    destruct (source s'); [|reflexivity].
    destruct (rc_select re); reflexivity. }
  rewrite LK, app_nil_r. reflexivity.
Qed.

End ConnectFacts.

Lemma connect_stops_at_first_failure_witness :
  source (final (connect (rc_connect Scenario.login_refused) Scenario.two_stored))
    = Some (mkSession Source 2)
  /\ dest (final (connect (rc_connect Scenario.login_refused) Scenario.two_stored))
    = Some (mkSession Dest 1).
Proof.
  destruct (connect_stops_at_first_failure (rc_connect Scenario.login_refused)
              Scenario.two_stored) as (_ & _ & _ & _ & _ & _ & H).
  destruct (H (Exception "[AUTHENTICATIONFAILED] Invalid credentials") eq_refl eq_refl)
    as (H1 & H2 & _).
  split; [exact H1|exact H2].
Defined.

Lemma reconnect_logout_skips_destination_witness :
  logouts (trace (reconnect Scenario2.logout_raises (Some "INBOX") Scenario.two_stored))
  = [(mkSession Source 0, Some (OSError (Some 32%Z) "[Errno 32] Broken pipe"))].
Proof.
  apply (reconnect_logout_skips_destination Scenario2.logout_raises (Some "INBOX")
           Scenario.two_stored (mkSession Source 0) (mkSession Dest 1) eq_refl eq_refl).
Defined.

(* ===================================================================== *)
(** * [migrate_message]: the failures it does not retry, and its bounds   *)
(* ===================================================================== *)

Section RetryFacts.
Import Obs2.

Lemma migrate_message_from_transfer_raise env num folder uid retries attempt rest s e :
  connected s -> fails_with (env attempt) e ->
  migrate_message_from env num folder uid retries (attempt :: rest) s =
  let t1 := trace (transfer (env attempt) num folder uid s) in
  let h := on_error (env attempt) folder uid attempt retries e s in
  match out h with
  | Ret (Return b) => (Ret (Some b), final h, t1 ++ trace h)
  | Ret Continue =>
      let x := migrate_message_from env num folder uid retries rest (final h) in
      (out x, final x, (t1 ++ trace h) ++ trace x)
  | Raise e' => (Raise e', final h, t1 ++ trace h)
  end.
Proof.
  intros Hc Hf.
  destruct (transfer_fails_with (env attempt) num folder uid s e Hc Hf) as [Ho _].
  destruct (transfer_raise (env attempt) num folder uid s e Ho) as [Hs _].
  rewrite (migrate_message_from_handled env num folder uid retries attempt rest s e s
             (trace (transfer (env attempt) num folder uid s))).
  - reflexivity.
  - etransitivity; [apply run_eta|]. now rewrite Ho, Hs.
Qed.

(** X14.  A socket error whose errno is not 54, a timeout for one, is
    not retried: whatever [retries] is, [migrate_message] returns
    [False] after the one fetch, without a reconnect or a pause, with a
    warning as its only log line, and leaves the sessions and the table
    as they were. *)
Theorem other_socket_error_is_final (env : nat -> AttemptEnv) (num folder uid : string)
    (retries : nat) (s : State) (e : exn) :
  0 < retries -> connected s ->
  fails_with (env 0) e -> other_socket_error e = true ->
  let x := migrate_message env num folder uid retries s in
  out x = Ret (Some false)
  /\ final x = s
  /\ fetched (trace x) = [num]
  /\ reconnects (trace x) = 0
  /\ backoffs (trace x) = []
  /\ logged (trace x) = [(WARNING, SocketError uid e)].
Proof.
  intros Hr Hc Hf He x. subst x. unfold migrate_message.
  destruct retries as [|r]; [lia|]. simpl seq.
  rewrite (migrate_message_from_transfer_raise env num folder uid (S r) 0 (seq 1 r) s e Hc Hf).
  cbv zeta.
  destruct (transfer_fails_with (env 0) num folder uid s e Hc Hf) as [Ho Hfe].
  destruct (transfer_raise (env 0) num folder uid s e Ho) as (Hs & _ & _).
  destruct (transfer_quiet (env 0) num folder uid s) as [Hq1 Hq2].
  assert (Hl : logged (trace (transfer (env 0) num folder uid s)) = []).
  { revert Ho. clear. unfold transfer, bind. unfold_prims.
    destruct (source s); [|reflexivity].
    destruct (at_fetch (env 0)) as [[fl b]|e0]; simpl; [|reflexivity].
    destruct (dest s); simpl; [|reflexivity].
    destruct (at_append (env 0)); simpl; [reflexivity|].
    unfold sql_insert. destruct (existsb _ _); simpl; discriminate. }
  assert (Eh : on_error (env 0) folder uid 0 (S r) e s
               = (Ret (Return false), s, [EvLog WARNING (SocketError uid e)])).
  { unfold on_error. destruct e as [[n|] msg|msg]; simpl in He; try discriminate.
    - apply Bool.negb_true_iff in He. rewrite He. reflexivity.
    - reflexivity. }
  rewrite Eh. run_simpl. cbv iota. run_simpl.
  assert (Lapp : forall a b, logged (a ++ b) = logged a ++ logged b).
  { intros a b. induction a as [|ev a IH]; simpl; [reflexivity|].
    destruct ev; simpl; rewrite ?IH; reflexivity. }
  rewrite fetched_app, reconnects_app, backoffs_app, Lapp, Hfe, Hq1, Hq2, Hl.
  repeat split.
Qed.

Lemma on_error_plain ae folder uid attempt retries e s :
  plain_error e = true ->
  on_error ae folder uid attempt retries e s =
  if attempt <? retries - 1 then
    (Ret Continue, s,
     [EvLog WARNING (AttemptFailed (attempt + 1) retries uid e); EvSleep (2 ^ attempt)])
  else
    (Ret (Return false), s,
     [EvLog WARNING (AttemptFailed (attempt + 1) retries uid e);
      EvLog ERROR (FinalFailure uid e)]).
Proof.
  intros He. destruct e as [n msg|msg]; simpl in He; [discriminate|].
  apply Bool.negb_true_iff in He. unfold on_error, str. rewrite He.
  destruct (attempt <? retries - 1); reflexivity.
Qed.

Lemma migrate_message_from_plain env num folder uid retries n :
  forall a s,
  a + n = retries -> 0 < n -> connected s ->
  (forall i, i < n -> exists e, fails_with (env (a + i)) e /\ plain_error e = true) ->
  let x := migrate_message_from env num folder uid retries (seq a n) s in
  out x = Ret (Some false)
  /\ final x = s
  /\ fetched (trace x) = repeat num n
  /\ reconnects (trace x) = 0
  /\ backoffs (trace x) = map (Nat.pow 2) (seq a (n - 1)).
Proof.
  induction n as [|n IH]; intros a s Ha Hn Hc H; [lia|]. cbv zeta.
  destruct (H 0 ltac:(lia)) as (e & Hf & He). rewrite Nat.add_0_r in Hf.
  simpl seq.
  rewrite (migrate_message_from_transfer_raise env num folder uid retries a (seq (S a) n) s e
             Hc Hf).
  cbv zeta. rewrite (on_error_plain _ _ _ _ _ _ _ He).
  destruct (transfer_fails_with (env a) num folder uid s e Hc Hf) as [Ho Hfe].
  destruct (transfer_quiet (env a) num folder uid s) as [Hq1 Hq2].
  destruct n as [|n].
  - assert (E : (a <? retries - 1) = false) by (apply Nat.ltb_ge; lia).
    rewrite E. run_simpl. cbv iota. run_simpl.
    rewrite fetched_app, reconnects_app, backoffs_app, Hfe, Hq1, Hq2.
    repeat split.
  - assert (E : (a <? retries - 1) = true) by (apply Nat.ltb_lt; lia).
    rewrite E. run_simpl. cbv iota.
    destruct (IH (S a) s ltac:(lia) ltac:(lia) Hc) as (I1 & I2 & I3 & I4 & I5).
    { intros i Hi. replace (S a + i) with (a + S i) by lia. apply H. lia. }
    cbv zeta in I1, I2, I3, I4, I5. run_simpl.
    rewrite !fetched_app, !reconnects_app, !backoffs_app, Hfe, Hq1, Hq2, I3, I4, I5.
    simpl. rewrite Nat.sub_0_r. repeat split; assumption.
Qed.

(** X15.  A failure outside [socket.error] whose text has neither
    [BAD_LENGTH] nor [socket error] (a refusal by the server, for one)
    is retried on the sessions as they are: when every attempt fails so,
    [migrate_message] fetches the message [retries] times, never
    reconnects, pauses 1, 2, ..., 2^(retries-2) seconds between the
    attempts and none after the last, and returns [False] with the
    sessions and the table as they were. *)
Theorem plain_error_retries_without_reconnect (env : nat -> AttemptEnv)
    (num folder uid : string) (retries : nat) (s : State) :
  0 < retries -> connected s ->
  (forall i, i < retries -> exists e, fails_with (env i) e /\ plain_error e = true) ->
  let x := migrate_message env num folder uid retries s in
  out x = Ret (Some false)
  /\ final x = s
  /\ fetched (trace x) = repeat num retries
  /\ reconnects (trace x) = 0
  /\ backoffs (trace x) = map (Nat.pow 2) (seq 0 (retries - 1)).
Proof.
  intros Hr Hc H. unfold migrate_message.
  apply (migrate_message_from_plain env num folder uid retries retries 0 s); auto.
Qed.

Lemma transfer_one_fetch ae num folder uid s :
  length (fetched (trace (transfer ae num folder uid s))) <= 1.
Proof.
  unfold transfer, bind. unfold_prims.
  destruct (source s); simpl; [|lia].
  destruct (at_fetch ae) as [[fl b]|e0]; simpl; [|lia].
  destruct (dest s); simpl; [|lia].
  destruct (at_append ae); simpl; [lia|].
  unfold sql_insert. destruct (existsb _ _); simpl; lia.
Qed.

Lemma on_error_shape ae folder uid attempt retries e s :
  let h := on_error ae folder uid attempt retries e s in
  fetched (trace h) = []
  /\ reconnects (trace h) <= 1
  /\ backoffs (trace h) = match out h with
                          | Ret Continue => [2 ^ attempt]
                          | _ => []
                          end.
Proof.
  cbv zeta. unfold on_error, call_reconnect.
  destruct e as [[n|] msg|msg].
  - destruct (Z.eqb n 54); unfold bind, log, sleep, emit, ret;
      [destruct (reconnect (at_reconnect ae) (Some folder) s) as [[[b|e'] s1] t]|];
      simpl; repeat split; lia.
  - unfold bind, log, sleep, emit, ret. simpl. repeat split; lia.
  - destruct (attempt <? retries - 1); [destruct (_ || _)|];
      unfold bind, log, sleep, emit, ret;
      try destruct (reconnect (at_reconnect ae) (Some folder) s) as [[[b|e'] s1] t];
      simpl; repeat split; lia.
Qed.

Lemma sum_pow2 k : forall a, list_sum (map (Nat.pow 2) (seq a k)) + 2 ^ a = 2 ^ (a + k).
Proof.
  induction k as [|k IH]; intros a; simpl.
  - now rewrite Nat.add_0_r.
  - specialize (IH (S a)). replace (a + S k) with (S a + k) by lia.
    rewrite <- IH. simpl. lia.
Qed.

Lemma migrate_message_from_bounded env num folder uid retries n :
  forall a s,
  let x := migrate_message_from env num folder uid retries (seq a n) s in
  exists k,
    k <= n
    /\ backoffs (trace x) = map (Nat.pow 2) (seq a k)
    /\ length (fetched (trace x)) <= n
    /\ reconnects (trace x) <= n
    /\ (out x = Ret None <-> k = n).
Proof.
  induction n as [|n IH]; intros a s; cbv zeta.
  - exists 0. simpl. repeat split; auto.
  - simpl seq.
    pose proof (transfer_one_fetch (env a) num folder uid s) as Hf1.
    destruct (transfer_quiet (env a) num folder uid s) as [Hq1 Hq2].
    destruct (transfer (env a) num folder uid s) as [[[[]|e] s1] t1] eqn:Et; run_simpl.
    + rewrite (migrate_message_from_done env num folder uid retries a (seq (S a) n) s s1 t1 Et).
      run_simpl. exists 0. simpl. repeat split; try lia; try assumption; discriminate.
    + rewrite (migrate_message_from_handled env num folder uid retries a (seq (S a) n)
                 s e s1 t1 Et).
      cbv zeta.
      destruct (on_error_shape (env a) folder uid a retries e s1) as (Hh1 & Hh2 & Hh3).
      cbv zeta in Hh1, Hh2, Hh3.
      destruct (out (on_error (env a) folder uid a retries e s1)) as [[b|]|e'].
      * exists 0. run_simpl. rewrite fetched_app, reconnects_app, backoffs_app.
        rewrite Hh1, Hh3, Hq1, Hq2, !app_nil_r. simpl.
        repeat split; try lia; try assumption; discriminate.
      * destruct (IH (S a) (final (on_error (env a) folder uid a retries e s1)))
          as (k & K1 & K2 & K3 & K4 & K5).
        cbv zeta in K2, K3, K4, K5.
        exists (S k). run_simpl.
        rewrite !fetched_app, !reconnects_app, !backoffs_app.
        rewrite Hh1, Hh3, Hq1, Hq2, K2, !app_nil_r, ?length_app. simpl.
        repeat split; try lia.
        -- intros E. apply K5 in E. lia.
        -- intros E. apply K5. lia.
      * exists 0. run_simpl. rewrite fetched_app, reconnects_app, backoffs_app.
        rewrite Hh1, Hh3, Hq1, Hq2, !app_nil_r. simpl.
        repeat split; try lia; try assumption; discriminate.
Qed.

(** X16.  Whatever the servers answer, [migrate_message] fetches the
    message at most [retries] times and reconnects at most [retries]
    times, and its pauses are 1, 2, 4, ... seconds, one after each
    attempt that is retried: less than [2^retries] seconds in all (the
    second that each [reconnect] waits apart).  It returns [None],
    neither [True] nor [False], exactly when it paused after every one
    of the [retries] attempts. *)
Theorem migrate_message_bounded (env : nat -> AttemptEnv) (num folder uid : string)
    (retries : nat) (s : State) :
  let x := migrate_message env num folder uid retries s in
  exists k,
    k <= retries
    /\ backoffs (trace x) = map (Nat.pow 2) (seq 0 k)
    /\ length (fetched (trace x)) <= retries
    /\ reconnects (trace x) <= retries
    /\ list_sum (backoffs (trace x)) < 2 ^ retries
    /\ (out x = Ret None <-> k = retries).
Proof.
  cbv zeta. unfold migrate_message.
  destruct (migrate_message_from_bounded env num folder uid retries retries 0 s)
    as (k & K1 & K2 & K3 & K4 & K5).
  cbv zeta in K2, K3, K4, K5.
  exists k. repeat split; try assumption; try apply K5.
  rewrite K2. pose proof (sum_pow2 k 0) as P. simpl in P.
  assert (2 ^ k <= 2 ^ retries) by (apply Nat.pow_le_mono_r; lia).
  lia.
Qed.

End RetryFacts.

Lemma other_socket_error_is_final_witness :
  out (migrate_message Scenario2.timeout_always "7" "INBOX" "42" 3 Scenario.two_stored)
    = Ret (Some false)
  /\ fetched (trace (migrate_message Scenario2.timeout_always "7" "INBOX" "42" 3
                       Scenario.two_stored)) = ["7"].
Proof.
  destruct (other_socket_error_is_final Scenario2.timeout_always "7" "INBOX" "42" 3
              Scenario.two_stored (OSError None "timed out")) as (H1 & _ & H3 & _).
  - lia.
  - split; discriminate.
  - left. reflexivity.
  - reflexivity.
  - split; [exact H1|exact H3].
Defined.

Lemma plain_error_retries_without_reconnect_witness :
  backoffs (trace (migrate_message Scenario2.refused_always "7" "INBOX" "42" 3
                     Scenario.two_stored)) = [1; 2]
  /\ reconnects (trace (migrate_message Scenario2.refused_always "7" "INBOX" "42" 3
                          Scenario.two_stored)) = 0.
Proof.
  destruct (plain_error_retries_without_reconnect Scenario2.refused_always "7" "INBOX" "42" 3
              Scenario.two_stored) as (_ & _ & _ & H4 & H5).
  - lia.
  - split; discriminate.
  - intros i _. exists (Exception "command: APPEND => message too large").
    split; [right; exists ([], "third"); split; reflexivity|reflexivity].
  - split; [exact H5|exact H4].
Defined.

(* ===================================================================== *)
(** * [migrate_folder]: a second run, and a uid that cannot be read       *)
(* ===================================================================== *)

Section FolderFacts.
Import Obs2.

Lemma uid_fetched_app t1 t2 : uid_fetched (t1 ++ t2) = uid_fetched t1 ++ uid_fetched t2.
Proof.
  induction t1 as [|e t1 IH]; simpl; [reflexivity|].
  destruct e as [| x c r | | | |]; try exact IH.
  destruct c; try exact IH. simpl. now rewrite IH.
Qed.

Lemma migrate_folder_from_step env folder migrated i num rest s src dst u :
  source s = Some src -> dest s = Some dst ->
  me_uid (env i) = Ret u ->
  (mem u migrated = true \/ succeeds (me_attempts (env i) 0)) ->
  exists t,
    migrate_folder_from env folder migrated i (num :: rest) s
    = (let y := migrate_folder_from env folder migrated (S i) rest
                  (after_message folder u migrated s) in
       (out y, final y, (EvImap src (FETCH_UID num) None :: t) ++ trace y))
    /\ uid_fetched t = []
    /\ (if mem u migrated then fetched t = [] /\ appended t = []
        else fetched t = [num]).
Proof.
  intros Hs Hd Hu H. cbn [migrate_folder_from].
  rewrite (bind_ret_run (imap source (FETCH_UID num) (me_uid (env i))) _ s u s
             [EvImap src (FETCH_UID num) None]);
    [|unfold imap; rewrite Hs, Hu; reflexivity].
  cbv beta. unfold after_message.
  destruct (mem u migrated) eqn:M.
  - exists [EvLog INFO (SkippingAlreadyMigrated u folder)].
    rewrite (bind_ret_run (log INFO (SkippingAlreadyMigrated u folder)) _ s tt s
               [EvLog INFO (SkippingAlreadyMigrated u folder)] eq_refl).
    run_simpl. cbv zeta. repeat split.
  - destruct H as [H|[[[fl b] Hf] Ha]]; [discriminate|].
    pose proof (migrate_message_from_done (me_attempts (env i)) num folder u
                  default_retries 0 [1; 2] s _ _
                  (transfer_success _ num folder u s src dst fl b Hs Hd Hf Ha)) as Em.
    change (migrate_message_from (me_attempts (env i)) num folder u default_retries [0; 1; 2])
      with (migrate_message (me_attempts (env i)) num folder u default_retries) in Em.
    eexists.
    erewrite (bind_ret_run
               (success <- migrate_message (me_attempts (env i)) num folder u default_retries;;
                if negb (truthy success)
                then log ERROR (FailedAfterMultipleAttempts u folder)
                else ret tt) _ s tt);
      [|rewrite (bind_ret_run _ _ _ _ _ _ Em); reflexivity].
    run_simpl. cbv zeta. split; [reflexivity|]. split; reflexivity.
Qed.

Lemma migrate_folder_from_fine env folder migrated nums :
  forall i s,
  connected s ->
  (forall j, j < length nums -> exists u,
      me_uid (env (i + j)) = Ret u
      /\ (mem u migrated = true \/ succeeds (me_attempts (env (i + j)) 0))) ->
  let x := migrate_folder_from env folder migrated i nums s in
  out x = Ret tt
  /\ source (final x) = source s /\ dest (final x) = dest s
  /\ dest_user (final x) = dest_user s
  /\ uid_fetched (trace x) = nums
  /\ (forall m, In m (fetched (trace x)) -> In m nums)
  /\ (forall r, In r (db s) -> In r (db (final x)))
  /\ (forall j u, j < length nums -> me_uid (env (i + j)) = Ret u ->
        mem u migrated = true \/ In (mkRow folder u (dest_user s)) (db (final x)))
  /\ ((forall j u, j < length nums -> me_uid (env (i + j)) = Ret u ->
         mem u migrated = true) ->
      final x = s /\ fetched (trace x) = [] /\ appended (trace x) = []).
Proof.
  induction nums as [|num rest IH]; intros i s Hc H; cbv zeta.
  - simpl. repeat split; try tauto; intros; lia.
  - destruct (H 0 ltac:(simpl; lia)) as (u & Hu & Hm). rewrite Nat.add_0_r in Hu, Hm.
    destruct Hc as [Hs Hd].
    destruct (source s) as [src|] eqn:Es; [|now elim Hs].
    destruct (dest s) as [dst|] eqn:Ed; [|now elim Hd].
    destruct (migrate_folder_from_step env folder migrated i num rest s src dst u
                Es Ed Hu Hm) as (t & E & Tu & Tf).
    rewrite E. cbv zeta. run_simpl.
    set (s' := after_message folder u migrated s) in *.
    assert (S1 : source s' = source s /\ dest s' = dest s /\ dest_user s' = dest_user s).
    { unfold s', after_message. destruct (mem u migrated); repeat split. }
    destruct S1 as (S1 & S2 & S3).
    destruct (IH (S i) s') as (I1 & I2 & I3 & I4 & I5 & I6 & I7 & I8 & I9).
    { split; [rewrite S1, Es|rewrite S2, Ed]; discriminate. }
    { intros j Hj. replace (S i + j) with (i + S j) by lia. apply H. simpl. lia. }
    cbv zeta in I1, I2, I3, I4, I5, I6, I7, I8, I9.
    assert (Hdb : forall r, In r (db s) -> In r (db s')).
    { intros r Hr. unfold s', after_message, insert_ignore.
      destruct (mem u migrated); [exact Hr|]. simpl.
      destruct (existsb _ _); [exact Hr|]. apply in_or_app. now left. }
    split; [exact I1|].
    split; [now rewrite I2, S1, Es|].
    split; [now rewrite I3, S2, Ed|].
    split; [now rewrite I4, S3|].
    split; [simpl; now rewrite uid_fetched_app, Tu, I5|].
    split.
    { intros m. simpl. rewrite fetched_app. intros Hin. apply in_app_or in Hin.
      destruct Hin as [Hin|Hin]; [|right; now apply I6].
      destruct (mem u migrated); [destruct Tf as [Tf _]|]; rewrite Tf in Hin;
        simpl in Hin; tauto. }
    split; [intros r Hr; apply I7, Hdb, Hr|].
    split.
    { intros [|j] v Hj Hv.
      - rewrite Nat.add_0_r in Hv. assert (v = u) by congruence. subst v.
        destruct (mem u migrated) eqn:M; [now left|]. right. apply I7.
        unfold s', after_message. rewrite M. simpl.
        unfold insert_ignore.
        destruct (existsb _ _) eqn:Ex; [now apply existsb_row_In|].
        apply in_or_app. right. now left.
      - replace (i + S j) with (S i + j) in Hv by lia.
        destruct (I8 j v ltac:(simpl in Hj; lia) Hv) as [K|K]; [now left|].
        right. now rewrite <- S3. }
    intros Hall.
    assert (M : mem u migrated = true).
    { apply (Hall 0 u); [simpl; lia|now rewrite Nat.add_0_r]. }
    rewrite M in Tf. destruct Tf as [Tf Ta].
    destruct I9 as (J1 & J2 & J3).
    { intros j v Hj Hv. apply (Hall (S j) v); [simpl; lia|].
      now replace (i + S j) with (S i + j) by lia. }
    assert (Es' : s' = s) by (unfold s', after_message; now rewrite M).
    simpl. rewrite fetched_app, appended_app, Tf, Ta, J2, J3, J1, Es'.
    repeat split.
Qed.

Lemma migrate_folder_from_uid_raises env folder migrated l1 :
  forall i s n l2 e,
  connected s ->
  (forall j, j < length l1 -> exists u,
      me_uid (env (i + j)) = Ret u
      /\ (mem u migrated = true \/ succeeds (me_attempts (env (i + j)) 0))) ->
  me_uid (env (i + length l1)) = Raise e ->
  let x := migrate_folder_from env folder migrated i (l1 ++ n :: l2) s in
  out x = Raise e
  /\ uid_fetched (trace x) = l1 ++ [n]
  /\ (forall m, In m (fetched (trace x)) -> In m l1).
Proof.
  induction l1 as [|num rest IH]; intros i s n l2 e Hc H He; cbv zeta.
  - simpl in He. rewrite Nat.add_0_r in He. simpl app.
    destruct Hc as [Hs _]. destruct (source s) as [src|] eqn:Es; [|now elim Hs].
    assert (E : migrate_folder_from env folder migrated i (n :: l2) s
                = (Raise e, s, [EvImap src (FETCH_UID n) (Some e)])).
    { cbn [migrate_folder_from]. unfold bind at 1. unfold imap at 1.
      rewrite Es, He. reflexivity. }
    rewrite E. run_simpl. simpl. repeat split. tauto.
  - destruct (H 0 ltac:(simpl; lia)) as (u & Hu & Hm). rewrite Nat.add_0_r in Hu, Hm.
    destruct Hc as [Hs Hd].
    destruct (source s) as [src|] eqn:Es; [|now elim Hs].
    destruct (dest s) as [dst|] eqn:Ed; [|now elim Hd].
    simpl app.
    destruct (migrate_folder_from_step env folder migrated i num (rest ++ n :: l2) s src dst u
                Es Ed Hu Hm) as (t & E & Tu & Tf).
    rewrite E. cbv zeta. run_simpl.
    set (s' := after_message folder u migrated s) in *.
    assert (S1 : source s' = source s /\ dest s' = dest s).
    { unfold s', after_message. destruct (mem u migrated); repeat split. }
    destruct S1 as (S1 & S2).
    destruct (IH (S i) s' n l2 e) as (I1 & I2 & I3).
    { split; [rewrite S1, Es|rewrite S2, Ed]; discriminate. }
    { intros j Hj. replace (S i + j) with (i + S j) by lia. apply H. simpl. lia. }
    { replace (S i + length rest) with (i + length (num :: rest)) by (simpl; lia). exact He. }
    cbv zeta in I1, I2, I3.
    split; [exact I1|].
    split; [simpl; now rewrite uid_fetched_app, Tu, I2|].
    intros m. simpl. rewrite fetched_app. intros Hin. apply in_app_or in Hin.
    destruct Hin as [Hin|Hin]; [|right; now apply I3].
    destruct (mem u migrated); [destruct Tf as [Tf _]|]; rewrite Tf in Hin;
      simpl in Hin; tauto.
Qed.

Lemma migrate_folder_run fe folder nums s src dst :
  source s = Some src -> dest s = Some dst ->
  fe_select_src fe = None -> fe_search fe = Ret nums -> fe_select_dst fe = None ->
  migrate_folder fe folder s =
  (let y := migrate_folder_from (fe_messages fe) folder
              (sql_select_uid folder (dest_user s) (db s)) 0 nums s in
   let pre := [EvImap src (SELECT folder) None; EvImap src SEARCH_ALL None;
               EvLog INFO (MigratingFolder folder (length nums));
               EvImap dst (SELECT folder) None] in
   match out y with
   | Ret _ => (Ret true, final y, pre ++ trace y)
   | Raise e =>
       (Ret false, final y,
        (pre ++ trace y) ++ [EvLog ERROR (ErrorMigratingFolder folder e)])
   end).
Proof.
  intros Hs Hd Hss Hsr Hsd. cbv zeta.
  unfold migrate_folder, try_except.
  unfold bind at 1. unfold imap at 1. rewrite Hs, Hss. simpl res_of. cbv iota beta.
  unfold bind at 1. unfold imap at 1. rewrite Hs, Hsr. cbv iota beta.
  unfold bind at 1. unfold get_migrated_uids at 1. cbv iota beta.
  unfold bind at 1. unfold log at 1, emit at 1. cbv iota beta.
  unfold bind at 1. unfold imap at 1. rewrite Hd, Hsd. simpl res_of. cbv iota beta.
  unfold bind at 1.
  destruct (migrate_folder_from (fe_messages fe) folder
              (sql_select_uid folder (dest_user s) (db s)) 0 nums s) as [[[[]|e] s1] t1];
    run_simpl; unfold ret, log, emit, bind; simpl.
  - now rewrite app_nil_r.
  - reflexivity.
Qed.

Lemma stored_or_fine_mem folder s me :
  stored_or_fine folder s me ->
  exists u, me_uid me = Ret u
            /\ (mem u (sql_select_uid folder (dest_user s) (db s)) = true
                \/ succeeds (me_attempts me 0)).
Proof.
  intros (u & Hu & [H|H]); exists u; (split; [exact Hu|]); [left|now right].
  now apply mem_In, sql_select_uid_In.
Qed.

(** X17.  A folder can be migrated again without a message being
    copied twice.  After a run of [migrate_folder] in which every
    message was in the store already or went through at its first
    attempt, a second run on the same messages asks for every uid and
    then skips every message: it fetches no content, appends nothing,
    and leaves the sessions and the table as the first run left them,
    whatever the servers would have answered to a fetch or an append. *)
Theorem migrate_folder_rerun_transfers_nothing (fe fe' : FolderEnv) (folder : string)
    (nums : list string) (s : State) :
  connected s ->
  fe_select_src fe = None -> fe_search fe = Ret nums -> fe_select_dst fe = None ->
  (forall j, j < length nums -> stored_or_fine folder s (fe_messages fe j)) ->
  fe_select_src fe' = None -> fe_search fe' = Ret nums -> fe_select_dst fe' = None ->
  (forall j, j < length nums -> me_uid (fe_messages fe' j) = me_uid (fe_messages fe j)) ->
  let x := migrate_folder fe folder s in
  let y := migrate_folder fe' folder (final x) in
  out x = Ret true
  /\ out y = Ret true
  /\ final y = final x
  /\ uid_fetched (trace y) = nums
  /\ fetched (trace y) = []
  /\ appended (trace y) = [].
Proof.
  intros Hc Hss Hsr Hsd Hm Hss' Hsr' Hsd' Hu x y. subst x y.
  pose proof Hc as [Hs Hd].
  destruct (source s) as [src|] eqn:Es; [|now elim Hs].
  destruct (dest s) as [dst|] eqn:Ed; [|now elim Hd].
  rewrite (migrate_folder_run fe folder nums s src dst Es Ed Hss Hsr Hsd). cbv zeta.
  destruct (migrate_folder_from_fine (fe_messages fe) folder
              (sql_select_uid folder (dest_user s) (db s)) nums 0 s)
    as (I1 & I2 & I3 & I4 & _ & _ & I7 & I8 & _).
  { exact Hc. }
  { intros j Hj. apply stored_or_fine_mem. simpl. now apply Hm. }
  cbv zeta in I1, I2, I3, I4, I7, I8. rewrite I1. run_simpl.
  set (s1 := final (migrate_folder_from (fe_messages fe) folder
                      (sql_select_uid folder (dest_user s) (db s)) 0 nums s)) in *.
  rewrite Es in I2. rewrite Ed in I3.
  rewrite (migrate_folder_run fe' folder nums s1 src dst I2 I3 Hss' Hsr' Hsd'). cbv zeta.
  assert (Hall : forall j u, j < length nums -> me_uid (fe_messages fe' (0 + j)) = Ret u ->
                 mem u (sql_select_uid folder (dest_user s1) (db s1)) = true).
  { intros j u Hj Hv. simpl in Hv. rewrite (Hu j Hj) in Hv.
    apply mem_In, sql_select_uid_In. rewrite I4.
    destruct (I8 j u Hj Hv) as [K|K]; [|exact K].
    apply I7. now apply sql_select_uid_In, mem_In. }
  destruct (migrate_folder_from_fine (fe_messages fe') folder
              (sql_select_uid folder (dest_user s1) (db s1)) nums 0 s1)
    as (J1 & _ & _ & _ & J5 & _ & _ & _ & J9).
  { unfold connected. rewrite I2, I3. split; discriminate. }
  { intros j Hj. destruct (Hm j Hj) as (u & Hv & _).
    exists u. simpl. rewrite (Hu j Hj). split; [exact Hv|]. left.
    apply (Hall j u Hj). simpl. now rewrite (Hu j Hj). }
  cbv zeta in J1, J5, J9. destruct (J9 Hall) as (K1 & K2 & K3).
  rewrite J1. run_simpl.
  rewrite uid_fetched_app, fetched_app, appended_app, J5, K2, K3.
  repeat split. exact K1.
Qed.

(** X18.  A uid that cannot be read ends the folder.  When the uid
    fetch of a message raises (the call, or taking its answer apart),
    after messages that were stored already or went through at once,
    the exception leaves the loop: [migrate_folder] logs it and returns
    [False], and the messages after that one are never looked at, no
    uid and no content of them being fetched. *)
Theorem uid_fetch_failure_abandons_folder (fe : FolderEnv) (folder : string)
    (l1 l2 : list string) (n : string) (e : exn) (s : State) :
  connected s ->
  fe_select_src fe = None -> fe_search fe = Ret (l1 ++ n :: l2) ->
  fe_select_dst fe = None ->
  (forall j, j < length l1 -> stored_or_fine folder s (fe_messages fe j)) ->
  me_uid (fe_messages fe (length l1)) = Raise e ->
  let x := migrate_folder fe folder s in
  out x = Ret false
  /\ uid_fetched (trace x) = l1 ++ [n]
  /\ (forall m, In m (fetched (trace x)) -> In m l1)
  /\ exists t, trace x = t ++ [EvLog ERROR (ErrorMigratingFolder folder e)].
Proof.
  intros Hc Hss Hsr Hsd Hm He x. subst x.
  pose proof Hc as [Hs Hd].
  destruct (source s) as [src|] eqn:Es; [|now elim Hs].
  destruct (dest s) as [dst|] eqn:Ed; [|now elim Hd].
  rewrite (migrate_folder_run fe folder (l1 ++ n :: l2) s src dst Es Ed Hss Hsr Hsd).
  cbv zeta.
  destruct (migrate_folder_from_uid_raises (fe_messages fe) folder
              (sql_select_uid folder (dest_user s) (db s)) l1 0 s n l2 e)
    as (I1 & I2 & I3).
  { exact Hc. }
  { intros j Hj. apply stored_or_fine_mem. simpl. now apply Hm. }
  { exact He. }
  cbv zeta in I1, I2, I3. rewrite I1. run_simpl.
  split; [reflexivity|].
  split; [rewrite !uid_fetched_app, I2; simpl; now rewrite app_nil_r|].
  split; [|eexists; reflexivity].
  intros m. rewrite !fetched_app. simpl. rewrite app_nil_r. apply I3.
Qed.

End FolderFacts.

Lemma migrate_folder_rerun_transfers_nothing_witness :
  appended (trace (migrate_folder Scenario.inbox_fine "INBOX"
                     (final (migrate_folder Scenario.inbox_fine "INBOX"
                               Scenario.two_stored)))) = [].
Proof.
  refine (proj2 (proj2 (proj2 (proj2 (proj2
    (migrate_folder_rerun_transfers_nothing Scenario.inbox_fine Scenario.inbox_fine "INBOX"
       ["1"; "2"; "3"] Scenario.two_stored _ eq_refl eq_refl eq_refl _
       eq_refl eq_refl eq_refl _)))))).
  - split; discriminate.
  - intros [|[|[|j]]] Hj; try (simpl in Hj; lia).
    + exists "1". split; [reflexivity|]. left. simpl. auto.
    + exists "2". split; [reflexivity|]. left. simpl. auto.
    + exists "3". split; [reflexivity|]. right. split; [now exists (["\Seen"], "third")|reflexivity].
  - reflexivity.
Defined.

Lemma uid_fetch_failure_abandons_folder_witness :
  out (migrate_folder Scenario2.second_uid_raises "INBOX" Scenario.two_stored) = Ret false
  /\ uid_fetched (trace (migrate_folder Scenario2.second_uid_raises "INBOX"
                           Scenario.two_stored)) = ["1"; "2"].
Proof.
  destruct (uid_fetch_failure_abandons_folder Scenario2.second_uid_raises "INBOX"
              ["1"] ["3"] "2" (Exception "command: FETCH => socket error: EOF")
              Scenario.two_stored) as (H1 & H2 & _).
  - split; discriminate.
  - reflexivity.
  - reflexivity.
  - reflexivity.
  - intros [|j] Hj; [|simpl in Hj; lia].
    exists "9". split; [reflexivity|]. right. split; [now exists ([], "other")|reflexivity].
  - reflexivity.
  - split; [exact H1|exact H2].
Defined.

(* ===================================================================== *)
(** * The commands a run sends                                            *)
(* ===================================================================== *)

Section Emits.
Import Obs2.

Variable I : State -> Prop.
Variable Q : Event -> Prop.
Variables ok_src ok_dst : Command -> Prop.

Hypothesis I_stable : stable I.
Hypothesis I_insert : stable_insert I.

Hypothesis Q_open : forall sd r, Q (EvOpen sd r).
Hypothesis Q_sleep : forall n, Q (EvSleep n).
Hypothesis Q_insert : forall r, Q (EvInsert r).
Hypothesis Q_log : forall lvl msg, Q (EvLog lvl msg).
Hypothesis Q_reconnect : forall f inner r, Forall Q inner -> Q (EvReconnect f inner r).
Hypothesis Q_source :
  forall s x c r, I s -> source s = Some x -> ok_src c -> Q (EvImap x c r).
Hypothesis Q_dest :
  forall s x c r, I s -> dest s = Some x -> ok_dst c -> Q (EvImap x c r).

Hypothesis ok_session :
  ok_src LOGIN /\ ok_src LOGOUT /\ ok_dst LOGIN /\ ok_dst LOGOUT
  /\ forall f, ok_src (SELECT f).
Hypothesis ok_message :
  (forall n, ok_src (FETCH_RFC822_FLAGS n)) /\ (forall f fl b, ok_dst (APPEND f fl b)).

Lemma emits_ret {A : Type} (a : A) : emits I Q (ret a).
Proof. intros s _. constructor. Qed.

Lemma emits_log lvl msg : emits I Q (log lvl msg).
Proof. intros s _. repeat constructor. apply Q_log. Qed.

Lemma emits_sleep n : emits I Q (sleep n).
Proof. intros s _. repeat constructor. apply Q_sleep. Qed.

Lemma emits_get_migrated_uids f : emits I Q (get_migrated_uids f).
Proof. intros s _. constructor. Qed.

Lemma emits_store_migrated_uid f u : emits I Q (store_migrated_uid f u).
Proof.
  intros s _. unfold store_migrated_uid, sql_insert.
  destruct (existsb _ _); simpl; repeat constructor; apply Q_insert.
Qed.

Lemma emits_imap_source {A : Type} c (r : Res A) : ok_src c -> emits I Q (imap source c r).
Proof.
  intros Hc s Hs. unfold imap. destruct (source s) as [x|] eqn:E; simpl; [|constructor].
  repeat constructor. now apply (Q_source s).
Qed.

Lemma emits_imap_dest {A : Type} c (r : Res A) : ok_dst c -> emits I Q (imap dest c r).
Proof.
  intros Hc s Hs. unfold imap. destruct (dest s) as [x|] eqn:E; simpl; [|constructor].
  repeat constructor. now apply (Q_dest s).
Qed.

Lemma emits_logout_source r : emits I Q (logout_if_set source r).
Proof.
  intros s Hs. unfold logout_if_set. destruct (source s) eqn:E; [|constructor].
  apply emits_imap_source; [apply ok_session|exact Hs].
Qed.

Lemma emits_logout_dest r : emits I Q (logout_if_set dest r).
Proof.
  intros s Hs. unfold logout_if_set. destruct (dest s) eqn:E; [|constructor].
  apply emits_imap_dest; [apply ok_session|exact Hs].
Qed.

Lemma emits_bind {A B : Type} (m : M A) (k : A -> M B) :
  emits I Q m -> preserves I m -> (forall a, emits I Q (k a)) -> emits I Q (bind m k).
Proof.
  intros Hm Pm Hk s Hs. specialize (Hm s Hs). specialize (Pm s Hs). unfold bind.
  destruct (m s) as [[[a|e] s1] t1]; run_simpl; [|exact Hm].
  specialize (Hk a s1 Pm). destruct (k a s1) as [[r s2] t2]. run_simpl.
  apply Forall_app. now split.
Qed.

Lemma emits_try_except {A : Type} (m : M A) (h : exn -> M A) :
  emits I Q m -> preserves I m -> (forall e, emits I Q (h e)) ->
  emits I Q (try_except m h).
Proof.
  intros Hm Pm Hh s Hs. specialize (Hm s Hs). specialize (Pm s Hs). unfold try_except.
  destruct (m s) as [[[a|e] s1] t1]; run_simpl; [exact Hm|].
  specialize (Hh e s1 Pm). destruct (h e s1) as [[r s2] t2]. run_simpl.
  apply Forall_app. now split.
Qed.

Lemma emits_try_finally {A : Type} (m : M A) (f : M unit) :
  emits I Q m -> preserves I m -> emits I Q f -> emits I Q (try_finally m f).
Proof.
  intros Hm Pm Hf s Hs. specialize (Hm s Hs). specialize (Pm s Hs). unfold try_finally.
  destruct (m s) as [[r s1] t1]. run_simpl.
  specialize (Hf s1 Pm). destruct (f s1) as [[[[]|e] s2] t2]; run_simpl;
    apply Forall_app; now split.
Qed.

Lemma emits_connect ce : emits I Q (connect ce).
Proof.
  intros s Hs. destruct I_stable as (Ssrc & Sdst & Ssid).
  destruct ok_session as (L1 & _ & L2 & _).
  assert (Q1 : forall r, Q (EvImap (mkSession Source (next_sid s)) LOGIN r)).
  { intros r.
    apply (Q_source (set_source (Some (mkSession Source (next_sid s))) (bump_sid s)));
      [apply Ssrc, Ssid, Hs|reflexivity|exact L1]. }
  assert (Q2 : forall r, Q (EvImap (mkSession Dest (S (next_sid s))) LOGIN r)).
  { intros r.
    apply (Q_dest (set_dest (Some (mkSession Dest (S (next_sid s))))
                     (bump_sid (set_source (Some (mkSession Source (next_sid s)))
                                  (bump_sid s)))));
      [apply Sdst, Ssid, Ssrc, Ssid, Hs|reflexivity|exact L2]. }
  unfold connect, try_except, bind. unfold_prims.
  destruct ce as [so sl d_o dl]. simpl.
  destruct so; simpl; [repeat constructor; auto|].
  destruct sl; simpl; [repeat constructor; auto|].
  destruct d_o; simpl; [repeat constructor; auto|].
  destruct dl; simpl; repeat constructor; auto.
Qed.

Lemma emits_reconnect re folder : emits I Q (reconnect re folder).
Proof.
  unfold reconnect.
  apply emits_bind.
  - apply emits_try_except.
    + apply emits_bind; [apply emits_logout_source|apply preserves_logout_if_set|].
      intros _. apply emits_logout_dest.
    + apply preserves_bind; [apply preserves_logout_if_set|].
      intros _. apply preserves_logout_if_set.
    + intros _. apply emits_ret.
  - apply preserves_try_except.
    + apply preserves_bind; [apply preserves_logout_if_set|].
      intros _. apply preserves_logout_if_set.
    + intros _. apply preserves_ret.
  - intros _. apply emits_bind; [apply emits_sleep|apply preserves_sleep|].
    intros _. apply emits_bind; [apply emits_connect|now apply preserves_connect|].
    intros ok. destruct (negb ok); [apply emits_ret|].
    destruct folder as [[|c f]|]; try apply emits_ret.
    apply emits_bind; [apply emits_imap_source, ok_session|apply preserves_imap|].
    intros _. apply emits_bind; [apply emits_log|apply preserves_log|].
    intros _. apply emits_ret.
Qed.

Lemma emits_call_reconnect re folder : emits I Q (call_reconnect re folder).
Proof.
  intros s Hs. pose proof (emits_reconnect re (Some folder) s Hs) as H.
  unfold call_reconnect.
  destruct (reconnect re (Some folder) s) as [[[b|e] s1] t]; run_simpl;
    repeat constructor; now apply Q_reconnect.
Qed.

Lemma emits_on_error ae folder uid attempt retries e :
  emits I Q (on_error ae folder uid attempt retries e).
Proof.
  unfold on_error. destruct e as [errno msg|msg].
  - destruct (match errno with Some n => Z.eqb n 54 | None => false end).
    + apply emits_bind; [apply emits_log|apply preserves_log|]. intros _.
      apply emits_bind; [apply emits_call_reconnect|now apply preserves_call_reconnect|].
      intros _. apply emits_bind; [apply emits_sleep|apply preserves_sleep|].
      intros _. apply emits_ret.
    + apply emits_bind; [apply emits_log|apply preserves_log|]. intros _. apply emits_ret.
  - apply emits_bind; [apply emits_log|apply preserves_log|]. intros _.
    destruct (attempt <? retries - 1).
    + apply emits_bind.
      * destruct (_ || _); [|apply emits_ret].
        apply emits_bind; [apply emits_log|apply preserves_log|]. intros _.
        apply emits_call_reconnect.
      * destruct (_ || _); [|apply preserves_ret].
        apply preserves_bind; [apply preserves_log|]. intros _.
        now apply preserves_call_reconnect.
      * intros _. apply emits_bind; [apply emits_sleep|apply preserves_sleep|].
        intros _. apply emits_ret.
    + apply emits_bind; [apply emits_log|apply preserves_log|]. intros _. apply emits_ret.
Qed.

Lemma emits_transfer ae num folder uid : emits I Q (transfer ae num folder uid).
Proof.
  unfold transfer.
  apply emits_bind; [apply emits_imap_source, ok_message|apply preserves_imap|].
  intros [fl b].
  apply emits_bind; [apply emits_imap_dest, ok_message|apply preserves_imap|].
  intros _.
  apply emits_bind; [apply emits_store_migrated_uid|now apply preserves_store_migrated_uid|].
  intros _. apply emits_log.
Qed.

Lemma emits_migrate_message_from env num folder uid retries attempts :
  emits I Q (migrate_message_from env num folder uid retries attempts).
Proof.
  induction attempts as [|a rest IH]; simpl; [apply emits_ret|].
  apply emits_bind.
  - apply emits_try_except.
    + apply emits_bind; [apply emits_transfer|now apply preserves_transfer|].
      intros _. apply emits_ret.
    + apply preserves_bind; [now apply preserves_transfer|]. intros _. apply preserves_ret.
    + intros e. apply emits_on_error.
  - apply preserves_try_except.
    + apply preserves_bind; [now apply preserves_transfer|]. intros _. apply preserves_ret.
    + intros e. now apply preserves_on_error.
  - intros [b|]; [apply emits_ret|exact IH].
Qed.

Lemma emits_migrate_folder_from env folder migrated message_nums :
  (forall n, ok_src (FETCH_UID n)) ->
  forall i, emits I Q (migrate_folder_from env folder migrated i message_nums).
Proof.
  intros Hu. induction message_nums as [|num rest IH]; intros i; simpl; [apply emits_ret|].
  apply emits_bind; [now apply emits_imap_source|apply preserves_imap|].
  intros uid. apply emits_bind.
  - destruct (mem uid migrated); [apply emits_log|].
    apply emits_bind; [apply emits_migrate_message_from|now apply preserves_migrate_message|].
    intros success. destruct (negb (truthy success)); [apply emits_log|apply emits_ret].
  - destruct (mem uid migrated); [apply preserves_log|].
    apply preserves_bind; [now apply preserves_migrate_message|].
    intros success. destruct (negb (truthy success)); [apply preserves_log|apply preserves_ret].
  - intros _. apply IH.
Qed.

Lemma emits_migrate_folder fe folder :
  (forall n, ok_src (FETCH_UID n)) -> ok_src SEARCH_ALL -> (forall f, ok_dst (SELECT f)) ->
  emits I Q (migrate_folder fe folder).
Proof.
  intros Hu Hsearch Hsel. unfold migrate_folder.
  apply emits_try_except.
  - apply emits_bind; [apply emits_imap_source, ok_session|apply preserves_imap|].
    intros _. apply emits_bind; [now apply emits_imap_source|apply preserves_imap|].
    intros nums.
    apply emits_bind; [apply emits_get_migrated_uids|apply preserves_get_migrated_uids|].
    intros migrated. apply emits_bind; [apply emits_log|apply preserves_log|].
    intros _. apply emits_bind; [now apply emits_imap_dest|apply preserves_imap|].
    intros _.
    apply emits_bind;
      [now apply emits_migrate_folder_from|now apply preserves_migrate_folder_from|].
    intros _. apply emits_ret.
  - apply preserves_bind; [apply preserves_imap|]. intros _.
    apply preserves_bind; [apply preserves_imap|]. intros nums.
    apply preserves_bind; [apply preserves_get_migrated_uids|]. intros migrated.
    apply preserves_bind; [apply preserves_log|]. intros _.
    apply preserves_bind; [apply preserves_imap|]. intros _.
    apply preserves_bind; [now apply preserves_migrate_folder_from|].
    intros _. apply preserves_ret.
  - intros e. apply emits_bind; [apply emits_log|apply preserves_log|].
    intros _. apply emits_ret.
Qed.

Lemma emits_create_folder r folder :
  ok_dst (CREATE folder) -> emits I Q (create_folder r folder).
Proof.
  intros Hc. unfold create_folder. apply emits_try_except.
  - apply emits_bind; [now apply emits_imap_dest|apply preserves_imap|].
    intros _. apply emits_log.
  - apply preserves_bind; [apply preserves_imap|]. intros _. apply preserves_log.
  - intros _. apply emits_log.
Qed.

Lemma emits_migrate_all env :
  (forall n, ok_src (FETCH_UID n)) -> ok_src SEARCH_ALL -> (forall f, ok_dst (SELECT f)) ->
  (forall f, ok_dst (CREATE f)) -> ok_src LIST ->
  emits I Q (migrate_all env).
Proof.
  intros Hu Hsearch Hsel Hcr Hlist. unfold migrate_all.
  assert (Hloop : forall folders i, emits I Q (migrate_all_from (re_folders env) i folders)).
  { induction folders as [|f rest IH]; intros i; simpl; [apply emits_ret|].
    apply emits_bind; [now apply emits_create_folder|now apply preserves_create_folder|].
    intros _.
    apply emits_bind; [now apply emits_migrate_folder|now apply preserves_migrate_folder|].
    intros _. apply IH. }
  apply emits_bind; [apply emits_connect|now apply preserves_connect|].
  intros ok. destruct (negb ok); [apply emits_ret|].
  apply emits_try_finally.
  - unfold get_folders.
    apply emits_bind; [now apply emits_imap_source|apply preserves_imap|].
    intros folders. apply emits_bind; [apply Hloop|now apply preserves_migrate_all_from|].
    intros _. apply emits_bind; [apply emits_log|apply preserves_log|].
    intros _. apply emits_ret.
  - unfold get_folders. apply preserves_bind; [apply preserves_imap|].
    intros folders. apply preserves_bind; [now apply preserves_migrate_all_from|].
    intros _. apply preserves_bind; [apply preserves_log|]. intros _. apply preserves_ret.
  - apply emits_bind; [apply emits_logout_source|apply preserves_logout_if_set|].
    intros _. apply emits_logout_dest.
Qed.

End Emits.

Section CommandFacts.
Import Obs2.

Lemma created_app t1 t2 : created (t1 ++ t2) = created t1 ++ created t2.
Proof.
  induction t1 as [|e t1 IH]; simpl; [reflexivity|].
  destruct e as [| x c r | | | |]; try exact IH.
  destruct c; try exact IH. simpl. now rewrite IH.
Qed.

Lemma created_no_create t : Forall no_create t -> created t = [].
Proof.
  induction 1 as [|e t He _ IH]; simpl; [reflexivity|].
  destruct e as [| x c r | | | |]; try exact IH.
  destruct c; try exact IH. contradiction.
Qed.

Lemma migrate_folder_no_create fe folder s :
  created (trace (migrate_folder fe folder s)) = [].
Proof.
  apply created_no_create.
  apply (emits_migrate_folder (fun _ => True) no_create
           (fun c => match c with CREATE _ => False | _ => True end)
           (fun c => match c with CREATE _ => False | _ => True end));
    try (unfold stable, stable_insert; now auto); try (intros; exact Logic.I);
    try (repeat split; intros; exact Logic.I).
Qed.

Lemma create_folder_run r folder s dst :
  dest s = Some dst ->
  final (create_folder r folder s) = s
  /\ created (trace (create_folder r folder s)) = [folder].
Proof.
  intros Hd. unfold create_folder, try_except, bind, imap, log, emit.
  rewrite Hd. destruct r; simpl; split; reflexivity.
Qed.

(** X19.  Every folder of the listing gets its turn.  The loop of
    [migrate_all] calls [create] on the destination once for every
    listed folder, in the order of the listing, and comes to its end
    without raising, whatever the servers answer inside the folders:
    no failure of a [create], [select], [search], [fetch], [append] or
    [reconnect] in one folder keeps the folders after it from being
    created, and [migrate_folder] itself never calls [create]. *)
Theorem every_listed_folder_is_created (env : nat -> FolderEnv) (folders : list string)
    (i : nat) (s : State) :
  connected s ->
  let x := migrate_all_from env i folders s in
  out x = Ret tt
  /\ created (trace x) = folders
  /\ connected (final x).
Proof.
  revert i s. induction folders as [|f rest IH]; intros i s Hc; cbv zeta.
  - simpl. repeat split; exact Hc || apply Hc.
  - cbn [migrate_all_from].
    pose proof Hc as [_ Hd]. destruct (dest s) as [dst|] eqn:Ed; [|now elim Hd].
    destruct (create_folder_run (fe_create (env i)) f s dst Ed) as [C1 C2].
    rewrite bind_run, create_folder_returns, C1.
    destruct (migrate_folder_returns (env i) f s) as [b Hb].
    rewrite bind_run, Hb. run_simpl.
    assert (Hc' : connected (final (migrate_folder (env i) f s))).
    { apply (preserves_migrate_folder connected); try apply stable_connected. exact Hc. }
    destruct (IH (S i) _ Hc') as (I1 & I2 & I3). cbv zeta in I1, I2, I3.
    split; [exact I1|]. split; [|exact I3].
    rewrite !created_app, C2, migrate_folder_no_create, I2. reflexivity.
Qed.

Lemma well_directed_Forall t :
  Forall (fun e => well_directed e = true) t -> forallb well_directed t = true.
Proof.
  intros H. apply forallb_forall. now apply Forall_forall.
Qed.

(** X20.  Mail flows one way.  In a whole run of [migrate_all], the
    calls of [reconnect] included, no [create] and no [append] is ever
    sent on a session opened to the source server, and no [list],
    [search] or [fetch] on a session opened to the destination server:
    the source is only read from, and the destination only written to.
    This holds from every state in which each attribute holds a session
    of its own side, the state of a new migrator for one. *)
Theorem source_is_never_written (env : RunEnv) (s : State) :
  sides_ok s ->
  forallb well_directed (trace (migrate_all env s)) = true.
Proof.
  intros Hs. apply well_directed_Forall.
  apply (emits_migrate_all sides_ok (fun e => well_directed e = true)
           (fun c => writes c = false) (fun c => reads c = false));
    try apply stable_sides_ok; try reflexivity; try (repeat split; reflexivity);
    try exact Hs.
  - intros f inner r H. simpl. now apply well_directed_Forall.
  - intros s0 x c r [H _] Hx Hc. simpl. rewrite (H x Hx). now rewrite Hc.
  - intros s0 x c r [_ H] Hx Hc. simpl. rewrite (H x Hx). now rewrite Hc.
Qed.

End CommandFacts.

Lemma every_listed_folder_is_created_witness :
  Obs2.created (trace (migrate_all_from
                         (fun i => match i with
                                   | 0 => Scenario2.second_uid_raises
                                   | _ => Scenario.inbox_fine
                                   end) 0 ["INBOX"; "Sent"] Scenario.two_stored))
  = ["INBOX"; "Sent"].
Proof.
  apply (every_listed_folder_is_created
           (fun i => match i with
                     | 0 => Scenario2.second_uid_raises
                     | _ => Scenario.inbox_fine
                     end) ["INBOX"; "Sent"] 0 Scenario.two_stored).
  split; discriminate.
Defined.

Lemma source_is_never_written_witness :
  forallb Obs2.well_directed (trace (migrate_all Scenario.run_fine Scenario.fresh)) = true.
Proof.
  apply (source_is_never_written Scenario.run_fine Scenario.fresh).
  split; intros x H; discriminate H.
Defined.

(* ===================================================================== *)
(** * The store across calls, accounts and the two programs               *)
(* ===================================================================== *)

Section StoreFacts2.
Import Obs2 ClearUids.

Lemma sql_select_uid_app f d t1 t2 :
  sql_select_uid f d (t1 ++ t2) = sql_select_uid f d t1 ++ sql_select_uid f d t2.
Proof. unfold sql_select_uid. now rewrite filter_app, map_app. Qed.

(** X21.  What is stored is found, and only where it belongs.  After
    [store_migrated_uid folder uid], [get_migrated_uids] yields, for
    every folder, what it yielded before and, for [folder], [uid] as
    well; and a migrator for another destination account, reading the
    same table, is answered as before the insert, for every folder:
    the store tells the accounts apart. *)
Theorem stored_uid_is_found_for_its_account (folder uid : string) (s : State) :
  let s' := final (store_migrated_uid folder uid s) in
  (forall f v, In v (lookup f s') <-> In v (lookup f s) \/ (v = uid /\ f = folder))
  /\ mem uid (lookup folder s') = true
  /\ (forall s2 f, dest_user s2 <> dest_user s ->
        lookup f (set_db (db s') s2) = lookup f (set_db (db s) s2)).
Proof.
  cbv zeta. rewrite store_migrated_uid_run. run_simpl.
  unfold lookup, get_migrated_uids. run_simpl. simpl.
  assert (H : forall f v,
    In v (sql_select_uid f (dest_user s)
            (insert_ignore (mkRow folder uid (dest_user s)) (db s)))
    <-> In v (sql_select_uid f (dest_user s) (db s)) \/ v = uid /\ f = folder).
  { intros f v. rewrite sql_select_uid_insert. tauto. }
  split; [exact H|]. split.
  - apply mem_In, H. now right.
  - intros s2 f Hd. unfold insert_ignore.
    destruct (existsb _ _); [reflexivity|].
    rewrite sql_select_uid_app. unfold sql_select_uid at 2. simpl.
    destruct (String.eqb_spec (dest_user s) (dest_user s2)) as [E|E];
      [now elim Hd|].
    rewrite Bool.andb_false_r. simpl. now rewrite app_nil_r.
Qed.

Lemma sql_count_deleted email t : sql_count_dest email (sql_delete_dest email t) = 0.
Proof.
  unfold sql_count_dest, sql_delete_dest.
  now rewrite (filter_negb_none (fun r => String.eqb (dest_email r) email)).
Qed.

Lemma sql_select_deleted email t f d :
  sql_select_uid f d (sql_delete_dest email t)
  = if String.eqb d email then [] else sql_select_uid f d t.
Proof.
  unfold sql_select_uid, sql_delete_dest.
  induction t as [|r t IH]; simpl; [now destruct (String.eqb d email)|].
  destruct (String.eqb_spec (dest_email r) email) as [E|E]; simpl.
  - rewrite IH. destruct (String.eqb_spec d email) as [E'|E']; [reflexivity|].
    destruct (String.eqb_spec (dest_email r) d) as [E2|E2]; [congruence|].
    now rewrite Bool.andb_false_r.
  - destruct (String.eqb (folder r) f && String.eqb (dest_email r) d) eqn:B; simpl;
      rewrite IH; [|reflexivity].
    apply andb_true_iff in B as [_ B]. apply String.eqb_eq in B.
    destruct (String.eqb_spec d email) as [E'|E']; [congruence|reflexivity].
Qed.

Lemma delete_rows_table email t : fst (delete_rows email t) = sql_delete_dest email t.
Proof.
  unfold delete_rows, sql_delete_dest, sql_count_dest.
  destruct (Nat.ltb_spec 0 (length (filter (fun r => String.eqb (dest_email r) email) t)))
    as [H|H]; simpl; [reflexivity|].
  symmetry. apply filter_none_length. lia.
Qed.

(** X22.  [delete_rows] and the migrator, together.  After [delete_rows
    email] a migrator for [email] finds no uid in any folder, so that
    its next run skips nothing, and a migrator for another account
    finds what it found before.  The count that [delete_rows] logs
    after a deletion is always 0, and it logs a deletion exactly when
    the table held a row for [email]; a second call changes nothing and
    logs that no rows were found. *)
Theorem delete_rows_resets_one_account (email : string) (t : Table) (s : State) :
  let t1 := fst (delete_rows email t) in
  (dest_user s = email -> forall f, lookup f (set_db t1 s) = [])
  /\ (dest_user s <> email -> forall f, lookup f (set_db t1 s) = lookup f (set_db t s))
  /\ snd (delete_rows email t)
     = (if existsb (fun r => String.eqb (dest_email r) email) t
        then [RowsBefore email (sql_count_dest email t); DeletedSuccessfully email;
              RowsAfter email 0]
        else [RowsBefore email 0; NoRowsFound email])
  /\ delete_rows email t1 = (t1, [RowsBefore email 0; NoRowsFound email]).
Proof.
  cbv zeta. rewrite delete_rows_table.
  unfold lookup, get_migrated_uids. run_simpl. simpl.
  split; [|split; [|split]].
  - intros E f. rewrite sql_select_deleted, E. now rewrite String.eqb_refl.
  - intros E f. rewrite sql_select_deleted.
    destruct (String.eqb_spec (dest_user s) email); [contradiction|reflexivity].
  - unfold delete_rows. rewrite sql_count_deleted.
    assert (E : existsb (fun r => String.eqb (dest_email r) email) t
                = (0 <? sql_count_dest email t)).
    { unfold sql_count_dest. induction t as [|r t IH]; simpl; [reflexivity|].
      destruct (String.eqb (dest_email r) email); simpl; [reflexivity|exact IH]. }
    rewrite E. destruct (Nat.ltb_spec 0 (sql_count_dest email t)) as [H|H]; simpl;
      [reflexivity|].
    now replace (sql_count_dest email t) with 0 by lia.
  - unfold delete_rows. rewrite sql_count_deleted. reflexivity.
Qed.

Variable P : State -> Prop.
Hypothesis P_stable : stable P.
Hypothesis P_store : stable_store P.

Lemma keeps_store_migrated_uid folder uid : preserves P (store_migrated_uid folder uid).
Proof.
  intros s H. rewrite store_migrated_uid_run. run_simpl. now apply P_store.
Qed.

Lemma keeps_transfer ae num folder uid : preserves P (transfer ae num folder uid).
Proof.
  unfold transfer. apply preserves_bind; [apply preserves_imap|].
  intros [flags body].
  apply preserves_bind; [apply preserves_imap|]. intros _.
  apply preserves_bind; [apply keeps_store_migrated_uid|]. intros _.
  apply preserves_log.
Qed.

Lemma keeps_migrate_message_from env num folder uid retries attempts :
  preserves P (migrate_message_from env num folder uid retries attempts).
Proof.
  induction attempts as [|attempt rest IH]; simpl; [apply preserves_ret|].
  apply preserves_bind.
  - apply preserves_try_except.
    + apply preserves_bind; [apply keeps_transfer | intros; apply preserves_ret].
    + intros e. now apply preserves_on_error.
  - intros [b|]; [apply preserves_ret | exact IH].
Qed.

Lemma keeps_migrate_folder_from env folder migrated message_nums :
  forall i, preserves P (migrate_folder_from env folder migrated i message_nums).
Proof.
  induction message_nums as [|num rest IH]; intros i; simpl; [apply preserves_ret|].
  apply preserves_bind; [apply preserves_imap|]. intros uid.
  apply preserves_bind; [|intros _; apply IH].
  destruct (mem uid migrated); [apply preserves_log|].
  apply preserves_bind; [apply keeps_migrate_message_from|]. intros success.
  destruct (negb (truthy success)); [apply preserves_log | apply preserves_ret].
Qed.

Lemma keeps_migrate_folder fe folder : preserves P (migrate_folder fe folder).
Proof.
  unfold migrate_folder. apply preserves_try_except.
  - apply preserves_bind; [apply preserves_imap|]. intros _.
    apply preserves_bind; [apply preserves_imap|]. intros nums.
    apply preserves_bind; [apply preserves_get_migrated_uids|]. intros migrated.
    apply preserves_bind; [apply preserves_log|]. intros _.
    apply preserves_bind; [apply preserves_imap|]. intros _.
    apply preserves_bind; [apply keeps_migrate_folder_from|]. intros _.
    apply preserves_ret.
  - intros e. apply preserves_bind; [apply preserves_log | intros; apply preserves_ret].
Qed.

Lemma keeps_migrate_all_from env folders :
  forall i, preserves P (migrate_all_from env i folders).
Proof.
  induction folders as [|folder rest IH]; intros i; simpl; [apply preserves_ret|].
  apply preserves_bind; [now apply preserves_create_folder|]. intros _.
  apply preserves_bind; [apply keeps_migrate_folder|]. intros _. apply IH.
Qed.

Lemma keeps_migrate_all env : preserves P (migrate_all env).
Proof.
  unfold migrate_all. apply preserves_bind; [now apply preserves_connect|]. intros ok.
  destruct (negb ok); [apply preserves_ret|].
  apply preserves_try_finally.
  - apply preserves_bind; [apply preserves_imap|]. intros folders.
    apply preserves_bind; [apply keeps_migrate_all_from|]. intros _.
    apply preserves_bind; [apply preserves_log | intros; apply preserves_ret].
  - apply preserves_bind; [|intros ?]; apply preserves_logout_if_set.
Qed.

End StoreFacts2.

Section OwnRows.
Import Obs2.

Lemma extends_for_stable d t0 :
  stable (extends_for d t0) /\ stable_store (extends_for d t0).
Proof.
  unfold stable, stable_store, extends_for. simpl.
  split; [repeat split; intros; tauto|].
  intros s f u [Hd (added & E & F)]. split; [exact Hd|]. unfold insert_ignore.
  destruct (existsb _ _); [now exists added|].
  exists (added ++ [mkRow f u (dest_user s)]). split.
  - now rewrite E, app_assoc.
  - apply Forall_app. split; [exact F|]. repeat constructor. exact Hd.
Qed.

(** X23.  A run only adds rows, and only rows of its own account.  The
    table that [migrate_all] leaves is the table it found, row for row
    and in the same order, followed by rows whose [dest_email] is the
    destination account of the migrator: no row is removed, changed or
    moved, whatever the servers answer, so that a run for one account
    leaves what the store holds for every other account as it was. *)
Theorem migrate_all_only_adds_own_rows (env : RunEnv) (s : State) :
  let x := migrate_all env s in
  dest_user (final x) = dest_user s
  /\ (exists added,
        db (final x) = db s ++ added
        /\ Forall (fun r => dest_email r = dest_user s) added)
  /\ (forall s2 f, dest_user s2 <> dest_user s ->
        lookup f (set_db (db (final x)) s2) = lookup f (set_db (db s) s2)).
Proof.
  cbv zeta.
  assert (H : extends_for (dest_user s) (db s) (final (migrate_all env s))).
  { apply (keeps_migrate_all (extends_for (dest_user s) (db s)));
      try apply extends_for_stable.
    split; [reflexivity|]. exists []. split; [now rewrite app_nil_r|constructor]. }
  destruct H as [Hd (added & E & F)].
  split; [exact Hd|]. split; [now exists added|].
  intros s2 f Hn. unfold lookup, get_migrated_uids. run_simpl. simpl.
  rewrite E, sql_select_uid_app.
  assert (Z : sql_select_uid f (dest_user s2) added = []).
  { clear E. unfold sql_select_uid. induction F as [|r added Hr _ IH]; [reflexivity|].
    simpl. destruct (String.eqb_spec (dest_email r) (dest_user s2)) as [E|E];
      [congruence|].
    now rewrite Bool.andb_false_r. }
  now rewrite Z, app_nil_r.
Qed.

End OwnRows.

Lemma delete_rows_resets_one_account_witness :
  Obs2.lookup "INBOX" (set_db (fst (ClearUids.delete_rows "d@x" (db Scenario.two_stored)))
                         Scenario.two_stored) = [].
Proof.
  destruct (delete_rows_resets_one_account "d@x" (db Scenario.two_stored)
              Scenario.two_stored) as (H & _).
  apply (H eq_refl "INBOX").
Defined.

Lemma stored_uid_is_found_for_its_account_witness :
  Obs2.lookup "INBOX"
    (set_db (db (final (store_migrated_uid "INBOX" "3" Scenario.two_stored)))
       (init "other@y" None))
  = Obs2.lookup "INBOX" (set_db (db Scenario.two_stored) (init "other@y" None)).
Proof.
  destruct (stored_uid_is_found_for_its_account "INBOX" "3" Scenario.two_stored)
    as (_ & _ & H).
  apply (H (init "other@y" None) "INBOX"). discriminate.
Defined.

Lemma migrate_all_only_adds_own_rows_witness :
  Obs2.lookup "INBOX"
    (set_db (db (final (migrate_all Scenario.run_fine Scenario.two_stored)))
       (init "other@y" None))
  = Obs2.lookup "INBOX" (set_db (db Scenario.two_stored) (init "other@y" None)).
Proof.
  destruct (migrate_all_only_adds_own_rows Scenario.run_fine Scenario.two_stored)
    as (_ & _ & H).
  apply (H (init "other@y" None) "INBOX"). discriminate.
Defined.

Section RunFacts.
Import Obs2.

(** X24.  What leaves a run.  [migrate_all] returns [False] when
    [connect] fails and [None] otherwise, and the only exceptions that
    leave it are those of the folder listing and of the two final
    logouts, an exception of a logout taking the place of one of the
    listing.  No failure inside a folder leaves it: [create_folder] and
    [migrate_folder] catch theirs. *)
Theorem migrate_all_raises_only_from_list_or_logout (env : RunEnv) (s : State) :
  let x := migrate_all env s in
  out x = run_outcome env
  /\ (forall e, out x = Raise e ->
        connect_ok (re_connect env) = true
        /\ (re_list env = Raise e \/ re_logout_src env = Some e
            \/ re_logout_dst env = Some e)).
Proof.
  cbv zeta. rewrite migrate_all_out. split; [reflexivity|].
  intros e. unfold run_outcome.
  destruct (connect_ok (re_connect env)); [|discriminate].
  destruct (re_logout_src env) as [e1|]; [intros [= ->]; auto|].
  destruct (re_logout_dst env) as [e2|]; [intros [= ->]; auto|].
  destruct (re_list env) as [l|e3]; [discriminate|intros [= ->]; auto].
Qed.

End RunFacts.

Lemma migrate_all_raises_only_from_list_or_logout_witness :
  connect_ok (re_connect Scenario.source_logout_raises) = true
  /\ (re_list Scenario.source_logout_raises
        = Raise (OSError (Some 32%Z) "[Errno 32] Broken pipe")
      \/ re_logout_src Scenario.source_logout_raises
           = Some (OSError (Some 32%Z) "[Errno 32] Broken pipe")
      \/ re_logout_dst Scenario.source_logout_raises
           = Some (OSError (Some 32%Z) "[Errno 32] Broken pipe")).
Proof.
  destruct (migrate_all_raises_only_from_list_or_logout Scenario.source_logout_raises
              Scenario.fresh) as (_ & H).
  apply (H (OSError (Some 32%Z) "[Errno 32] Broken pipe")). reflexivity.
Defined.
